(** * Optiease MarkItDown server: transcript pipeline and session store

    A shallow embedding of [server.py]: filename sanitisation, YouTube URL
    normalisation, the yt-dlp subtitle path (track selection, playlist
    refusal, subtitle decoding, the length gate), the fallback to
    youtube-transcript-api, the session store endpoints, the conversion
    endpoints for a request that carries a URL, the batch conversion and
    the tables of formats; and of [setup.py]: the steps of the setup and
    the start of the server.

    Conventions.
    - A Python [str] is a list of code points ([N]); literals are written as
      Rocq strings and coerced.
    - A Python exception is a value of [exn]; a function that can raise
      returns [result].
    - Library behaviour that depends on tables this development does not
      contain (the Unicode database, the UTF-8 codec on non-ASCII bytes,
      IPv6 literal validation, the JSON codec, [str()] of containers) is
      taken from a record [Lib]; remote services (yt-dlp, HTTP,
      youtube-transcript-api) are taken from a record [Net]. *)

From Stdlib Require Import List Ascii String NArith ZArith Lia Bool.
From Stdlib Require Import DecimalString.
From Stdlib Require Import Sorting.Sorted Sorting.Permutation.
Import ListNotations.
Open Scope string_scope.
Open Scope list_scope.

(* ================================================================== *)
(** * Strings *)
(* ================================================================== *)

Definition char := N.
Definition str := list char.

Definition of_string (s : string) : list N :=
  map N_of_ascii (list_ascii_of_string s).
Coercion of_string : string >-> list.
Coercion N_of_ascii : ascii >-> N.

Definition len (s : str) : nat := List.length s.

Fixpoint str_eqb (a b : str) : bool :=
  match a, b with
  | [], [] => true
  | x :: a', y :: b' => N.eqb x y && str_eqb a' b'
  | _, _ => false
  end.

(** [s.startswith(p)] *)
Fixpoint startswith (p s : str) : bool :=
  match p, s with
  | [], _ => true
  | a :: p', b :: s' => N.eqb a b && startswith p' s'
  | _ :: _, [] => false
  end.

(** [p in s] *)
Fixpoint contains (p s : str) : bool :=
  startswith p s ||
  match s with
  | [] => false
  | _ :: t => contains p t
  end.

Definition mem_char (c : char) (s : str) : bool := existsb (N.eqb c) s.

Fixpoint take_while (f : char -> bool) (s : str) : str :=
  match s with
  | [] => []
  | c :: t => if f c then c :: take_while f t else []
  end.

Fixpoint drop_while (f : char -> bool) (s : str) : str :=
  match s with
  | [] => []
  | c :: t => if f c then drop_while f t else s
  end.

(** [s.lstrip(chars)], [s.rstrip(chars)], [s.strip(chars)] for a character
    class [f]. *)
Definition lstrip (f : char -> bool) (s : str) : str := drop_while f s.
Definition rstrip (f : char -> bool) (s : str) : str :=
  rev (drop_while f (rev s)).
Definition strip (f : char -> bool) (s : str) : str := rstrip f (lstrip f s).

(** [s.split(c)] for a one-character separator: never empty. *)
Fixpoint split (c : char) (s : str) : list str :=
  match s with
  | [] => [[]]
  | x :: t =>
      if N.eqb x c then [] :: split c t
      else match split c t with
           | h :: r => (x :: h) :: r
           | [] => [[x]]
           end
  end.

(** [s.split(c, 1)]: the text before the first [c] and, when there is one,
    the text after it. *)
Fixpoint split_once (c : char) (s : str) : str * option str :=
  match s with
  | [] => ([], None)
  | x :: t =>
      if N.eqb x c then ([], Some t)
      else let '(a, b) := split_once c t in (x :: a, b)
  end.

(** [sep.join(parts)] *)
Fixpoint join (sep : str) (parts : list str) : str :=
  match parts with
  | [] => []
  | [p] => p
  | p :: rest => p ++ sep ++ join sep rest
  end.

(** [s.find(c)] and [s.rfind(c)], with Python's [-1] for "not found". *)
Fixpoint find_from (c : char) (s : str) (i : Z) : Z :=
  match s with
  | [] => (-1)%Z
  | x :: t => if N.eqb x c then i else find_from c t (i + 1)%Z
  end.
Definition find (c : char) (s : str) : Z := find_from c s 0%Z.

Fixpoint rfind_from (c : char) (s : str) (i last : Z) : Z :=
  match s with
  | [] => last
  | x :: t => rfind_from c t (i + 1)%Z (if N.eqb x c then i else last)
  end.
Definition rfind (c : char) (s : str) : Z := rfind_from c s 0%Z (-1)%Z.

(** Slices [s[:k]] and [s[k:]] with Python's treatment of a negative
    bound (counted from the end, clamped at 0). *)
Definition slice_index (s : str) (k : Z) : nat :=
  if (k <? 0)%Z then Z.to_nat (Z.of_nat (len s) + k) else Z.to_nat k.
Definition slice_to (s : str) (k : Z) : str := firstn (slice_index s k) s.
Definition slice_from (s : str) (k : Z) : str := skipn (slice_index s k) s.

(** [s.replace(a, b)] for single characters. *)
Definition replace_char (a b : char) (s : str) : str :=
  map (fun c => if N.eqb c a then b else c) s.

(** Unicode white space below: what [str.strip()] removes and what [\s]
    matches in a [str] pattern. *)
Definition is_space (c : char) : bool :=
  (((9 <=? c) && (c <=? 13)) || ((28 <=? c) && (c <=? 32)) ||
  (c =? 133) || (c =? 160) || (c =? 5760) ||
  ((8192 <=? c) && (c <=? 8202)) || (c =? 8232) || (c =? 8233) ||
  (c =? 8239) || (c =? 8287) || (c =? 12288))%N.

Definition is_ascii_digit (c : char) : bool :=  ((48 <=? c) && (c <=? 57))%N.
Definition is_ascii_upper (c : char) : bool :=  ((65 <=? c) && (c <=? 90))%N.
Definition is_ascii_lower (c : char) : bool :=  ((97 <=? c) && (c <=? 122))%N.
Definition is_ascii_alpha (c : char) : bool :=
  is_ascii_upper c || is_ascii_lower c.
Definition is_ascii (c : char) : bool :=  (c <? 128)%N.
Definition ascii_lower (c : char) : char :=
  (if is_ascii_upper c then c + 32 else c)%N.

Definition hex_value (c : char) : option N :=
  (if is_ascii_digit c then Some (c - 48)
  else if (65 <=? c) && (c <=? 70) then Some (c - 55)
  else if (97 <=? c) && (c <=? 102) then Some (c - 87)
  else None)%N.

(* ================================================================== *)
(** * Exceptions *)
(* ================================================================== *)

Inductive exn_kind :=
| ValueError | KeyError | TypeError | AttributeError | OSError
| JSONDecodeError
| TranscriptsDisabled | NoTranscriptFound | VideoUnavailable
| PlainException.

Record exn := mk_exn { exn_kind_of : exn_kind; exn_message : str }.

Inductive result (A : Type) :=
| Ok (a : A)
| Raise (e : exn).
Arguments Ok {A} a.
Arguments Raise {A} e.

Definition exn_kind_eqb (a b : exn_kind) : bool :=
  match a, b with
  | ValueError, ValueError | KeyError, KeyError | TypeError, TypeError
  | AttributeError, AttributeError | OSError, OSError
  | JSONDecodeError, JSONDecodeError
  | TranscriptsDisabled, TranscriptsDisabled
  | NoTranscriptFound, NoTranscriptFound
  | VideoUnavailable, VideoUnavailable
  | PlainException, PlainException => true
  | _, _ => false
  end.

(* ================================================================== *)
(** * JSON values *)
(* ================================================================== *)

(** What [json.loads] and [request.get_json()] produce. Objects keep their
    keys in order, as a Python [dict] does. Numbers are the integers;
    non-integral numbers are outside this development. *)
Inductive json :=
| JNull
| JBool (b : bool)
| JInt (z : Z)
| JStr (s : str)
| JList (l : list json)
| JDict (d : list (str * json)).

(** [d.get(k)] on the entries of a [dict]. *)
Fixpoint dict_get {A : Type} (k : str) (d : list (str * A)) : option A :=
  match d with
  | [] => None
  | (k', v) :: r => if str_eqb k k' then Some v else dict_get k r
  end.

(** [d[k] = v]: an existing key keeps its place. *)
Fixpoint dict_set {A : Type} (k : str) (v : A) (d : list (str * A))
  : list (str * A) :=
  match d with
  | [] => [(k, v)]
  | (k', v') :: r =>
      if str_eqb k k' then (k', v) :: r else (k', v') :: dict_set k v r
  end.

(** Python truthiness of a JSON value. *)
Definition truthy (j : json) : bool :=
  match j with
  | JNull => false
  | JBool b => b
  | JInt z => negb (Z.eqb z 0)
  | JStr s => negb (str_eqb s [])
  | JList l => match l with [] => false | _ => true end
  | JDict d => match d with [] => false | _ => true end
  end.

(* ================================================================== *)
(** * Library parameters *)
(* ================================================================== *)

Record Lib := mk_Lib {
  (** the non-ASCII code points of Unicode category Nd (what [\d] matches
      beyond [0-9]) *)
  unicode_Nd : char -> bool;
  (** [bytes.decode('utf-8', 'replace')] on a maximal run of bytes that are
      all at least 0x80 *)
  utf8_decode_high : list N -> str;
  (** [urllib.parse]'s validation of a network location with a bracketed
      host; [false] is a [ValueError] *)
  bracketed_host_ok : str -> bool;
  (** [urllib.parse]'s NFKC check of a non-ASCII network location; [false]
      is a [ValueError] *)
  nfkc_netloc_ok : str -> bool;
  (** [json.loads]; [None] is a [JSONDecodeError] *)
  json_loads : str -> option json;
  (** [json.dumps(obj, indent=2, ensure_ascii=False)] *)
  json_dumps : json -> str;
  (** [str()] of a list or a dict *)
  str_of_container : json -> str
}.

(* ================================================================== *)
(** * urllib.parse *)
(* ================================================================== *)

Record ParseResult := mk_ParseResult {
  scheme : str; netloc : str; path : str;
  params : str; query : str; fragment : str
}.

Definition is_c0_or_space (c : char) : bool :=  (c <=? 32)%N.
Definition is_unsafe_url_char (c : char) : bool :=
  ((c =? 9) || (c =? 10) || (c =? 13))%N.
Definition is_scheme_char (c : char) : bool :=
  (is_ascii_alpha c || is_ascii_digit c ||
  (c =? "+"%char) || (c =? "-"%char) || (c =? "."%char))%N.

Definition uses_params : list str :=
  [ []; of_string "ftp"; of_string "hdl"; of_string "prospero";
    of_string "http"; of_string "imap"; of_string "https";
    of_string "shttp"; of_string "rtsp"; of_string "rtsps";
    of_string "rtspu"; of_string "sip"; of_string "sips";
    of_string "mms"; of_string "sftp"; of_string "tel" ].

(** The scheme step of [urlsplit]: a prefix before the first [:] that
    starts with an ASCII letter and holds only scheme characters. *)
Definition split_scheme (url : str) : str * str :=
  let i := find ":"%char url in
  if (0 <? i)%Z then
    let pre := firstn (Z.to_nat i) url in
    match url with
    | c0 :: _ =>
        if is_ascii c0 && is_ascii_alpha c0 && forallb is_scheme_char pre
        then (map ascii_lower pre, skipn (Z.to_nat i + 1) url)
        else ([], url)
    | [] => ([], url)
    end
  else ([], url).

Definition is_netloc_delim (c : char) : bool :=
  ((c =? "/"%char) || (c =? "?"%char) || (c =? "#"%char))%N.

(** [_splitnetloc(url, 2)] *)
Definition splitnetloc (url : str) : str * str :=
  let rest := skipn 2 url in
  (take_while (fun c => negb (is_netloc_delim c)) rest,
   drop_while (fun c => negb (is_netloc_delim c)) rest).

Definition netloc_brackets_ok (L : Lib) (nl : str) : bool :=
  let o := mem_char "["%char nl in
  let c := mem_char "]"%char nl in
  if (o && negb c) || (c && negb o) then false
  else if o && c then bracketed_host_ok L nl
  else true.

Definition checknetloc (L : Lib) (nl : str) : bool :=
  match nl with
  | [] => true
  | _ => if forallb is_ascii nl then true else nfkc_netloc_ok L nl
  end.

(** [urlsplit(url)]: [None] is a [ValueError]. The result is
    (scheme, netloc, path, query, fragment). *)
Definition urlsplit (L : Lib) (url : str)
  : option (str * str * str * str * str) :=
  let url := lstrip is_c0_or_space url in
  let url := filter (fun c => negb (is_unsafe_url_char c)) url in
  let '(sch, url) := split_scheme url in
  let '(nl, url) :=
    if str_eqb (firstn 2 url) "//" then splitnetloc url else ([], url) in
  if negb (netloc_brackets_ok L nl) then None
  else
    let '(url, frag) :=
      match split_once "#"%char url with
      | (a, Some b) => (a, b)
      | (a, None) => (a, [])
      end in
    let '(url, q) :=
      match split_once "?"%char url with
      | (a, Some b) => (a, b)
      | (a, None) => (a, [])
      end in
    if negb (checknetloc L nl) then None
    else Some (sch, nl, url, q, frag).

(** [_splitparams(url)] *)
Definition splitparams (url : str) : str * str :=
  let i :=
    if mem_char "/"%char url then
      let r := Z.to_nat (rfind "/"%char url) in
      let j := find ";"%char (skipn r url) in
      if (j <? 0)%Z then (-1)%Z else (Z.of_nat r + j)%Z
    else find ";"%char url in
  if mem_char "/"%char url && (i <? 0)%Z then (url, [])
  else (slice_to url i, slice_from url (i + 1)%Z).

(** [urlparse(url)]: [None] is a [ValueError]. *)
Definition urlparse (L : Lib) (url : str) : option ParseResult :=
  match urlsplit L url with
  | None => None
  | Some (sch, nl, p, q, frag) =>
      let '(p, prm) :=
        if existsb (str_eqb sch) uses_params && mem_char ";"%char p
        then splitparams p else (p, []) in
      Some (mk_ParseResult sch nl p prm q frag)
  end.

(** Percent-decoding ([unquote]). A [%] followed by two hexadecimal digits
    is a byte; any other character stands for itself. *)
Inductive qtok :=
| QChar (c : char)
| QByte (b : N).

Fixpoint unquote_tokens (skip : nat) (s : str) : list qtok :=
  match s with
  | [] => []
  | c :: t =>
      match skip with
      | S k => unquote_tokens k t
      | O =>
          if (c =? "%"%char)%N then
            match t with
            | h1 :: h2 :: _ =>
                match hex_value h1, hex_value h2 with
                | Some a, Some b => QByte (16 * a + b)%N :: unquote_tokens 2 t
                | _, _ => QChar c :: unquote_tokens 0 t
                end
            | _ => QChar c :: unquote_tokens 0 t
            end
          else QChar c :: unquote_tokens 0 t
      end
  end.

Definition flush_high (L : Lib) (run : list N) : str :=
  match run with
  | [] => []
  | _ => utf8_decode_high L run
  end.

(** The UTF-8 decoding of the unquoted bytes: ASCII bytes and the
    characters of the text stand for themselves and end a run of high
    bytes, which the codec decodes as a whole. *)
Fixpoint decode_tokens (L : Lib) (run : list N) (ts : list qtok) : str :=
  match ts with
  | [] => flush_high L run
  | QByte b :: r =>
      if (128 <=? b)%N then decode_tokens L (run ++ [b]) r
      else flush_high L run ++ b :: decode_tokens L [] r
  | QChar c :: r => flush_high L run ++ c :: decode_tokens L [] r
  end.

Definition unquote (L : Lib) (s : str) : str :=
  if mem_char "%"%char s then decode_tokens L [] (unquote_tokens 0 s)
  else s.

(** [parse_qsl(qs)] with the defaults: fields without [=] or with a blank
    value are dropped. *)
Definition parse_qsl (L : Lib) (qs : str) : list (str * str) :=
  match qs with
  | [] => []
  | _ =>
      flat_map
        (fun name_value =>
           match name_value with
           | [] => []
           | _ =>
               match split_once "="%char name_value with
               | (_, None) => []
               | (n, Some v) =>
                   match v with
                   | [] => []
                   | _ =>
                       [(unquote L (replace_char "+"%char " "%char n),
                         unquote L (replace_char "+"%char " "%char v))]
                   end
               end
           end)
        (split "&"%char qs)
  end.

(** [parse_qs(qs)]: the values of each name, in order. *)
Definition parse_qs (L : Lib) (qs : str) : list (str * list str) :=
  fold_left
    (fun d '(n, v) =>
       match dict_get n d with
       | Some vs => dict_set n (vs ++ [v]) d
       | None => d ++ [(n, [v])]
       end)
    (parse_qsl L qs) [].

(** [parse_qs(qs).get('v', [None])[0]] *)
Definition qs_first_v (L : Lib) (qs : str) : option str :=
  match dict_get "v" (parse_qs L qs) with
  | Some (v :: _) => Some v
  | Some [] => None
  | None => None
  end.

(** [os.path.splitext(p)] *)
Definition splitext (p : str) : str * str :=
  let sepIndex := rfind "/"%char p in
  let dotIndex := rfind "."%char p in
  if (sepIndex <? dotIndex)%Z then
    let lead :=
      firstn (Z.to_nat dotIndex - Z.to_nat (sepIndex + 1))
             (skipn (Z.to_nat (sepIndex + 1)) p) in
    if existsb (fun c => negb (c =? "."%char)%N) lead
    then (firstn (Z.to_nat dotIndex) p, skipn (Z.to_nat dotIndex) p)
    else (p, [])
  else (p, []).

(* ================================================================== *)
(** * Filename sanitisation ([sanitize_filename]) *)
(* ================================================================== *)

(** The character class of the [re.sub] call: the nine punctuation
    characters less-than, greater-than, colon, double quote, slash,
    backslash, bar, question mark, star, and the controls 0 to 31. *)
Definition is_invalid_char (c : char) : bool :=
  ((c =? "<"%char) || (c =? ">"%char) || (c =? ":"%char) ||
   (c =? 34) || (c =? "/"%char) || (c =? "\"%char) ||
   (c =? "|"%char) || (c =? "?"%char) || (c =? "*"%char) ||
   (c <=? 31))%N.

Definition is_dot_or_space (c : char) : bool :=
  ((c =? "."%char) || (c =? " "%char))%N.

Definition is_slash (c : char) : bool := (c =? "/"%char)%N.

Definition is_url (filename : str) : bool :=
  startswith "http://" filename || startswith "https://" filename ||
  startswith "ftp://" filename.

(** The name derived from a URL (the [try] block); a [ValueError] of
    [urlparse] gives the [except] branch's name. *)
Definition url_filename (L : Lib) (filename : str) : str :=
  match urlparse L filename with
  | None => "url_content.txt"
  | Some parsed =>
      if contains "youtube.com" (netloc parsed) ||
         contains "youtu.be" (netloc parsed)
      then
        let video_id :=
          if contains "youtu.be" (netloc parsed)
          then Some (strip is_slash (path parsed))
          else if contains "v=" (query parsed)
               then qs_first_v L (query parsed)
               else None in
        match video_id with
        | Some (c :: v) => "youtube_" ++ (c :: v) ++ ".txt"
        | _ => "youtube_video.txt"
        end
      else
        let path_parts :=
          filter (fun p => negb (str_eqb p []))
                 (split "/"%char (path parsed)) in
        match path_parts with
        | _ :: _ => last path_parts []
        | [] => replace_char "."%char "_"%char (netloc parsed) ++ ".txt"
        end
  end.

(** The length limit: the last [if] of [sanitize_filename]. *)
Definition limit_length (filename : str) : str :=
  if Nat.ltb 255 (len filename) then
    let '(name, ext) := splitext filename in
    match ext with
    | _ :: _ => slice_to name (255 - Z.of_nat (len ext))%Z ++ ext
    | [] => firstn 255 filename
    end
  else filename.

(** Everything after the URL branch, up to the length limit. *)
Definition clean_name (filename : str) : str :=
  let filename :=
    map (fun c => if is_invalid_char c then N_of_ascii "_" else c) filename in
  let filename := strip is_dot_or_space filename in
  match filename with
  | [] => "unnamed_file"
  | _ => filename
  end.

Definition sanitize_filename (L : Lib) (filename : str) : str :=
  let filename :=
    if is_url filename then url_filename L filename else filename in
  limit_length (clean_name filename).

(* ================================================================== *)
(** * URL normalisation *)
(* ================================================================== *)

(** The class [[a-zA-Z0-9_-]]. *)
Definition is_id_char (c : char) : bool :=
  (is_ascii_alpha c || is_ascii_digit c ||
   (c =? "_"%char) || (c =? "-"%char))%N.

(** [re.search(r'youtu\.be/([a-zA-Z0-9_-]+)', url)]: group 1 of the
    leftmost match. *)
Fixpoint search_youtu_be (url : str) : option str :=
  let here :=
    if startswith "youtu.be/" url
    then match take_while is_id_char (skipn 9 url) with
         | [] => None
         | g => Some g
         end
    else None in
  match here with
  | Some g => Some g
  | None =>
      match url with
      | [] => None
      | _ :: t => search_youtu_be t
      end
  end.

Definition canonical_url (video_id : str) : str :=
  "https://www.youtube.com/watch?v=" ++ video_id.

(** [clean_youtube_url(url)]; a [ValueError] of [urlparse] propagates. *)
Definition clean_youtube_url (L : Lib) (url : str) : result str :=
  let video_id : result (option str) :=
    if contains "youtu.be" url then Ok (search_youtu_be url)
    else if contains "youtube.com" url then
      match urlparse L url with
      | None => Raise (mk_exn ValueError "invalid URL")
      | Some parsed => Ok (qs_first_v L (query parsed))
      end
    else Ok None in
  match video_id with
  | Raise e => Raise e
  | Ok (Some (c :: v)) => Ok (canonical_url (c :: v))
  | Ok _ => Ok url
  end.

(** [extract_youtube_video_id(url)] *)
Definition extract_youtube_video_id (L : Lib) (url : str)
  : result (option str) :=
  match (if contains "youtu.be" url then search_youtu_be url else None) with
  | Some g => Ok (Some g)
  | None =>
      if contains "youtube.com" url then
        match urlparse L url with
        | None => Raise (mk_exn ValueError "invalid URL")
        | Some parsed => Ok (qs_first_v L (query parsed))
        end
      else Ok None
  end.

(* ================================================================== *)
(** * The regular expressions of the subtitle decoders *)
(* ================================================================== *)

Definition not_gt (c : char) : bool := negb (c =? ">"%char)%N.

(** A match of [<[^>]+>] at the head of [s]: its length. *)
Definition tag_at (s : str) : option nat :=
  match s with
  | [] => None
  | c :: t =>
      if (c =? "<"%char)%N then
        match take_while not_gt t, drop_while not_gt t with
        | (_ :: _) as inner, _ :: _ => Some (len inner + 2)
        | _, _ => None
        end
      else None
  end.

(** [re.sub(r'<[^>]+>', '', s)]; [skip] counts the characters of the
    current match still to be dropped. *)
Fixpoint strip_tags_from (skip : nat) (s : str) : str :=
  match s with
  | [] => []
  | c :: t =>
      match skip with
      | S k => strip_tags_from k t
      | O =>
          match tag_at s with
          | Some n => strip_tags_from (n - 1) t
          | None => c :: strip_tags_from 0 t
          end
      end
  end.
Definition strip_tags (s : str) : str := strip_tags_from 0 s.

(** [<[^>]+>] matches somewhere in [s]. *)
Fixpoint has_tag (s : str) : bool :=
  match tag_at s with
  | Some _ => true
  | None => match s with [] => false | _ :: t => has_tag t end
  end.

(** [re.sub(pat, rep, s)] for a literal, non-empty pattern. *)
Fixpoint replace_from (pat rep : str) (skip : nat) (s : str) : str :=
  match s with
  | [] => []
  | c :: t =>
      match skip with
      | S k => replace_from pat rep k t
      | O =>
          if startswith pat s
          then rep ++ replace_from pat rep (len pat - 1) t
          else c :: replace_from pat rep 0 t
      end
  end.
Definition replace_str (pat rep s : str) : str := replace_from pat rep 0 s.

(** Index of the leftmost occurrence of [p] in [s]. *)
Fixpoint find_str (p s : str) : option nat :=
  if startswith p s then Some 0
  else match s with
       | [] => None
       | _ :: t => option_map S (find_str p t)
       end.

(** A match of [<text[^>]*>(.*?)</text>] (with [re.DOTALL]) at the head of
    [s]: group 1 and the length of the match. *)
Definition text_match_at (s : str) : option (str * nat) :=
  if startswith "<text" s then
    let r := skipn 5 s in
    match drop_while not_gt r with
    | _ :: body =>
        match find_str "</text>" body with
        | Some n => Some (firstn n body, 5 + len (take_while not_gt r) + 1 + n + 7)
        | None => None
        end
    | [] => None
    end
  else None.

(** [re.findall(r'<text[^>]*>(.*?)</text>', s, re.DOTALL)] *)
Fixpoint findall_text_from (skip : nat) (s : str) : list str :=
  match s with
  | [] => []
  | _ :: t =>
      match skip with
      | S k => findall_text_from k t
      | O =>
          match text_match_at s with
          | Some (cap, n) => cap :: findall_text_from (n - 1) t
          | None => findall_text_from 0 t
          end
      end
  end.
Definition findall_text (s : str) : list str := findall_text_from 0 s.

(** [re.sub(r'\s+', ' ', s)]; [in_run] says that the previous character was
    white space. *)
Fixpoint collapse_from (in_run : bool) (s : str) : str :=
  match s with
  | [] => []
  | c :: t =>
      if is_space c
      then if in_run then collapse_from true t
           else N_of_ascii " " :: collapse_from true t
      else c :: collapse_from false t
  end.
Definition collapse_ws (s : str) : str := collapse_from false s.

(** [re.sub(r'\s+', ' ', s).strip()], the clean-up every decoder ends
    with. *)
Definition clean_up (s : str) : str := strip is_space (collapse_ws s).

Definition is_digit (L : Lib) (c : char) : bool :=
  is_ascii_digit c || (negb (is_ascii c) && unicode_Nd L c).

(** [re.match(r'^\d+$', line)] is a match: digits up to the end, or up to
    a final newline. *)
Definition is_cue_number (L : Lib) (line : str) : bool :=
  match take_while (is_digit L) line, drop_while (is_digit L) line with
  | _ :: _, [] => true
  | _ :: _, [c] => (c =? 10)%N
  | _, _ => false
  end.

(* ================================================================== *)
(** * Python operations on JSON values (for the json3 decoder) *)
(* ================================================================== *)

Definition type_error : exn := mk_exn TypeError "unsupported operand".
Definition attribute_error : exn := mk_exn AttributeError "no such attribute".
Definition key_error (k : str) : exn := mk_exn KeyError k.

(** [for x in j] *)
Definition py_iter (j : json) : result (list json) :=
  match j with
  | JList l => Ok l
  | JDict d => Ok (map (fun kv => JStr (fst kv)) d)
  | JStr s => Ok (map (fun c => JStr [c]) s)
  | _ => Raise type_error
  end.

(** [k in j] for a string [k] *)
Definition py_in (k : str) (j : json) : result bool :=
  match j with
  | JDict d => Ok (match dict_get k d with Some _ => true | None => false end)
  | JList l =>
      Ok (existsb (fun x => match x with JStr s => str_eqb s k | _ => false end) l)
  | JStr s => Ok (contains k s)
  | _ => Raise type_error
  end.

(** [j[k]] for a string [k] *)
Definition py_getitem (k : str) (j : json) : result json :=
  match j with
  | JDict d =>
      match dict_get k d with
      | Some v => Ok v
      | None => Raise (key_error k)
      end
  | _ => Raise type_error
  end.

(** [j.get(k, default)] *)
Definition py_get (k : str) (default : json) (j : json) : result json :=
  match j with
  | JDict d =>
      Ok (match dict_get k d with Some v => v | None => default end)
  | _ => Raise attribute_error
  end.

(** [len(j)] *)
Definition py_len (j : json) : result nat :=
  match j with
  | JList l => Ok (List.length l)
  | JDict d => Ok (List.length d)
  | JStr s => Ok (len s)
  | _ => Raise type_error
  end.

Definition bind_result {A B : Type} (r : result A) (k : A -> result B)
  : result B :=
  match r with
  | Ok a => k a
  | Raise e => Raise e
  end.

Notation "'let?' x ':=' r 'in' k" := (bind_result r (fun x => k))
  (at level 200, x pattern, r at level 100, k at level 200).

(** A loop body run over a list, stopping at the first exception. *)
Fixpoint for_each {A S : Type} (body : S -> A -> result S) (l : list A)
  (s : S) : result S :=
  match l with
  | [] => Ok s
  | x :: r => let? s' := body s x in for_each body r s'
  end.

(* ================================================================== *)
(** * Subtitle decoding *)
(* ================================================================== *)

(** The [json3] branch. *)
Definition decode_json3 (L : Lib) (content : str) : result str :=
  match json_loads L content with
  | None => Raise (mk_exn JSONDecodeError "invalid JSON")
  | Some data =>
      let? events := py_get "events" (JList []) data in
      let? events := py_iter events in
      let? text_lines :=
        for_each
          (fun text_lines event =>
             let? has_segs := py_in "segs" event in
             if has_segs then
               let? segs := py_getitem "segs" event in
               let? segs := py_iter segs in
               for_each
                 (fun text_lines seg =>
                    let? has_utf8 := py_in "utf8" seg in
                    if has_utf8 then
                      let? u := py_getitem "utf8" seg in
                      match u with
                      | JStr s => Ok (text_lines ++ [strip is_space s])
                      | _ => Raise attribute_error
                      end
                    else Ok text_lines)
                 segs text_lines
             else Ok text_lines)
          events [] in
      Ok (clean_up (join " " text_lines))
  end.

(** One [<text>] element of the [srv1]/[srv2]/[srv3] branch. *)
Definition decode_cue (text : str) : str :=
  let text := replace_str "&amp;" "&" text in
  let text := replace_str "&lt;" "<" text in
  let text := replace_str "&gt;" ">" text in
  let text := replace_str "&quot;" [34%N] text in
  let text := replace_str "&#39;" "'" text in
  let text := strip_tags text in
  strip is_space text.

Definition nonempty (s : str) : bool :=
  match s with [] => false | _ => true end.

Definition decode_srv (content : str) : str :=
  join " " (filter nonempty (map decode_cue (findall_text content))).

(** One line of the WebVTT branch: the text it contributes, if any. *)
Definition decode_vtt_line (L : Lib) (line : str) : option str :=
  let line := strip is_space line in
  if nonempty line && negb (startswith "WEBVTT" line) &&
     negb (contains "-->" line) && negb (is_cue_number L line) &&
     negb (startswith "NOTE" line)
  then
    match strip_tags line with
    | [] => None
    | l => Some l
    end
  else None.

Definition decode_vtt (L : Lib) (content : str) : str :=
  join " "
    (flat_map
       (fun line => match decode_vtt_line L line with
                    | Some l => [l]
                    | None => []
                    end)
       (split 10%N content)).

Definition is_srv (e : option str) : bool :=
  match e with
  | Some e => str_eqb e "srv1" || str_eqb e "srv2" || str_eqb e "srv3"
  | None => false
  end.

Definition ext_is (e : option str) (fmt : str) : bool :=
  match e with
  | Some e => str_eqb e fmt
  | None => false
  end.

(** The format dispatch followed by the common clean-up. *)
Definition decode_subtitle (L : Lib) (selected_ext : option str)
  (content : str) : result str :=
  let? full_text :=
    if ext_is selected_ext "json3" then decode_json3 L content
    else if is_srv selected_ext then Ok (decode_srv content)
    else if contains "WEBVTT" content || ext_is selected_ext "vtt"
         then Ok (decode_vtt L content)
         else Ok content in
  Ok (clean_up full_text).

(** The check on the downloaded body: an M3U8 playlist. *)
Definition is_m3u8_playlist (content : str) : bool :=
  startswith "#EXTM3U" content || contains "#EXT-X-" content.

(** [full_text and len(full_text) > 50] *)
Definition meaningful (full_text : str) : bool :=
  nonempty full_text && Nat.ltb 50 (len full_text).

(* ================================================================== *)
(** * Subtitle track selection (yt-dlp path) *)
(* ================================================================== *)

(** One entry of the track list: [sub.get('ext')] and [sub['url']]
    ([None] when the key is missing). *)
Record track := mk_track { ext : option str; url : option str }.

(** [subtitle_url] and [selected_ext] *)
Record selection := mk_selection {
  subtitle_url : option str;
  selected_ext : option str
}.

Definition url_truthy (u : option str) : bool :=
  match u with
  | Some (_ :: _) => true
  | _ => false
  end.

Definition priority_formats : list str :=
  [of_string "json3"; of_string "srv3"; of_string "vtt";
   of_string "srv2"; of_string "srv1"].

(** The inner loop for one format: the first track with that tag. *)
Fixpoint pick_format (fmt : str) (subtitles : list track) (st : selection)
  : result selection :=
  match subtitles with
  | [] => Ok st
  | sub :: rest =>
      if ext_is (ext sub) fmt then
        match url sub with
        | None => Raise (key_error "url")
        | Some u => Ok (mk_selection (Some u) (Some fmt))
        end
      else pick_format fmt rest st
  end.

(** The loop over [priority_formats]. *)
Fixpoint pick_priority (fmts : list str) (subtitles : list track)
  (st : selection) : result selection :=
  match fmts with
  | [] => Ok st
  | fmt :: rest =>
      let? st' := pick_format fmt subtitles st in
      if url_truthy (subtitle_url st') then Ok st'
      else pick_priority rest subtitles st'
  end.

(** The second loop: the first track whose tag is not [m3u8]. *)
Fixpoint pick_non_m3u8 (subtitles : list track) (st : selection)
  : result selection :=
  match subtitles with
  | [] => Ok st
  | sub :: rest =>
      if negb (ext_is (ext sub) "m3u8") then
        match url sub with
        | None => Raise (key_error "url")
        | Some u => Ok (mk_selection (Some u) (ext sub))
        end
      else pick_non_m3u8 rest st
  end.

Definition select_subtitle (subtitles : list track) : result selection :=
  let? st := pick_priority priority_formats subtitles
               (mk_selection None None) in
  if negb (url_truthy (subtitle_url st))
  then pick_non_m3u8 subtitles st
  else Ok st.

(* ================================================================== *)
(** * Remote services and the call log *)
(* ================================================================== *)

(** [info]: the English entries of [subtitles] and of
    [automatic_captions]. *)
Record video_info := mk_video_info {
  subtitles_en : option (list track);
  automatic_captions_en : option (list track)
}.

Record http_response := mk_http_response { status_code : Z; text : str }.

(** A transcript of youtube-transcript-api with the outcome of its
    [fetch()]: the [text] of each entry. *)
Record transcript := mk_transcript {
  language : str;
  is_generated : bool;
  fetch : result (list str)
}.

Record Net := mk_Net {
  YTDLP_AVAILABLE : bool;
  YOUTUBE_API_AVAILABLE : bool;
  (** [ydl.extract_info(url, download=False)] *)
  ydl_extract_info : str -> result video_info;
  (** [requests.get(url, timeout=30)] *)
  requests_get : str -> result http_response;
  (** [YouTubeTranscriptApi.get_transcript(video_id, languages=...)] *)
  api_get_transcript : str -> result (list str);
  (** [YouTubeTranscriptApi.list_transcripts(video_id)], in iteration
      order *)
  api_list_transcripts : str -> result (list transcript);
  (** [transcript_list.find_transcript(['en', 'en-US', 'en-GB'])] *)
  api_find_transcript : list transcript -> result transcript
}.

Inductive event :=
| EvExtractInfo (url : str)
| EvHttpGet (url : str)
| EvGetTranscript (video_id : str)
| EvListTranscripts (video_id : str)
| EvFindTranscript
| EvFetch (language : str).

(** A computation that logs the remote calls it makes and may raise. *)
Definition M (A : Type) : Type := list event * result A.

Definition ret {A : Type} (a : A) : M A := ([], Ok a).
Definition raise {A : Type} (e : exn) : M A := ([], Raise e).
Definition bind {A B : Type} (m : M A) (k : A -> M B) : M B :=
  match m with
  | (log, Ok a) => let '(log', r) := k a in (log ++ log', r)
  | (log, Raise e) => (log, Raise e)
  end.
Definition call {A : Type} (ev : event) (r : result A) : M A := ([ev], r).
Definition lift {A : Type} (r : result A) : M A := ([], r).

(** [try: m  except Exception as e: handler(e)] *)
Definition try_except {A : Type} (m : M A) (handler : exn -> M A) : M A :=
  match m with
  | (log, Ok a) => (log, Ok a)
  | (log, Raise e) => let '(log', r) := handler e in (log ++ log', r)
  end.

Notation "x <- m ;; k" := (bind m (fun x => k))
  (at level 61, m at next level, right associativity).

Definition plain (msg : str) : exn := mk_exn PlainException msg.

(** [str(e)] *)
Definition str_of_exn (e : exn) : str := exn_message e.

(** The dict [get_youtube_transcript] returns. *)
Record transcript_result := mk_transcript_result {
  tr_success : bool;
  tr_text : str;
  tr_video_id : str;
  tr_language : str;
  tr_is_generated : bool
}.

(* ================================================================== *)
(** * The yt-dlp method *)
(* ================================================================== *)

(** What follows the download of the selected track (status 200). *)
Definition process_body (L : Lib) (video_id : str)
  (selected_ext : option str) (content : str) : result transcript_result :=
  if is_m3u8_playlist content
  then Raise (plain "M3U8 playlist received instead of subtitles")
  else
    let? full_text := decode_subtitle L selected_ext content in
    if meaningful full_text
    then Ok (mk_transcript_result true full_text video_id "en" true)
    else Raise (plain "Insufficient content extracted").

Definition tracks_truthy (t : option (list track)) : bool :=
  match t with
  | Some (_ :: _) => true
  | _ => false
  end.

(** The body of the [try] block: [Some] is the [return], [None] is
    reaching the end of the block without a result. *)
Definition ytdlp_body (L : Lib) (W : Net) (video_id : str)
  : M (option transcript_result) :=
  info <- call (EvExtractInfo (canonical_url video_id))
            (ydl_extract_info W (canonical_url video_id)) ;;
  let subtitles :=
    if tracks_truthy (subtitles_en info) then subtitles_en info
    else automatic_captions_en info in
  match subtitles with
  | Some (t :: ts) =>
      st <- lift (select_subtitle (t :: ts)) ;;
      match subtitle_url st with
      | Some (c :: u) =>
          response <- call (EvHttpGet (c :: u)) (requests_get W (c :: u)) ;;
          if (status_code response =? 200)%Z then
            r <- lift (process_body L video_id (selected_ext st)
                         (text response)) ;;
            ret (Some r)
          else ret None
      | _ => ret None
      end
  | _ => ret None
  end.

(** The guarded [try ... except Exception] around the yt-dlp method: every
    exception is logged and dropped. *)
Definition ytdlp_method (L : Lib) (W : Net) (video_id : str)
  : M (option transcript_result) :=
  if YTDLP_AVAILABLE W then
    try_except (ytdlp_body L W video_id) (fun _ => ret None)
  else ret None.

(* ================================================================== *)
(** * The youtube-transcript-api method *)
(* ================================================================== *)

Definition newline : str := [10%N].

(** The loop over all transcripts after the first [fetch()] failed:
    [Some] is the [break], [None] the loop's [else]. *)
Fixpoint fetch_any (ts : list transcript)
  : M (option (transcript * list str)) :=
  match ts with
  | [] => ret None
  | alt :: rest =>
      try_except
        (d <- call (EvFetch (language alt)) (fetch alt) ;; ret (Some (alt, d)))
        (fun _ => fetch_any rest)
  end.

(** The body of the outer [try]. *)
Definition api_body (W : Net) (video_id : str) : M transcript_result :=
  simple <-
    try_except
      (d <- call (EvGetTranscript video_id) (api_get_transcript W video_id) ;;
       ret (Some d))
      (fun _ => ret None) ;;
  match simple with
  | Some transcript_data =>
      ret (mk_transcript_result true (join newline transcript_data)
             video_id "en" true)
  | None =>
      transcript_list <-
        call (EvListTranscripts video_id) (api_list_transcripts W video_id) ;;
      tr <-
        try_except
          (call EvFindTranscript (api_find_transcript W transcript_list))
          (fun e =>
             match exn_kind_of e with
             | NoTranscriptFound =>
                 match transcript_list with
                 | first :: _ => ret first
                 | [] => raise (mk_exn NoTranscriptFound video_id)
                 end
             | _ => raise e
             end) ;;
      td <-
        try_except
          (d <- call (EvFetch (language tr)) (fetch tr) ;; ret (tr, d))
          (fun fetch_error =>
             try_except
               (found <- fetch_any transcript_list ;;
                match found with
                | Some p => ret p
                | None =>
                    raise (plain ("All transcript fetches failed. Original error: "
                                  ++ str_of_exn fetch_error))
                end)
               (fun alt_error =>
                  raise (plain ("Could not fetch transcript. Try: "
                                ++ str_of_exn alt_error)))) ;;
      let '(tr, transcript_data) := td in
      ret (mk_transcript_result true (join newline transcript_data)
             video_id (language tr) (is_generated tr))
  end.

(** The [except] clauses of the outer [try]. *)
Definition api_handler (e : exn) : M transcript_result :=
  match exn_kind_of e with
  | TranscriptsDisabled =>
      raise (plain "Transcripts are disabled for this video")
  | NoTranscriptFound =>
      raise (plain "No transcripts found for this video. The video may not have captions/subtitles available.")
  | VideoUnavailable => raise (plain "Video is unavailable or private")
  | _ => raise e
  end.

(** Everything after the yt-dlp method. *)
Definition api_method (W : Net) (video_id : str) : M transcript_result :=
  if negb (YOUTUBE_API_AVAILABLE W) then
    raise (plain "No YouTube transcript extraction method available. Install youtube-transcript-api or yt-dlp")
  else try_except (api_body W video_id) api_handler.

(* ================================================================== *)
(** * [get_youtube_transcript] *)
(* ================================================================== *)

Definition get_youtube_transcript (L : Lib) (W : Net) (url : str)
  : M transcript_result :=
  video_id <- lift (extract_youtube_video_id L url) ;;
  match video_id with
  | Some (c :: v) =>
      first <- ytdlp_method L W (c :: v) ;;
      match first with
      | Some r => ret r
      | None => api_method W (c :: v)
      end
  | _ =>
      raise (mk_exn ValueError ("Could not extract video ID from URL: " ++ url))
  end.

(** The [/youtube] endpoint from the URL check on: the cleaned URL and the
    transcript. *)
Definition convert_youtube (L : Lib) (W : Net) (url : str)
  : M (str * transcript_result) :=
  url <- lift (clean_youtube_url L url) ;;
  r <- get_youtube_transcript L W url ;;
  ret (url, r).

(* ================================================================== *)
(** * The storage directory *)
(* ================================================================== *)

(** A path below the storage root, by components. *)
Definition fpath := list str.

Inductive node :=
| Dir
| File (content : str)
| Unreadable.   (* a file that cannot be opened *)

(** The entries of the storage root, in the order the file system lists
    them. *)
Definition fs := list (fpath * node).

Fixpoint fpath_eqb (a b : fpath) : bool :=
  match a, b with
  | [], [] => true
  | x :: a', y :: b' => str_eqb x y && fpath_eqb a' b'
  | _, _ => false
  end.

Fixpoint fs_get (p : fpath) (d : fs) : option node :=
  match d with
  | [] => None
  | (q, n) :: r => if fpath_eqb p q then Some n else fs_get p r
  end.

Fixpoint fs_set (p : fpath) (n : node) (d : fs) : fs :=
  match d with
  | [] => [(p, n)]
  | (q, m) :: r =>
      if fpath_eqb p q then (q, n) :: r else (q, m) :: fs_set p n r
  end.

Definition os_error (msg : str) : exn := mk_exn OSError msg.

(** The components of a relative path string, as [pathlib] keeps them:
    empty components and [.] are dropped. A component [..] is kept as a
    name: the disk of this development has no parent links and no
    symbolic links. *)
Definition path_components (s : str) : fpath :=
  filter (fun c => negb (str_eqb c []) && negb (str_eqb c "."))
         (split "/"%char s).

(** [Path.mkdir(exist_ok=True)] on [p], whose parent exists. *)
Definition mkdir (p : fpath) (d : fs) : result fs :=
  match fs_get p d with
  | Some Dir => Ok d
  | Some _ => Raise (os_error "File exists")
  | None => Ok (d ++ [(p, Dir)])
  end.

(** Opening [p] for writing and writing [content]. *)
Definition write_file (p : fpath) (content : str) (d : fs) : result fs :=
  match fs_get (removelast p) d, removelast p with
  | Some Dir, _ | _, [] =>
      match fs_get p d with
      | Some Dir => Raise (os_error "Is a directory")
      | Some Unreadable => Raise (os_error "Permission denied")
      | _ => Ok (fs_set p (File content) d)
      end
  | _, _ => Raise (os_error "No such file or directory")
  end.

(** Opening [p] for reading and reading it all. *)
Definition read_file (p : fpath) (d : fs) : result str :=
  match fs_get p d with
  | Some (File content) => Ok content
  | Some Dir => Raise (os_error "Is a directory")
  | Some Unreadable => Raise (os_error "Permission denied")
  | None => Raise (os_error "No such file or directory")
  end.

Definition exists_ (p : fpath) (d : fs) : bool :=
  match fs_get p d with Some _ => true | None => false end.

Definition is_dir (p : fpath) (d : fs) : bool :=
  match fs_get p d with Some Dir => true | _ => false end.

(** [storage_dir.glob('chat_*')]: the entries of the root whose name
    starts with [chat_], in listing order. *)
Definition glob_chat (d : fs) : list fpath :=
  flat_map
    (fun e => match fst e with
              | [name] => if startswith "chat_" name then [[name]] else []
              | _ => []
              end)
    d.

(* ================================================================== *)
(** * Session endpoints *)
(* ================================================================== *)

(** A JSON response: the payload, or the status and the error text. *)
Inductive response (A : Type) :=
| Success (payload : A)
| Failure (status : nat) (error : str).
Arguments Success {A} payload.
Arguments Failure {A} status error.

Definition str_of_Z (z : Z) : str :=
  of_string (DecimalString.NilZero.string_of_int (Z.to_int z)).

(** [str(j)], as the f-string formats the chat identifier. *)
Definition py_str (L : Lib) (j : json) : str :=
  match j with
  | JNull => "None"
  | JBool true => "True"
  | JBool false => "False"
  | JInt z => str_of_Z z
  | JStr s => s
  | _ => str_of_container L j
  end.

(** [Path(STORAGE_PATH) / f"chat_{chat_id}"], below the storage root. *)
Definition chat_folder_of (chat_id : str) : fpath :=
  path_components ("chat_" ++ chat_id).

Definition or_else (a b : json) : json := if truthy a then a else b.

(** Code that writes to the disk and may raise: the disk is kept as far
    as it was written. *)
Definition FSM (A : Type) : Type := fs -> fs * result A.

Definition fs_ret {A : Type} (a : A) : FSM A := fun d => (d, Ok a).
Definition fs_lift {A : Type} (r : result A) : FSM A := fun d => (d, r).
Definition fs_bind {A B : Type} (m : FSM A) (k : A -> FSM B) : FSM B :=
  fun d =>
    match m d with
    | (d', Ok a) => k a d'
    | (d', Raise e) => (d', Raise e)
    end.
Definition fs_update (f : fs -> result fs) : FSM unit :=
  fun d =>
    match f d with
    | Ok d' => (d', Ok tt)
    | Raise e => (d, Raise e)
    end.

Notation "x <~ m ;; k" := (fs_bind m (fun x => k))
  (at level 61, m at next level, right associativity).

Fixpoint fs_for_each {A : Type} (body : A -> FSM unit) (l : list A)
  : FSM unit :=
  match l with
  | [] => fs_ret tt
  | x :: r => _ <~ body x ;; fs_for_each body r
  end.

(** [Path.mkdir(parents=True, exist_ok=True)] on [pre / rest]. *)
Fixpoint mkdirs (pre rest : fpath) : FSM unit :=
  match rest with
  | [] => fs_ret tt
  | c :: r => _ <~ fs_update (mkdir (pre ++ [c])) ;; mkdirs (pre ++ [c]) r
  end.

(** The body of the loop over one message's [files]. *)
Definition save_file (L : Lib) (chat_folder : fpath) (file_data : json)
  : FSM unit :=
  c <~ fs_lift (py_get "content" JNull file_data) ;;
  fd <~ fs_lift (py_get "fileData" JNull file_data) ;;
  if truthy (or_else c fd) then
    original_name <~
      fs_lift (py_get "name" (JStr "unnamed_file") file_data) ;;
    match original_name with
    | JStr original_name =>
        let file_name := sanitize_filename L original_name in
        let file_path := chat_folder ++ ["uploads" : str] ++ [file_name] in
        _ <~ fs_update (mkdir (chat_folder ++ ["uploads" : str])) ;;
        fd' <~ fs_lift (py_get "fileData" (JStr []) file_data) ;;
        match or_else c fd' with
        | JStr content => fs_update (write_file file_path content)
        | _ => fs_lift (Raise type_error)
        end
    | _ => fs_lift (Raise attribute_error)
    end
  else fs_ret tt.

(** The body of the loop over [messages]. *)
Definition save_message_files (L : Lib) (chat_folder : fpath) (msg : json)
  : FSM unit :=
  files <~ fs_lift (py_get "files" JNull msg) ;;
  if truthy files then
    files <~ fs_lift (py_iter files) ;;
    fs_for_each (save_file L chat_folder) files
  else fs_ret tt.

(** The record [save_session] writes. *)
Definition session_data_of (created_at updated_at chat_id chat_title
  messages : json) : json :=
  JDict [ ("chat_id" : str, chat_id);
          ("title" : str, chat_title);
          ("created_at" : str, created_at);
          ("updated_at" : str, updated_at);
          ("messages" : str, messages) ].

(** What a successful [save_session] answers: the chat identifier and the
    chat folder. *)
Record saved := mk_saved { saved_chat_id : json; saved_folder : fpath }.

(** The [try] block of [save_session]; [now1] and [now2] are the two
    readings of [datetime.now().isoformat()]. *)
Definition save_session_body (L : Lib) (now1 now2 : str) (data : json)
  : FSM (response saved) :=
  chat_id <~ fs_lift (py_get "chat_id" JNull data) ;;
  chat_title <~ fs_lift (py_get "chat_title" (JStr "Untitled Chat") data) ;;
  messages <~ fs_lift (py_get "messages" (JList []) data) ;;
  if negb (truthy chat_id)
  then fs_ret (Failure 400 "No chat_id provided")
  else
    let chat_folder := chat_folder_of (py_str L chat_id) in
    _ <~ mkdirs [] chat_folder ;;
    created_at <~ fs_lift (py_get "created_at" (JStr now1) data) ;;
    let session_data :=
      session_data_of created_at (JStr now2) chat_id chat_title messages in
    _ <~ fs_update (write_file (chat_folder ++ ["session.json" : str])
                      (json_dumps L session_data)) ;;
    msgs <~ fs_lift (py_iter messages) ;;
    _ <~ fs_for_each (save_message_files L chat_folder) msgs ;;
    fs_ret (Success (mk_saved chat_id chat_folder)).

Definition storage_configured (STORAGE_PATH : option str) : bool :=
  match STORAGE_PATH with
  | Some (_ :: _) => true
  | _ => false
  end.

(** [save_session]: the disk afterwards and the response. *)
Definition save_session (L : Lib) (STORAGE_PATH : option str)
  (now1 now2 : str) (data : json) (d : fs) : fs * response saved :=
  if negb (storage_configured STORAGE_PATH)
  then (d, Failure 400 "Storage path not configured")
  else
    match save_session_body L now1 now2 data d with
    | (d', Ok r) => (d', r)
    | (d', Raise e) => (d', Failure 500 (str_of_exn e))
    end.

(** One entry of the list [load_sessions] returns. *)
Record summary := mk_summary {
  s_chat_id : json;
  s_title : json;
  s_created_at : json;
  s_updated_at : json;
  s_message_count : nat
}.

(** The body of the loop over the chat folders. *)
Definition load_summary (L : Lib) (d : fs) (sessions : list summary)
  (chat_folder : fpath) : result (list summary) :=
  if is_dir chat_folder d then
    let session_file := chat_folder ++ ["session.json" : str] in
    if exists_ session_file d then
      let? content := read_file session_file d in
      match json_loads L content with
      | None => Raise (mk_exn JSONDecodeError "invalid JSON")
      | Some session_data =>
          let? cid := py_get "chat_id" JNull session_data in
          let? title := py_get "title" JNull session_data in
          let? created := py_get "created_at" JNull session_data in
          let? updated := py_get "updated_at" JNull session_data in
          let? msgs := py_get "messages" (JList []) session_data in
          let? n := py_len msgs in
          Ok (sessions ++ [mk_summary cid title created updated n])
      end
    else Ok sessions
  else Ok sessions.

(** Lexicographic order on code points: [a < b] on [str]. *)
Fixpoint str_ltb (a b : str) : bool :=
  match a, b with
  | _, [] => false
  | [], _ :: _ => true
  | x :: a', y :: b' => (x <? y)%N || ((x =? y)%N && str_ltb a' b')
  end.

(** The number a value counts as in a comparison: [True] is 1 and
    [False] is 0. *)
Definition py_num (j : json) : option Z :=
  match j with
  | JInt z => Some z
  | JBool b => Some (if b then 1%Z else 0%Z)
  | _ => None
  end.

(** [a == b]: numbers by value, strings and arrays item by item, objects
    key by key whatever their order; values of different kinds differ. *)
Fixpoint py_eq (a b : json) {struct a} : bool :=
  match a, b with
  | JNull, JNull => true
  | JStr x, JStr y => str_eqb x y
  | JList la, JList lb =>
      (fix eq_list (la lb : list json) {struct la} : bool :=
         match la, lb with
         | [], [] => true
         | x :: la', y :: lb' => py_eq x y && eq_list la' lb'
         | _, _ => false
         end) la lb
  | JDict da, JDict db =>
      Nat.eqb (List.length da) (List.length db) &&
      (fix eq_items (da : list (str * json)) {struct da} : bool :=
         match da with
         | [] => true
         | (k, v) :: r =>
             match dict_get k db with
             | Some w => py_eq v w
             | None => false
             end && eq_items r
         end) da
  | _, _ =>
      match py_num a, py_num b with
      | Some x, Some y => (x =? y)%Z
      | _, _ => false
      end
  end.

(** [a < b]: strings compare with strings, integers and booleans with
    each other, arrays with arrays by their first pair of items that are
    not equal, or by their lengths when there is none; [None], objects and
    values of different kinds are not comparable (a [TypeError]). *)
Fixpoint py_lt (a b : json) {struct a} : result bool :=
  match a, b with
  | JStr x, JStr y => Ok (str_ltb x y)
  | JList la, JList lb =>
      (fix lt_list (la lb : list json) {struct la} : result bool :=
         match la, lb with
         | [], [] => Ok false
         | [], _ :: _ => Ok true
         | _ :: _, [] => Ok false
         | x :: la', y :: lb' =>
             if py_eq x y then lt_list la' lb' else py_lt x y
         end) la lb
  | _, _ =>
      match py_num a, py_num b with
      | Some x, Some y => Ok (x <? y)%Z
      | _, _ => Raise type_error
      end
  end.

(** Insertion of [x] behind every entry that is not greater. *)
Fixpoint insert_by_key (x : summary) (l : list summary)
  : result (list summary) :=
  match l with
  | [] => Ok [x]
  | y :: t =>
      let? lt := py_lt (s_updated_at x) (s_updated_at y) in
      if lt then Ok (x :: y :: t)
      else let? t' := insert_by_key x t in Ok (y :: t')
  end.

(** A stable ascending sort by [updated_at]. *)
Definition sort_ascending (l : list summary) : result (list summary) :=
  for_each (fun acc x => insert_by_key x acc) l [].

(** [sessions.sort(key=lambda x: x.get('updated_at', ''), reverse=True)]:
    the list is reversed, sorted stably in ascending order, and reversed
    again. *)
Definition sort_sessions (l : list summary) : result (list summary) :=
  let? s := sort_ascending (rev l) in Ok (rev s).

(** [load_sessions]: the summaries, or the failure. *)
Definition load_sessions (L : Lib) (STORAGE_PATH : option str) (d : fs)
  : response (list summary) :=
  if negb (storage_configured STORAGE_PATH)
  then Failure 400 "Storage path not configured"
  else
    match (let? sessions := for_each (load_summary L d) (glob_chat d) [] in
           sort_sessions sessions) with
    | Ok sessions => Success sessions
    | Raise e => Failure 500 (str_of_exn e)
    end.

(** [load_session(chat_id)] *)
Definition load_session (L : Lib) (STORAGE_PATH : option str) (d : fs)
  (chat_id : str) : response json :=
  if negb (storage_configured STORAGE_PATH)
  then Failure 400 "Storage path not configured"
  else
    let session_file := chat_folder_of chat_id ++ ["session.json" : str] in
    if negb (exists_ session_file d)
    then Failure 404 "Session not found"
    else
      match read_file session_file d with
      | Raise e => Failure 500 (str_of_exn e)
      | Ok content =>
          match json_loads L content with
          | None => Failure 500 "invalid JSON"
          | Some session_data => Success session_data
          end
      end.

(* ================================================================== *)
(** * A JSON codec for the examples *)
(* ================================================================== *)

(** The text [json.dumps(obj, indent=2, ensure_ascii=False)] writes and
    the parsing of [json.loads], for the values of [json]. A number with a
    fraction or an exponent, [NaN] and [Infinity] are not read. *)

Definition hex_digit (n : N) : char :=
  (if n <? 10 then 48 + n else 87 + n)%N.

Definition escape_char (c : char) : str :=
  if (c =? 34)%N then [92; 34]%N
  else if (c =? 92)%N then [92; 92]%N
  else if (c =? 10)%N then [92%N; N_of_ascii "n"]
  else if (c =? 13)%N then [92%N; N_of_ascii "r"]
  else if (c =? 9)%N then [92%N; N_of_ascii "t"]
  else if (c =? 8)%N then [92%N; N_of_ascii "b"]
  else if (c =? 12)%N then [92%N; N_of_ascii "f"]
  else if (c <? 32)%N
       then [92%N; N_of_ascii "u"; 48%N; 48%N;
             hex_digit (c / 16)%N; hex_digit (c mod 16)%N]
       else [c].

Definition quote_json (s : str) : str :=
  [34%N] ++ flat_map escape_char s ++ [34%N].

Definition indent_of (n : nat) : str := repeat 32%N (2 * n).

Fixpoint dumps_at (n : nat) (j : json) : str :=
  match j with
  | JNull => "null"
  | JBool true => "true"
  | JBool false => "false"
  | JInt z => str_of_Z z
  | JStr s => quote_json s
  | JList [] => "[]"
  | JList l =>
      "[" ++ newline ++ indent_of (S n) ++
      join ("," ++ newline ++ indent_of (S n)) (map (dumps_at (S n)) l) ++
      newline ++ indent_of n ++ "]"
  | JDict [] => "{}"
  | JDict d =>
      "{" ++ newline ++ indent_of (S n) ++
      join ("," ++ newline ++ indent_of (S n))
           (map (fun '(k, v) => quote_json k ++ ": " ++ dumps_at (S n) v) d) ++
      newline ++ indent_of n ++ "}"
  end.

Definition json_print (j : json) : str := dumps_at 0 j.

Definition is_json_ws (c : char) : bool :=
  ((c =? 32) || (c =? 9) || (c =? 10) || (c =? 13))%N.
Definition skip_ws (s : str) : str := drop_while is_json_ws s.

Definition hex4 (s : str) : option (N * str) :=
  match s with
  | a :: b :: c :: d :: r =>
      match hex_value a, hex_value b, hex_value c, hex_value d with
      | Some a, Some b, Some c, Some d =>
          Some ((((a * 16 + b) * 16 + c) * 16 + d)%N, r)
      | _, _, _, _ => None
      end
  | _ => None
  end.

(** The characters of a string literal after its opening quote. *)
Fixpoint parse_string (fuel : nat) (s acc : str) : option (str * str) :=
  match fuel with
  | O => None
  | S f =>
      match s with
      | [] => None
      | c :: t =>
          if (c =? 34)%N then Some (acc, t)
          else if (c =? 92)%N then
            match t with
            | e :: t' =>
                if (e =? 34)%N || (e =? 92)%N || (e =? "/"%char)%N
                then parse_string f t' (acc ++ [e])
                else if (e =? "b"%char)%N then parse_string f t' (acc ++ [8%N])
                else if (e =? "f"%char)%N then parse_string f t' (acc ++ [12%N])
                else if (e =? "n"%char)%N then parse_string f t' (acc ++ [10%N])
                else if (e =? "r"%char)%N then parse_string f t' (acc ++ [13%N])
                else if (e =? "t"%char)%N then parse_string f t' (acc ++ [9%N])
                else if (e =? "u"%char)%N then
                  match hex4 t' with
                  | Some (hi, r) =>
                      let pair :=
                        if ((55296 <=? hi) && (hi <=? 56319))%N then
                          match r with
                          | b1 :: u1 :: r' =>
                              if ((b1 =? 92) && (u1 =? "u"%char))%N then
                                match hex4 r' with
                                | Some (lo, r'') =>
                                    if ((56320 <=? lo) && (lo <=? 57343))%N
                                    then Some ((65536 + (hi - 55296) * 1024
                                                + (lo - 56320))%N, r'')
                                    else None
                                | None => None
                                end
                              else None
                          | _ => None
                          end
                        else None in
                      match pair with
                      | Some (cp, r'') => parse_string f r'' (acc ++ [cp])
                      | None => parse_string f r (acc ++ [hi])
                      end
                  | None => None
                  end
                else None
            | [] => None
            end
          else if (c <? 32)%N then None
          else parse_string f t (acc ++ [c])
      end
  end.

Definition digits_value (ds : str) : Z :=
  fold_left (fun acc d => (acc * 10 + Z.of_N (d - 48))%Z) ds 0%Z.

(** An integer literal; a fraction or an exponent behind it is not read. *)
Definition parse_int (s : str) : option (json * str) :=
  let '(neg, s') :=
    match s with
    | c :: t => if (c =? "-"%char)%N then (true, t) else (false, s)
    | [] => (false, s)
    end in
  let ds := take_while is_ascii_digit s' in
  let r := drop_while is_ascii_digit s' in
  let float_follows :=
    match r with
    | c :: _ => ((c =? "."%char) || (c =? "e"%char) || (c =? "E"%char))%N
    | [] => false
    end in
  match ds with
  | [] => None
  | d :: more =>
      if float_follows then None
      else if (d =? 48)%N && nonempty more
      then Some (JInt 0, more ++ r)
      else Some (JInt (if neg then - digits_value ds else digits_value ds)%Z, r)
  end.

Fixpoint parse_value (fuel : nat) (s : str) {struct fuel}
  : option (json * str) :=
  match fuel with
  | O => None
  | S f =>
      match s with
      | [] => None
      | c :: t =>
          if (c =? 34)%N then
            match parse_string (S (len t)) t [] with
            | Some (x, r) => Some (JStr x, r)
            | None => None
            end
          else if (c =? "{"%char)%N then
            match skip_ws t with
            | d :: r => if (d =? "}"%char)%N then Some (JDict [], r)
                        else parse_members f (d :: r) []
            | [] => None
            end
          else if (c =? "["%char)%N then
            match skip_ws t with
            | d :: r => if (d =? "]"%char)%N then Some (JList [], r)
                        else parse_elements f (d :: r) []
            | [] => None
            end
          else if startswith "null" s then Some (JNull, skipn 4 s)
          else if startswith "true" s then Some (JBool true, skipn 4 s)
          else if startswith "false" s then Some (JBool false, skipn 5 s)
          else parse_int s
      end
  end
with parse_elements (fuel : nat) (s : str) (acc : list json) {struct fuel}
  : option (json * str) :=
  match fuel with
  | O => None
  | S f =>
      match parse_value f s with
      | Some (v, r) =>
          match skip_ws r with
          | d :: r' =>
              if (d =? ","%char)%N
              then parse_elements f (skip_ws r') (acc ++ [v])
              else if (d =? "]"%char)%N then Some (JList (acc ++ [v]), r')
              else None
          | [] => None
          end
      | None => None
      end
  end
with parse_members (fuel : nat) (s : str) (acc : list (str * json))
  {struct fuel} : option (json * str) :=
  match fuel with
  | O => None
  | S f =>
      match s with
      | q :: t =>
          if (q =? 34)%N then
            match parse_string (S (len t)) t [] with
            | Some (k, r) =>
                match skip_ws r with
                | d :: r' =>
                    if (d =? ":"%char)%N then
                      match parse_value f (skip_ws r') with
                      | Some (v, r2) =>
                          match skip_ws r2 with
                          | d2 :: r3 =>
                              if (d2 =? ","%char)%N
                              then parse_members f (skip_ws r3)
                                     (dict_set k v acc)
                              else if (d2 =? "}"%char)%N
                                   then Some (JDict (dict_set k v acc), r3)
                                   else None
                          | [] => None
                          end
                      | None => None
                      end
                    else None
                | [] => None
                end
            | None => None
            end
          else None
      | [] => None
      end
  end.

Definition json_parse (s : str) : option json :=
  match parse_value (2 * len s + 2) (skip_ws s) with
  | Some (v, r) =>
      match skip_ws r with
      | [] => Some v
      | _ => None
      end
  | None => None
  end.

(* ================================================================== *)
(** * A library instance for the examples *)
(* ================================================================== *)

(** The examples below use ASCII text, no bracketed host names and
    strings or integers as chat identifiers, so none of them reaches the
    first four fields or the last one. *)
Definition sample_lib : Lib :=
  mk_Lib (fun _ => false)
         (fun run => map (fun _ => 65533%N) run)
         (fun _ => true)
         (fun _ => true)
         json_parse
         json_print
         (fun _ => []).

(** A video whose only English track is tagged [vtt] but whose download
    is an HLS playlist; the captions API has a transcript. *)
Definition playlist_net : Net :=
  mk_Net true true
    (fun _ =>
       Ok (mk_video_info
             (Some [mk_track (Some (of_string "vtt"))
                             (Some (of_string "https://sub.example/vtt"))])
             None))
    (fun _ =>
       Ok (mk_http_response 200
             ("#EXTM3U" ++ newline ++ "#EXT-X-VERSION:3" ++ newline)))
    (fun _ => Ok [of_string "hello"; of_string "world"])
    (fun _ => Ok [])
    (fun _ => Raise (mk_exn NoTranscriptFound "no transcript")).

(** A video with captions disabled: yt-dlp fails with that reason and the
    captions API raises [TranscriptsDisabled] on every call. *)
Definition disabled_net : Net :=
  mk_Net true true
    (fun _ => Raise (mk_exn PlainException "captions disabled"))
    (fun _ => Raise (mk_exn OSError "unreachable"))
    (fun _ => Raise (mk_exn TranscriptsDisabled "captions disabled"))
    (fun _ => Raise (mk_exn TranscriptsDisabled "captions disabled"))
    (fun _ => Raise (mk_exn NoTranscriptFound "no transcript")).

(* ================================================================== *)
(** * Vocabulary of the properties *)
(* ================================================================== *)

Definition valid_char (c : char) : Prop := is_invalid_char c = false.

(** The name before the length limit is applied. *)
Definition cleaned_name (L : Lib) (filename : str) : str :=
  clean_name (if is_url filename then url_filename L filename else filename).

(** Every white-space character of [s] is a plain space and is followed
    by a character that is not white space (or by nothing). *)
Fixpoint single_spaced (s : str) : bool :=
  match s with
  | [] => true
  | c :: t =>
      (if is_space c
       then (c =? 32)%N && match t with
                           | [] => true
                           | d :: _ => negb (is_space d)
                           end
       else true) && single_spaced t
  end.

(** The shape the clean-up leaves: single spaces only, none at the ends. *)
Definition ws_normal (s : str) : Prop :=
  single_spaced s = true /\ strip is_space s = s.

(** One of the five entities that the XML-cue decoder rewrites. *)
Definition has_entity (t : str) : bool :=
  contains "&amp;" t || contains "&lt;" t || contains "&gt;" t ||
  contains "&quot;" t || contains "&#39;" t.

Definition vtt_fixture (cue_text : str) : str :=
  "WEBVTT" ++ newline ++ newline ++ "1" ++ newline ++
  "00:00:01.000 --> 00:00:03.000" ++ newline ++ cue_text ++ newline.

Definition has_format (fmt : str) (subtitles : list track) : bool :=
  existsb (fun sub => ext_is (ext sub) fmt) subtitles.

Definition first_of_format (fmt : str) (subtitles : list track)
  : option track :=
  List.find (fun sub => ext_is (ext sub) fmt) subtitles.

Definition first_non_m3u8 (subtitles : list track) : option track :=
  List.find (fun sub => negb (ext_is (ext sub) "m3u8")) subtitles.

(** Every track carries a non-empty URL. *)
Definition urls_present (subtitles : list track) : Prop :=
  Forall (fun sub => url_truthy (url sub) = true) subtitles.

(** The format the selection settles on. *)
Definition best_format (subtitles : list track) : option str :=
  List.find (fun fmt => has_format fmt subtitles) priority_formats.

(** The selection, read off the track list. *)
Definition selected (subtitles : list track) : selection :=
  match best_format subtitles with
  | Some fmt =>
      match first_of_format fmt subtitles with
      | Some sub => mk_selection (url sub) (Some fmt)
      | None => mk_selection None None
      end
  | None =>
      match first_non_m3u8 subtitles with
      | Some sub => mk_selection (url sub) (ext sub)
      | None => mk_selection None None
      end
  end.

(** The position of a tag in the priority list; 5 for any other tag. *)
Fixpoint rank_in (fmts : list str) (e : str) : nat :=
  match fmts with
  | [] => 0
  | f :: r => if str_eqb e f then 0 else S (rank_in r e)
  end.
Definition rank (e : option str) : nat :=
  match e with
  | Some e => rank_in priority_formats e
  | None => 5
  end.

(** A selection never names a track tagged [m3u8]. *)
Definition not_m3u8 (subtitles : list track) (st : selection) : Prop :=
  ext_is (selected_ext st) "m3u8" = false /\
  (url_truthy (subtitle_url st) = true ->
   exists sub, In sub subtitles /\ url sub = subtitle_url st /\
               ext_is (ext sub) "m3u8" = false).

(** An action leaves the file at [p] as it is. *)
Definition keeps {A : Type} (p : fpath) (m : FSM A) : Prop :=
  forall d d' r n, m d = (d', r) -> fs_get p d = Some n -> fs_get p d' = Some n.

Definition sample_request : json :=
  JDict [ ("chat_id" : str, JStr "42");
          ("chat_title" : str, JStr "Trip plan");
          ("messages" : str,
            JList [ JDict [ ("role" : str, JStr "user");
                            ("content" : str, JStr "see the attachment");
                            ("files" : str,
                              JList [ JDict [ ("name" : str,
                                                JStr "my file:name?.txt");
                                              ("content" : str,
                                                JStr "notes") ] ]) ] ]) ].

Definition sample_disk : fs :=
  fst (save_session sample_lib (Some (of_string "/data"))
         "2026-01-05T10:00:00.000001" "2026-01-05T10:00:00.000002"
         sample_request []).

(** The timestamp of a summary, when it is a string. *)
Definition ts_of (s : summary) : str :=
  match s_updated_at s with
  | JStr t => t
  | _ => []
  end.

Definition has_str_key (s : summary) : Prop :=
  exists t, s_updated_at s = JStr t.

(** [a] is not older than [b]. *)
Definition not_older (a b : summary) : Prop :=
  str_ltb (ts_of a) (ts_of b) = false.

Definition not_newer (a b : summary) : Prop := not_older b a.

Fixpoint insert_pure (x : summary) (l : list summary) : list summary :=
  match l with
  | [] => [x]
  | y :: t =>
      if str_ltb (ts_of x) (ts_of y) then x :: y :: t
      else y :: insert_pure x t
  end.

Definition sort_pure (l acc : list summary) : list summary :=
  fold_left (fun acc x => insert_pure x acc) l acc.

(** The summaries one chat folder contributes. *)
Definition record_summary (L : Lib) (d : fs) (folder : fpath)
  : list summary :=
  match load_summary L d [] folder with
  | Ok l => l
  | Raise _ => []
  end.

(** The record file of a chat folder, when there is one, can be read, is
    a JSON object with a string as [updated_at] and [messages] that have a
    length. *)
Definition readable_record (L : Lib) (d : fs) (folder : fpath) : Prop :=
  is_dir folder d = true ->
  exists_ (folder ++ ["session.json" : str]) d = true ->
  exists content entries ts n,
    read_file (folder ++ ["session.json" : str]) d = Ok content /\
    json_loads L content = Some (JDict entries) /\
    dict_get "updated_at" entries = Some (JStr ts) /\
    py_len (match dict_get "messages" entries with
            | Some v => v
            | None => JList []
            end) = Ok n.

Definition field (k : str) (entries : list (str * json)) : json :=
  match dict_get k entries with
  | Some v => v
  | None => JNull
  end.

(** An identifier as the short-link pattern captures it: one or more
    characters of [A-Za-z0-9_-]. *)
Definition plain_id (g : str) : Prop :=
  g <> [] /\ Forall (fun c => is_id_char c = true) g.

(** The texts a well-formed json3 segment and event contribute. *)
Definition seg_texts (seg : json) : list str :=
  match seg with
  | JDict d =>
      match dict_get "utf8" d with
      | Some (JStr s) => [strip is_space s]
      | _ => []
      end
  | _ => []
  end.

Definition event_texts (event : json) : list str :=
  match event with
  | JDict d =>
      match dict_get "segs" d with
      | Some (JList segs) => flat_map seg_texts segs
      | _ => []
      end
  | _ => []
  end.

(** A json3 segment: an object whose [utf8], when present, is a string. *)
Definition wf_seg (seg : json) : Prop :=
  exists d, seg = JDict d /\
    (dict_get "utf8" d = None \/ exists s, dict_get "utf8" d = Some (JStr s)).

(** A json3 event: an object whose [segs], when present, is a list of
    segments. *)
Definition wf_event (event : json) : Prop :=
  exists d, event = JDict d /\
    (dict_get "segs" d = None \/
     exists segs, dict_get "segs" d = Some (JList segs) /\ Forall wf_seg segs).

(** The remote calls of the two methods. *)
Definition is_ytdlp_event (ev : event) : bool :=
  match ev with
  | EvExtractInfo _ | EvHttpGet _ => true
  | _ => false
  end.

Definition is_api_event (ev : event) : bool := negb (is_ytdlp_event ev).

(** Every result of [m] satisfies [P]. *)
Definition post {A : Type} (P : A -> Prop) (m : M A) : Prop :=
  forall a, snd m = Ok a -> P a.

(** Every call logged by [m] satisfies [P]. *)
Definition logs {A : Type} (P : event -> bool) (m : M A) : Prop :=
  forallb P (fst m) = true.

(** The [fetch()] of a transcript succeeds. *)
Definition fetch_ok (t : transcript) : bool :=
  match fetch t with
  | Ok _ => true
  | Raise _ => false
  end.

(** The result built from a transcript and its entries. *)
Definition result_of (video_id : str) (t : transcript) (entries : list str)
  : transcript_result :=
  mk_transcript_result true (join newline entries) video_id
    (language t) (is_generated t).

(** The exception is one of the three the captions API is known for. *)
Definition is_caption_exn (e : exn) : bool :=
  match exn_kind_of e with
  | TranscriptsDisabled | NoTranscriptFound | VideoUnavailable => true
  | _ => false
  end.

(** The tracks the yt-dlp method selects from: the manual English
    subtitles, or the automatic captions when there are none. *)
Definition offered (W : Net) (video_id : str) : list track :=
  match ydl_extract_info W (canonical_url video_id) with
  | Ok info =>
      match (if tracks_truthy (subtitles_en info) then subtitles_en info
             else automatic_captions_en info) with
      | Some subtitles => subtitles
      | None => []
      end
  | Raise _ => []
  end.

(** A video without yt-dlp tracks whose German transcript cannot be
    fetched while its French one can. *)
Definition german : transcript :=
  mk_transcript "German" false (Raise (mk_exn OSError "blocked")).

Definition french : transcript :=
  mk_transcript "French" true (Ok [of_string "bonjour"; of_string "monde"]).

Definition fallback_net : Net :=
  mk_Net false true
    (fun _ => Raise (mk_exn OSError "unreachable"))
    (fun _ => Raise (mk_exn OSError "unreachable"))
    (fun _ => Raise (mk_exn NoTranscriptFound "no English transcript"))
    (fun _ => Ok [german; french])
    (fun _ => Raise (mk_exn NoTranscriptFound "no English transcript")).

(** The same video when no transcript can be fetched. *)
Definition blocked_net : Net :=
  mk_Net false true
    (fun _ => Raise (mk_exn OSError "unreachable"))
    (fun _ => Raise (mk_exn OSError "unreachable"))
    (fun _ => Raise (mk_exn NoTranscriptFound "no English transcript"))
    (fun _ => Ok [german])
    (fun _ => Ok german).

(** The entries a transcript yields when its [fetch()] succeeds. *)
Definition entries (t : transcript) : list str :=
  match fetch t with
  | Ok d => d
  | Raise _ => []
  end.

(** The library a remote call goes to is installed. *)
Definition installed (W : Net) (ev : event) : bool :=
  if is_ytdlp_event ev then YTDLP_AVAILABLE W else YOUTUBE_API_AVAILABLE W.

(** The paths [save_session] writes a file to, for the chat folder
    [folder]: the record file and the files of [uploads]. *)
Definition own_path (folder p : fpath) : Prop :=
  p = folder ++ ["session.json" : str] \/
  exists name, p = folder ++ ["uploads" : str] ++ [name].

(** A disk that holds the record of another chat. *)
Definition other_disk : fs :=
  [ ([of_string "chat_7"], Dir);
    ([of_string "chat_7"; of_string "session.json"], File "{}") ].

(** An action preserves a property of the disk, whatever its outcome. *)
Definition preserves {A : Type} (I : fs -> Prop) (m : FSM A) : Prop :=
  forall d d' r, m d = (d', r) -> I d -> I d'.

(** There is a file at [p]. *)
Definition is_file (p : fpath) (d : fs) : Prop :=
  exists content, fs_get p d = Some (File content).

(** The disk holds the one directory [name] at its root and below it
    nothing but entries of that directory. *)
Definition single_chat (name : str) (d : fs) : Prop :=
  exists rest,
    d = ([name], Dir) :: rest /\
    Forall (fun e => 2 <= List.length (fst e)) rest.

(* ================================================================== *)
(** * The conversion endpoints, for a request that carries a URL *)
(* ================================================================== *)

(** What [md.convert] returns. *)
Record conversion := mk_conversion {
  text_content : option str;
  markdown : str;
  title : option str
}.

(** MarkItDown and the case mapping of [str.lower()]. *)
Record Conv := mk_Conv {
  MARKITDOWN_AVAILABLE : bool;
  (** [MarkItDown()] *)
  md_init : result unit;
  (** [md.convert(source)] *)
  md_convert : str -> result conversion;
  (** [s.lower()] *)
  str_lower : str -> str
}.

(** The calls of [/convert]: those of [get_youtube_transcript] and
    [md.convert]. *)
Inductive cevent :=
| Remote (ev : event)
| EvConvert (source : str).

Definition is_remote (ev : cevent) : bool :=
  match ev with
  | Remote _ => true
  | EvConvert _ => false
  end.

(** The fields of a transcript answer; [/convert] sends the URL as
    [source_url], [/youtube] as [url]. *)
Record youtube_answer := mk_youtube_answer {
  ya_text : str;
  ya_markdown : str;
  ya_title : str;
  ya_url : str;
  ya_language : str;
  ya_is_generated : bool
}.

Definition youtube_answer_of (url : str) (r : transcript_result)
  : youtube_answer :=
  mk_youtube_answer (tr_text r) (tr_text r)
    ("YouTube Transcript (" ++ tr_video_id r ++ ")") url
    (tr_language r) (tr_is_generated r).

Inductive convert_answer :=
| ConvYouTube (a : youtube_answer)
| ConvUrl (text markdown : str) (title : option str) (source_url : str)
| ConvError (status : nat) (error : str) (message url : option str).

Definition is_youtube (url : str) : bool :=
  contains "youtube.com" url || contains "youtu.be" url.

(** [A or B and C]: the conjunction binds tighter. *)
Definition looks_like_error (text_lower : str) : bool :=
  contains "no element found" text_lower ||
  (contains "attempt" text_lower && contains "failed" text_lower).

Definition install_markitdown : str :=
  "Install with: pip install " ++ [34%N] ++ "markitdown[all]" ++ [34%N].

(** [convert_file] for a JSON request whose [url] is the string [url]. *)
Definition convert_url (L : Lib) (W : Net) (C : Conv) (url : str)
  : list cevent * convert_answer :=
  if negb (MARKITDOWN_AVAILABLE C) then
    ([], ConvError 500 "MarkItDown not installed"
           (Some install_markitdown) None)
  else
    match md_init C with
    | Raise e => ([], ConvError 500 "Conversion failed"
                        (Some (str_of_exn e)) None)
    | Ok _ =>
        if is_youtube url then
          match clean_youtube_url L url with
          | Raise e => ([], ConvError 500 "Conversion failed"
                              (Some (str_of_exn e)) None)
          | Ok url =>
              let '(log, r) := get_youtube_transcript L W url in
              (map Remote log,
               match r with
               | Ok result => ConvYouTube (youtube_answer_of url result)
               | Raise e =>
                   ConvError 500 "YouTube transcript extraction failed"
                     (Some (str_of_exn e)) (Some url)
               end)
          end
        else
          ([EvConvert url],
           match md_convert C url with
           | Raise e => ConvError 500 "Conversion failed"
                          (Some (str_of_exn e)) (Some url)
           | Ok result =>
               match text_content result with
               | Some (c :: t) =>
                   if Nat.ltb (len (strip is_space (c :: t))) 10 then
                     ConvError 500 "No content extracted from URL"
                       None (Some url)
                   else if looks_like_error (str_lower C (c :: t)) then
                     ConvError 500
                       "URL conversion failed - unable to extract content"
                       (Some (of_string "The content could not be properly extracted. For YouTube videos, ensure captions/subtitles are available."))
                       (Some url)
                   else ConvUrl (c :: t) (markdown result) (title result) url
               | _ => ConvError 500 "No content extracted from URL"
                        None (Some url)
               end
           end)
    end.

Inductive youtube_response :=
| YtOk (a : youtube_answer)
| YtError (status : nat) (error : str) (message url : option str).

(** The [/youtube] endpoint for a JSON request whose [url] is the string
    [url]. *)
Definition convert_youtube_route (L : Lib) (W : Net) (url : str)
  : list event * youtube_response :=
  if negb (YOUTUBE_API_AVAILABLE W) then
    ([], YtError 500 "YouTube transcript API not installed"
           (Some (of_string "Install with: pip install youtube-transcript-api"))
           None)
  else if str_eqb url [] then
    ([], YtError 400 "Missing YouTube URL" None None)
  else if negb (contains "youtube.com" url) && negb (contains "youtu.be" url)
  then ([], YtError 400 "Invalid YouTube URL" None None)
  else
    let '(log, r) := convert_youtube L W url in
    (log,
     match r with
     | Ok (url, result) => YtOk (youtube_answer_of url result)
     | Raise e =>
         YtError 500 "YouTube conversion failed" (Some (str_of_exn e))
           (Some match clean_youtube_url L url with
                 | Ok cleaned => cleaned
                 | Raise _ => url
                 end)
     end).

(** The two answers say the same. *)
Definition same_answer (a : convert_answer) (b : youtube_response) : Prop :=
  match a, b with
  | ConvYouTube x, YtOk y => x = y
  | ConvError 500 _ m _, YtError 500 _ m' _ => m = m'
  | _, _ => False
  end.

(** MarkItDown that reads every page as the same short text. *)
Definition sample_conv : Conv :=
  mk_Conv true (Ok tt)
    (fun _ => Ok (mk_conversion (Some (of_string "A page of text."))
                    "A page of text." None))
    (map ascii_lower).

(* ================================================================== *)
(** * The table of formats *)
(* ================================================================== *)

(** [SUPPORTED_FORMATS], in the order of the source. *)
Definition SUPPORTED_FORMATS : list (str * str) :=
  [ ("pdf" : str, "application/pdf" : str);
    ("doc" : str, "application/msword" : str);
    ("docx" : str, "application/vnd.openxmlformats-officedocument.wordprocessingml.document" : str);
    ("rtf" : str, "text/rtf" : str);
    ("ppt" : str, "application/vnd.ms-powerpoint" : str);
    ("pptx" : str, "application/vnd.openxmlformats-officedocument.presentationml.presentation" : str);
    ("xls" : str, "application/vnd.ms-excel" : str);
    ("xlsx" : str, "application/vnd.openxmlformats-officedocument.spreadsheetml.sheet" : str);
    ("csv" : str, "text/csv" : str);
    ("json" : str, "application/json" : str);
    ("xml" : str, "application/xml" : str);
    ("html" : str, "text/html" : str);
    ("htm" : str, "text/html" : str);
    ("jpg" : str, "image/jpeg" : str);
    ("jpeg" : str, "image/jpeg" : str);
    ("png" : str, "image/png" : str);
    ("gif" : str, "image/gif" : str);
    ("bmp" : str, "image/bmp" : str);
    ("webp" : str, "image/webp" : str);
    ("svg" : str, "image/svg+xml" : str);
    ("mp3" : str, "audio/mpeg" : str);
    ("wav" : str, "audio/wav" : str);
    ("m4a" : str, "audio/mp4" : str);
    ("ogg" : str, "audio/ogg" : str);
    ("aac" : str, "audio/aac" : str);
    ("zip" : str, "application/zip" : str);
    ("rar" : str, "application/x-rar-compressed" : str);
    ("7z" : str, "application/x-7z-compressed" : str);
    ("tar" : str, "application/x-tar" : str);
    ("gz" : str, "application/gzip" : str);
    ("txt" : str, "text/plain" : str);
    ("md" : str, "text/markdown" : str);
    ("msg" : str, "application/vnd.ms-outlook" : str);
    ("eml" : str, "message/rfc822" : str) ].

(** The [supported_formats] of [health_check]:
    [list(SUPPORTED_FORMATS.keys())]. *)
Definition health_formats : list str := map fst SUPPORTED_FORMATS.

(** The [categories] of [get_supported_formats]. *)
Definition categories : list (str * list str) :=
  [ ("documents" : str,
      [of_string "pdf"; of_string "doc"; of_string "docx"; of_string "rtf";
       of_string "txt"; of_string "md"]);
    ("presentations" : str, [of_string "ppt"; of_string "pptx"]);
    ("spreadsheets" : str,
      [of_string "xls"; of_string "xlsx"; of_string "csv"]);
    ("data" : str, [of_string "json"; of_string "xml"]);
    ("web" : str, [of_string "html"; of_string "htm"]);
    ("images" : str,
      [of_string "jpg"; of_string "jpeg"; of_string "png"; of_string "gif";
       of_string "bmp"; of_string "webp"; of_string "svg"]);
    ("audio" : str,
      [of_string "mp3"; of_string "wav"; of_string "m4a"; of_string "ogg";
       of_string "aac"]);
    ("archives" : str,
      [of_string "zip"; of_string "rar"; of_string "7z"; of_string "tar";
       of_string "gz"]);
    ("email" : str, [of_string "msg"; of_string "eml"]);
    ("youtube" : str, [of_string "YouTube URLs (transcript extraction)"]) ].

(** The categories an extension is listed under. *)
Definition categories_of (e : str) : list str :=
  map fst (filter (fun c => existsb (str_eqb e) (snd c)) categories).

(* ================================================================== *)
(** * The setup script *)
(* ================================================================== *)

(** How a child process ends, as [subprocess] reports it. *)
Inductive outcome :=
| Zero                    (* exit status 0 *)
| NonZero                 (* another exit status *)
| OtherError (e : exn)    (* the process could not be run *)
| Interrupt.              (* Ctrl+C while it ran *)

Inductive command :=
| Shell (line : str)      (* a command line, [shell=True] *)
| Exec (argv : list str).

(** The machine the script runs on. What the script prints is left
    out. *)
Record Host := mk_Host {
  (** [sys.version_info >= (3, 7)] *)
  version_ok : bool;
  (** [sys.executable] *)
  executable : str;
  (** [platform.system()] *)
  system : str;
  (** [os.path.exists(path)] *)
  path_exists : str -> bool;
  run : command -> outcome
}.

(** What ends a step early. *)
Inductive stop :=
| SysExit (status : nat)
| Uncaught (e : exn)
| KeyboardInterrupt.

(** A step of the script: the commands it ran, and its value unless it
    was ended early. *)
Definition Run (A : Type) : Type := list command * (A + stop).

Definition run_ret {A : Type} (a : A) : Run A := ([], inl a).
Definition sys_exit {A : Type} (status : nat) : Run A :=
  ([], inr (SysExit status)).
Definition run_bind {A B : Type} (m : Run A) (k : A -> Run B) : Run B :=
  match m with
  | (log, inl a) => let '(log', r) := k a in (log ++ log', r)
  | (log, inr s) => (log, inr s)
  end.

Notation "x <== m ;; k" := (run_bind m (fun x => k))
  (at level 61, m at next level, right associativity).

(** [subprocess.check_call] and [subprocess.check_output], which raise
    [CalledProcessError] on a status other than 0: [None] is that
    exception. *)
Definition check_call (H : Host) (c : command) : Run (option unit) :=
  ([c],
   match run H c with
   | Zero => inl (Some tt)
   | NonZero => inl None
   | OtherError e => inr (Uncaught e)
   | Interrupt => inr KeyboardInterrupt
   end).

Definition run_command (H : Host) (command description : str) : Run bool :=
  r <== check_call H (Shell command) ;;
  match r with
  | Some _ => run_ret true
  | None => run_ret false
  end.

Definition check_python (H : Host) : bool := version_ok H.

Definition pip_version (H : Host) : command :=
  Exec [executable H; of_string "-m"; of_string "pip"; of_string "--version"].

Definition check_pip (H : Host) : Run bool :=
  r <== check_call H (pip_version H) ;;
  match r with
  | Some _ => run_ret true
  | None =>
      run_command H (executable H ++ " -m ensurepip --upgrade")
        "Installing pip"
  end.

Definition create_venv (H : Host) : Run bool :=
  let venv_path : str := "venv" in
  if path_exists H venv_path then run_ret true
  else run_command H (executable H ++ " -m venv " ++ venv_path)
         "Creating virtual environment".

(** [os.path.join] uses the separator of the platform. *)
Definition get_venv_python (H : Host) : str :=
  if str_eqb (system H) "Windows" then "venv\Scripts\python.exe"
  else "venv/bin/python".

Definition dependencies : list str :=
  [of_string "flask"; of_string "flask-cors"; of_string "markitdown";
   of_string "youtube-transcript-api"; of_string "yt-dlp"].

Definition install_dependencies (H : Host) (venv_python : str) : Run bool :=
  up <== run_command H (venv_python ++ " -m pip install --upgrade pip")
           "Upgrading pip" ;;
  if negb up then run_ret false
  else
    let deps_str := join " " dependencies in
    ok <== run_command H (venv_python ++ " -m pip install " ++ deps_str)
             "Installing packages" ;;
    if negb ok then run_ret false else run_ret true.

Definition check_server_file (H : Host) : bool := path_exists H "server.py".

Definition server_command (venv_python : str) : command :=
  Exec [venv_python; of_string "server.py"].

(** [subprocess.call] returns whatever the status; Ctrl+C is caught
    here. *)
Definition start_server (H : Host) (venv_python : str) : Run unit :=
  ([server_command venv_python],
   match run H (server_command venv_python) with
   | Zero | NonZero | Interrupt => inl tt
   | OtherError e => inr (Uncaught e)
   end).

Definition main (H : Host) : Run unit :=
  if negb (check_python H) then sys_exit 1 else
  pip <== check_pip H ;;
  if negb pip then sys_exit 1 else
  venv <== create_venv H ;;
  if negb venv then sys_exit 1 else
  let venv_python := get_venv_python H in
  deps <== install_dependencies H venv_python ;;
  if negb deps then sys_exit 1 else
  if negb (check_server_file H) then sys_exit 1 else
  start_server H venv_python.

(** The script: the commands run and the exit status. *)
Definition setup (H : Host) : list command * nat :=
  let '(log, r) := main H in
  (log,
   match r with
   | inl _ => 0
   | inr (SysExit status) => status
   | inr KeyboardInterrupt => 0
   | inr (Uncaught _) => 1
   end).

(** The steps that precede the start of the server all succeeded. *)
Definition ready (H : Host) : Prop :=
  version_ok H = true /\
  (run H (pip_version H) = Zero \/
   (run H (pip_version H) = NonZero /\
    run H (Shell (executable H ++ " -m ensurepip --upgrade")) = Zero)) /\
  (path_exists H "venv" = true \/
   run H (Shell (executable H ++ " -m venv venv")) = Zero) /\
  run H (Shell (get_venv_python H ++ " -m pip install --upgrade pip")) = Zero /\
  run H (Shell (get_venv_python H ++
                " -m pip install flask flask-cors markitdown youtube-transcript-api yt-dlp"))
  = Zero /\
  path_exists H "server.py" = true.

(** Every command of the trace but the last ended well: with status 0, or
    it is the query for pip, whose failure the script repairs. *)
Fixpoint went_well (H : Host) (trace : list command) : Prop :=
  match trace with
  | [] => True
  | [c] => True
  | c :: rest =>
      (run H c = Zero \/ (c = pip_version H /\ run H c = NonZero)) /\
      went_well H rest
  end.

(** A fresh Linux machine on which every command succeeds. *)
Definition fresh_host : Host :=
  mk_Host true "/usr/bin/python3" "Linux"
    (fun p => str_eqb p "server.py") (fun _ => Zero).

(* ================================================================== *)
(** * The batch conversion *)
(* ================================================================== *)

(** An uploaded file: its name and what [file.save(path)] does. *)
Record upload := mk_upload {
  filename : str;
  save_to : str -> result unit
}.

(** An entry of [results]. *)
Inductive batch_entry :=
| Converted (name : str) (text : option str) (markdown : str)
    (title : option str)
| NotConverted (name : str) (error : str).

Inductive batch_answer :=
| BatchOk (files : list batch_entry)
| BatchError (status : nat) (error : str) (message : option str).

(** The body of the loop over the files: the entries it appends. The
    [finally] clause removes the temporary file and swallows every error
    of the removal. *)
Definition convert_one (C : Conv) (file : upload)
  : result (list batch_entry) :=
  if str_eqb (filename file) [] then Ok []
  else
    let temp_path := "temp_" ++ filename file in
    let? _ := save_to file temp_path in
    Ok [match md_convert C temp_path with
        | Ok result =>
            Converted (filename file) (text_content result)
              (markdown result) (title result)
        | Raise e => NotConverted (filename file) (str_of_exn e)
        end].

(** [convert_multiple]; [files] is [None] when the request has no
    [files] field. *)
Definition convert_multiple (C : Conv) (files : option (list upload))
  : batch_answer :=
  if negb (MARKITDOWN_AVAILABLE C) then
    BatchError 500 "MarkItDown not installed" (Some install_markitdown)
  else
    match files with
    | None => BatchError 400 "No files provided" None
    | Some [] => BatchError 400 "No files selected" None
    | Some files =>
        match (let? _ := md_init C in
               for_each (fun results file =>
                           let? r := convert_one C file in
                           Ok (results ++ r))
                        files []) with
        | Ok results => BatchOk results
        | Raise e =>
            BatchError 500 ("Batch conversion failed: " ++ str_of_exn e) None
        end
    end.

Definition entry_name (e : batch_entry) : str :=
  match e with
  | Converted name _ _ _ => name
  | NotConverted name _ => name
  end.

(** The entry says what [md.convert] did with the temporary file. *)
Definition entry_faithful (C : Conv) (e : batch_entry) : Prop :=
  match e with
  | Converted name text markdown title =>
      md_convert C ("temp_" ++ name)
      = Ok (mk_conversion text markdown title)
  | NotConverted name error =>
      exists e, md_convert C ("temp_" ++ name) = Raise e /\
                error = str_of_exn e
  end.

(** The files of a batch can be stored under their temporary names. *)
Definition storable (files : list upload) : Prop :=
  Forall (fun f => save_to f ("temp_" ++ filename f) = Ok tt) files.

(** MarkItDown that cannot read files whose name ends in [.bin]. *)
Definition picky_conv : Conv :=
  mk_Conv true (Ok tt)
    (fun source =>
       if str_eqb (snd (splitext source)) ".bin"
       then Raise (mk_exn ValueError "unsupported format")
       else Ok (mk_conversion (Some source) source None))
    (map ascii_lower).

Definition sample_batch : list upload :=
  [ mk_upload "a.txt" (fun _ => Ok tt);
    mk_upload "b.bin" (fun _ => Ok tt);
    mk_upload [] (fun _ => Ok tt);
    mk_upload "c.md" (fun _ => Ok tt) ].

(** A video with a manual English WebVTT track that downloads well. *)
Definition captioned_net : Net :=
  mk_Net true true
    (fun _ =>
       Ok (mk_video_info
             (Some [mk_track (Some (of_string "vtt"))
                             (Some (of_string "https://sub.example/vtt"))])
             None))
    (fun _ =>
       Ok (mk_http_response 200
             ("WEBVTT" ++ newline ++ newline ++ "1" ++ newline ++
              "00:00:01.000 --> 00:00:04.000" ++ newline ++
              "Hello <b>world</b>, these captions are long enough to be kept as a transcript."
              ++ newline)))
    (fun _ => Raise (mk_exn NoTranscriptFound "no transcript"))
    (fun _ => Ok [])
    (fun _ => Raise (mk_exn NoTranscriptFound "no transcript")).

(** The dispatch on the format of the track: the text of the decoder that
    takes the body, before the common clean-up. *)
Definition decode_format (L : Lib) (selected_ext : option str)
  (content : str) : result str :=
  if ext_is selected_ext "json3" then decode_json3 L content
  else if is_srv selected_ext then Ok (decode_srv content)
  else if contains "WEBVTT" content || ext_is selected_ext "vtt"
       then Ok (decode_vtt L content)
       else Ok content.

(** An identifier that is one name of the file system: it holds no slash
    and no backslash. *)
Definition plain_chat_id (chat_id : str) : Prop :=
  mem_char "/"%char chat_id = false /\ mem_char "\"%char chat_id = false.

(** The name of the directory of a chat. *)
Definition chat_dir (chat_id : str) : str := "chat_" ++ chat_id.

(** The summaries of a listing that carry the time stamp [t]. *)
Definition with_ts (t : str) (s : summary) : bool := str_eqb (ts_of s) t.

(* ================================================================== *)
(** * Lemmas on strings *)
(* ================================================================== *)

Lemma str_eqb_eq (a b : str) : str_eqb a b = true <-> a = b.
Proof.
  revert b; induction a as [|x a IH]; intros [|y b]; simpl; split;
    try congruence; try reflexivity.
  - intros H. apply andb_true_iff in H as [H1 H2].
    apply N.eqb_eq in H1. apply IH in H2. congruence.
  - intros H. injection H as -> ->. rewrite N.eqb_refl. simpl.
    apply IH. reflexivity.
Qed.

Lemma str_eqb_refl (a : str) : str_eqb a a = true.
Proof. apply str_eqb_eq. reflexivity. Qed.

Lemma startswith_app (p r : str) : startswith p (p ++ r) = true.
Proof.
  induction p as [|c p IH]; simpl; [reflexivity|].
  rewrite N.eqb_refl. exact IH.
Qed.

Lemma startswith_inv (p s : str) :
  startswith p s = true -> exists r, s = p ++ r.
Proof.
  revert s; induction p as [|c p IH]; intros s H.
  - exists s. reflexivity.
  - destruct s as [|d s]; simpl in H; [discriminate|].
    apply andb_true_iff in H as [H1 H2]. apply N.eqb_eq in H1. subst d.
    destruct (IH _ H2) as [r ->]. exists r. reflexivity.
Qed.

Lemma drop_while_Forall (P : char -> Prop) f (s : str) :
  Forall P s -> Forall P (drop_while f s).
Proof.
  induction 1 as [|c s Hc Hs IH]; simpl; [constructor|].
  destruct (f c); [exact IH | constructor; assumption].
Qed.

Lemma drop_while_length f (s : str) : len (drop_while f s) <= len s.
Proof.
  induction s as [|c s IH]; simpl; [lia|].
  destruct (f c); simpl; unfold len in *; lia.
Qed.

Lemma drop_while_idem f (s : str) :
  drop_while f (drop_while f s) = drop_while f s.
Proof.
  induction s as [|c s IH]; simpl; [reflexivity|].
  destruct (f c) eqn:E; [exact IH | simpl; rewrite E; reflexivity].
Qed.

Lemma drop_while_head f (s : str) c t :
  drop_while f s = c :: t -> f c = false.
Proof.
  induction s as [|x s IH]; simpl; [discriminate|].
  destruct (f x) eqn:E; [exact IH | congruence].
Qed.

Lemma strip_Forall (P : char -> Prop) f (s : str) :
  Forall P s -> Forall P (strip f s).
Proof.
  intros H. unfold strip, rstrip, lstrip.
  apply Forall_rev, drop_while_Forall, Forall_rev, drop_while_Forall, H.
Qed.

Lemma strip_length f (s : str) : len (strip f s) <= len s.
Proof.
  unfold strip, rstrip, lstrip, len.
  rewrite length_rev.
  etransitivity; [apply drop_while_length|].
  unfold len. rewrite length_rev. apply drop_while_length.
Qed.

(** A stripped text neither begins nor ends with a stripped character. *)
Lemma lstrip_rstrip_fix f (a : str) :
  drop_while f a = a -> drop_while f (rstrip f a) = rstrip f a.
Proof.
  intros Ha. unfold rstrip.
  destruct a as [|c a]; [reflexivity|].
  assert (Hc : f c = false) by (eapply drop_while_head; exact Ha).
  simpl rev.
  remember (rev a) as r eqn:Er. clear Er Ha a.
  induction r as [|x r IH]; simpl.
  - rewrite Hc. simpl. rewrite Hc. reflexivity.
  - destruct (f x) eqn:Ex.
    + exact IH.
    + simpl. rewrite rev_app_distr. simpl. rewrite Hc. reflexivity.
Qed.

Lemma strip_idem f (s : str) : strip f (strip f s) = strip f s.
Proof.
  unfold strip, lstrip.
  rewrite (lstrip_rstrip_fix f (drop_while f s)) by apply drop_while_idem.
  unfold rstrip. rewrite rev_involutive, drop_while_idem. reflexivity.
Qed.

Lemma strip_nil f : strip f [] = [].
Proof. reflexivity. Qed.

Lemma Forall_firstn {A : Type} (P : A -> Prop) (n : nat) (l : list A) :
  Forall P l -> Forall P (firstn n l).
Proof.
  intros H. revert n. induction H as [|x l Hx Hl IH]; intros [|n]; simpl;
    constructor; auto.
Qed.

Lemma Forall_skipn {A : Type} (P : A -> Prop) (n : nat) (l : list A) :
  Forall P l -> Forall P (skipn n l).
Proof.
  intros H. revert n. induction H as [|x l Hx Hl IH]; intros [|n]; simpl;
    auto.
Qed.

(* ================================================================== *)
(** * Filename sanitisation: properties *)
(* ================================================================== *)

Lemma sanitize_filename_eq L filename :
  sanitize_filename L filename = limit_length (cleaned_name L filename).
Proof. reflexivity. Qed.

Lemma replace_invalid_valid (s : str) :
  Forall valid_char
    (map (fun c => if is_invalid_char c then N_of_ascii "_" else c) s).
Proof.
  induction s as [|c s IH]; simpl; constructor; [|exact IH].
  unfold valid_char. destruct (is_invalid_char c) eqn:E; [reflexivity|exact E].
Qed.

Lemma replace_invalid_id (s : str) :
  Forall valid_char s ->
  map (fun c => if is_invalid_char c then N_of_ascii "_" else c) s = s.
Proof.
  induction 1 as [|c s Hc Hs IH]; cbn [map]; [reflexivity|].
  unfold valid_char in Hc. rewrite Hc. f_equal. exact IH.
Qed.

Lemma clean_name_valid (s : str) : Forall valid_char (clean_name s).
Proof.
  unfold clean_name.
  pose proof (strip_Forall valid_char is_dot_or_space _
                (replace_invalid_valid s)) as H.
  destruct (strip is_dot_or_space _) as [|c t]; [|exact H].
  repeat constructor.
Qed.

Lemma clean_name_nonempty (s : str) : clean_name s <> [].
Proof.
  unfold clean_name.
  destruct (strip is_dot_or_space _); discriminate.
Qed.

Lemma splitext_parts (p : str) :
  (exists n, splitext p = (firstn n p, skipn n p)) \/ splitext p = (p, []).
Proof.
  unfold splitext.
  destruct (_ <? _)%Z; [|right; reflexivity].
  destruct (existsb _ _); [left; eexists; reflexivity | right; reflexivity].
Qed.

Lemma splitext_valid (p : str) :
  Forall valid_char p ->
  Forall valid_char (fst (splitext p)) /\ Forall valid_char (snd (splitext p)).
Proof.
  intros H. destruct (splitext_parts p) as [[n ->] | ->]; simpl; split;
    auto using Forall_firstn, Forall_skipn.
Qed.

Lemma limit_length_valid (s : str) :
  Forall valid_char s -> Forall valid_char (limit_length s).
Proof.
  intros H. unfold limit_length.
  destruct (Nat.ltb 255 (len s)); [|exact H].
  destruct (splitext_valid s H) as [Hn He].
  destruct (splitext s) as [name e]; cbn [fst snd] in Hn, He.
  destruct e as [|c e].
  - apply Forall_firstn, H.
  - apply Forall_app. split; [|exact He].
    unfold slice_to. apply Forall_firstn, Hn.
Qed.

Lemma limit_length_short (s : str) : len s <= 255 -> limit_length s = s.
Proof.
  intros H. unfold limit_length.
  destruct (Nat.ltb_spec 255 (len s)); [lia | reflexivity].
Qed.

Lemma slice_to_length (s : str) (k : Z) :
  (0 <= k)%Z -> len (slice_to s k) <= Z.to_nat k.
Proof.
  intros Hk. unfold slice_to, slice_index, len.
  destruct (Z.ltb_spec k 0); [lia|].
  rewrite length_firstn. lia.
Qed.

(** The limit holds whenever the extension itself fits. *)
Lemma limit_length_bound (s : str) :
  len (snd (splitext s)) <= 255 -> len (limit_length s) <= 255.
Proof.
  intros He. unfold limit_length.
  destruct (Nat.ltb_spec 255 (len s)) as [Hlt|Hle]; [|exact Hle].
  destruct (splitext s) as [name e]; cbn [snd] in He.
  destruct e as [|c e].
  - unfold len. rewrite length_firstn. lia.
  - unfold len in *. rewrite length_app.
    pose proof (slice_to_length name (255 - Z.of_nat (List.length (c :: e)))) as B.
    unfold len in B. lia.
Qed.

Lemma valid_not_url (s : str) : Forall valid_char s -> is_url s = false.
Proof.
  intros H. unfold is_url.
  assert (E : forall p : str,
             forallb (fun c => negb (is_invalid_char c)) p = false ->
             startswith p s = false).
  { intros p Hp. destruct (startswith p s) eqn:Es; [|reflexivity].
    apply startswith_inv in Es as [r ->].
    apply Forall_app in H as [Hp' _].
    assert (forallb (fun c => negb (is_invalid_char c)) p = true).
    { apply forallb_forall. intros c Hc.
      rewrite Forall_forall in Hp'. rewrite (Hp' c Hc). reflexivity. }
    congruence. }
  rewrite !E by reflexivity. reflexivity.
Qed.

Lemma clean_name_fix (s : str) :
  Forall valid_char s -> s <> [] -> strip is_dot_or_space s = s ->
  clean_name s = s.
Proof.
  intros Hv Hn Hs. unfold clean_name.
  rewrite replace_invalid_id by exact Hv. rewrite Hs.
  destruct s; [contradiction | reflexivity].
Qed.

Lemma clean_name_stripped (s : str) :
  strip is_dot_or_space (clean_name s) = clean_name s.
Proof.
  unfold clean_name.
  set (m := map _ s).
  destruct (strip is_dot_or_space m) as [|c t] eqn:E.
  - reflexivity.
  - rewrite <- E. apply strip_idem.
Qed.

Lemma limit_length_nonempty (s : str) : s <> [] -> limit_length s <> [].
Proof.
  intros Hs. unfold limit_length.
  destruct (Nat.ltb_spec 255 (len s)) as [Hlt|_]; [|exact Hs].
  destruct (splitext s) as [name e].
  destruct e as [|c e].
  - destruct s; [contradiction | discriminate].
  - intros H. apply app_eq_nil in H as [_ H]. discriminate.
Qed.

Lemma sanitize_filename_valid L filename :
  Forall valid_char (sanitize_filename L filename).
Proof. apply limit_length_valid, clean_name_valid. Qed.

Lemma sanitize_filename_fix L (y : str) :
  Forall valid_char y -> y <> [] -> len y <= 255 ->
  strip is_dot_or_space y = y ->
  sanitize_filename L y = y.
Proof.
  intros Hv Hn Hl Hs. unfold sanitize_filename.
  rewrite (valid_not_url y Hv), (clean_name_fix y Hv Hn Hs).
  apply limit_length_short, Hl.
Qed.

(** C8 (as the claim states it, refuted): a name of 265 characters whose
    255th character is a space is cut after that space, and a second pass
    strips it, so [sanitize_filename] is not idempotent. *)
Lemma sanitize_filename_not_idempotent :
  let x : str := repeat (N_of_ascii "a") 254 ++ " " ++ repeat (N_of_ascii "b") 10 in
  sanitize_filename sample_lib (sanitize_filename sample_lib x)
  <> sanitize_filename sample_lib x.
Proof. vm_compute. discriminate. Qed.

(** The length limit itself gives way when the extension is longer than
    255 characters: [name[:255 - len(ext)]] then counts from the end. *)
Lemma limit_length_long_extension :
  len (sanitize_filename sample_lib
         (repeat (N_of_ascii "a") 100 ++ "." ++ repeat (N_of_ascii "b") 300)) = 355.
Proof. vm_compute. reflexivity. Qed.

(** C8 (amended): the output of [sanitize_filename] holds none of the nine
    reserved punctuation characters and no character with a code point
    from 0 to 31, the only controls the code replaces: DEL (127) and the
    controls from 128 to 159 are kept as they are; it has at most 255
    characters whenever the extension of the cleaned name has at most 255;
    and sanitising twice equals sanitising once whenever the output has at
    most 255 characters and neither begins nor ends with a space or a dot,
    in particular whenever the cleaned name needed no truncation. *)
Theorem sanitize_filename_amended (L : Lib) (x : str) :
  Forall (fun c => (32 <= c)%N /\ valid_char c) (sanitize_filename L x) /\
  sanitize_filename L [97; 127; 133; 159; 98]%N = [97; 127; 133; 159; 98]%N /\
  (len (snd (splitext (cleaned_name L x))) <= 255 ->
   len (sanitize_filename L x) <= 255) /\
  (len (sanitize_filename L x) <= 255 ->
   strip is_dot_or_space (sanitize_filename L x) = sanitize_filename L x ->
   sanitize_filename L (sanitize_filename L x) = sanitize_filename L x) /\
  (len (cleaned_name L x) <= 255 ->
   sanitize_filename L (sanitize_filename L x) = sanitize_filename L x).
Proof.
  split; [|split; [reflexivity|]].
  { eapply Forall_impl; [|apply sanitize_filename_valid].
    intros c Hc. split; [|exact Hc]. unfold valid_char, is_invalid_char in Hc.
    apply orb_false_iff in Hc as [_ Hc]. apply N.leb_gt in Hc. lia. }
  repeat split.
  - rewrite sanitize_filename_eq. apply limit_length_bound.
  - intros Hl Hs. apply sanitize_filename_fix; auto.
    + apply sanitize_filename_valid.
    + apply limit_length_nonempty, clean_name_nonempty.
  - intros Hl. rewrite (sanitize_filename_eq L x).
    rewrite (limit_length_short _ Hl).
    apply sanitize_filename_fix; auto.
    + apply clean_name_valid.
    + apply clean_name_nonempty.
    + apply clean_name_stripped.
Qed.

(** The stored name of the attachment in the spec's scenario. *)
Lemma sanitize_filename_witness :
  sanitize_filename sample_lib "my file:name?.txt" = "my file_name_.txt" /\
  sanitize_filename sample_lib (sanitize_filename sample_lib "my file:name?.txt")
  = sanitize_filename sample_lib "my file:name?.txt".
Proof.
  split; [reflexivity|].
  apply (proj2 (proj2 (proj2 (proj2 (sanitize_filename_amended sample_lib
                                       "my file:name?.txt"))))).
  vm_compute. lia.
Defined.

(* ================================================================== *)
(** * White space clean-up: properties *)
(* ================================================================== *)

Lemma drop_while_all f (s : str) : forallb f s = true -> drop_while f s = [].
Proof.
  induction s as [|c s IH]; simpl; [reflexivity|].
  intros H. apply andb_true_iff in H as [Hc Hs]. rewrite Hc. auto.
Qed.

Lemma drop_while_suffix f (s : str) : exists p, s = p ++ drop_while f s.
Proof.
  induction s as [|c s [p IH]]; simpl.
  - exists []. reflexivity.
  - destruct (f c).
    + exists (c :: p). simpl. congruence.
    + exists []. reflexivity.
Qed.

Lemma rstrip_prefix f (s : str) : exists r, s = rstrip f s ++ r.
Proof.
  unfold rstrip. destruct (drop_while_suffix f (rev s)) as [p Hp].
  exists (rev p).
  rewrite <- rev_app_distr, <- Hp, rev_involutive. reflexivity.
Qed.

(** [strip] keeps a middle part of the text. *)
Lemma strip_middle f (s : str) : exists a b, s = a ++ strip f s ++ b.
Proof.
  unfold strip, lstrip.
  destruct (drop_while_suffix f s) as [a Ha].
  destruct (rstrip_prefix f (drop_while f s)) as [b Hb].
  exists a, b. rewrite <- Hb. exact Ha.
Qed.

Lemma strip_all f (s : str) : forallb f s = true -> strip f s = [].
Proof.
  intros H. unfold strip, lstrip. rewrite (drop_while_all f s H). reflexivity.
Qed.

Lemma collapse_from_length b (s : str) : len (collapse_from b s) <= len s.
Proof.
  revert b; induction s as [|c s IH]; intros b; simpl; [lia|].
  pose proof (IH true) as Ht. pose proof (IH false) as Hf.
  unfold len in *.
  destruct (is_space c); [destruct b|]; simpl; lia.
Qed.

Lemma collapse_from_all b (s : str) :
  forallb is_space s = true -> forallb is_space (collapse_from b s) = true.
Proof.
  revert b; induction s as [|c s IH]; intros b; simpl; [reflexivity|].
  intros H. apply andb_true_iff in H as [Hc Hs]. rewrite Hc.
  destruct b; simpl; auto.
Qed.

Lemma clean_up_length (s : str) : len (clean_up s) <= len s.
Proof.
  unfold clean_up, collapse_ws.
  etransitivity; [apply strip_length | apply collapse_from_length].
Qed.

Lemma clean_up_all_space (s : str) :
  forallb is_space s = true -> clean_up s = [].
Proof.
  intros H. unfold clean_up, collapse_ws.
  apply strip_all, collapse_from_all, H.
Qed.

Lemma collapse_from_single_spaced b (s : str) :
  single_spaced (collapse_from b s) = true /\
  (b = true ->
   match collapse_from b s with
   | [] => True
   | d :: _ => is_space d = false
   end).
Proof.
  revert b; induction s as [|c s IH]; intros b; simpl.
  - split; [reflexivity | trivial].
  - destruct (is_space c) eqn:Ec.
    + destruct b.
      * apply IH.
      * destruct (IH true) as [H1 H2]. split; [|discriminate].
        simpl. rewrite H1. specialize (H2 eq_refl).
        destruct (collapse_from true s); [reflexivity|].
        rewrite H2. reflexivity.
    + destruct (IH false) as [H1 _]. split.
      * simpl. rewrite Ec, H1. reflexivity.
      * intros _. exact Ec.
Qed.

Lemma single_spaced_app_r (a b : str) :
  single_spaced (a ++ b) = true -> single_spaced b = true.
Proof.
  induction a as [|c a IH]; simpl; [auto|].
  intros H. apply andb_true_iff in H as [_ H]. auto.
Qed.

Lemma single_spaced_app_l (a b : str) :
  single_spaced (a ++ b) = true -> single_spaced a = true.
Proof.
  induction a as [|c a IH]; simpl; [reflexivity|].
  intros H. apply andb_true_iff in H as [H1 H2].
  rewrite (IH H2), andb_true_r.
  destruct (is_space c); [|reflexivity].
  apply andb_true_iff in H1 as [H1 H3]. rewrite H1. simpl.
  destruct a; [reflexivity | exact H3].
Qed.

Lemma clean_up_ws_normal (s : str) : ws_normal (clean_up s).
Proof.
  unfold ws_normal, clean_up. split; [|apply strip_idem].
  destruct (strip_middle is_space (collapse_ws s)) as (a & b & E).
  pose proof (proj1 (collapse_from_single_spaced false s)) as H.
  fold (collapse_ws s) in H. rewrite E in H.
  apply single_spaced_app_r in H. apply single_spaced_app_l in H. exact H.
Qed.

(* ================================================================== *)
(** * The playlist check and the length check: properties *)
(* ================================================================== *)

Lemma meaningful_spec (t : str) : meaningful t = true <-> 50 < len t.
Proof.
  unfold meaningful. split.
  - intros H. apply andb_true_iff in H as [_ H]. apply Nat.ltb_lt, H.
  - intros H. apply andb_true_iff. split.
    + destruct t; [simpl in H; lia | reflexivity].
    + apply Nat.ltb_lt, H.
Qed.

Lemma process_body_ok L video_id e content r :
  process_body L video_id e content = Ok r ->
  is_m3u8_playlist content = false /\
  decode_subtitle L e content = Ok (tr_text r) /\
  50 < len (tr_text r).
Proof.
  unfold process_body.
  destruct (is_m3u8_playlist content); [discriminate|].
  destruct (decode_subtitle L e content) as [t|]; simpl; [|discriminate].
  destruct (meaningful t) eqn:E; [|discriminate].
  intros H. injection H as <-. simpl.
  repeat split. apply meaningful_spec, E.
Qed.

Lemma decode_subtitle_eq L e content :
  decode_subtitle L e content =
  let? full_text := decode_format L e content in Ok (clean_up full_text).
Proof. reflexivity. Qed.

(** A body that no decoder takes is passed through, cleaned up and
    measured as it is. *)
Lemma process_body_pass_through L video_id e content :
  ext_is e "json3" = false -> is_srv e = false ->
  contains "WEBVTT" content || ext_is e "vtt" = false ->
  process_body L video_id e content =
  if is_m3u8_playlist content
  then Raise (plain "M3U8 playlist received instead of subtitles")
  else if meaningful (clean_up content)
  then Ok (mk_transcript_result true (clean_up content) video_id "en" true)
  else Raise (plain "Insufficient content extracted").
Proof.
  intros H1 H2 H3. unfold process_body, decode_subtitle.
  rewrite H1, H2, H3.
  destruct (is_m3u8_playlist content); [reflexivity|].
  simpl. destruct (meaningful (clean_up content)); reflexivity.
Qed.

Lemma process_body_short L video_id e content full_text :
  is_m3u8_playlist content = false ->
  decode_format L e content = Ok full_text ->
  len (clean_up full_text) <= 50 ->
  process_body L video_id e content =
  Raise (plain "Insufficient content extracted").
Proof.
  intros Hm Hd Hl. unfold process_body. rewrite Hm, decode_subtitle_eq, Hd.
  cbn [bind_result].
  destruct (meaningful (clean_up full_text)) eqn:E; [|reflexivity].
  apply meaningful_spec in E. lia.
Qed.

(** C1 (as the claim states it, refuted): a body that is a plain sentence of
    exactly 50 characters, free of playlist markers and already clean, is
    refused, so a text at the threshold is not accepted; and a WebVTT body
    whose caption, and so whose decoded text, begins with the playlist
    header is accepted, so a marker at the head of the decoded text does
    not make the code refuse it. *)
Lemma process_body_rejects_50 :
  let s : str := "The quick brown fox jumps over the lazy dog today." in
  let body : str :=
    "WEBVTT" ++ newline ++ newline ++
    "#EXTM3U is the header that a playlist of media segments begins with"
    ++ newline in
  (len s = 50 /\ clean_up s = s /\ is_m3u8_playlist s = false /\
   process_body sample_lib "abc123" None s =
   Raise (plain "Insufficient content extracted")) /\
  (process_body sample_lib "abc123" (Some (of_string "vtt")) body =
   Ok (mk_transcript_result true
         "#EXTM3U is the header that a playlist of media segments begins with"
         "abc123" "en" true)).
Proof. vm_compute. repeat split. Qed.

(** C1 (amended): the yt-dlp path checks two different strings. The
    downloaded body is refused, before any decoding and whatever its
    format, when it begins with the playlist header or holds a playlist
    directive. The text the decoder of the format returns is cleaned up
    and then refused when nothing is left or at most 50 characters are:
    so an empty decoded text, one of white space only and one of at most
    50 characters are all refused. A body becomes a result exactly when it
    is no playlist, its decoding succeeds and the cleaned-up text has more
    than 50 characters, and the result carries that text. *)
Theorem process_body_amended (L : Lib) (video_id : str) (e : option str)
  (content : str) :
  (forall r,
     process_body L video_id e content = Ok r <->
     is_m3u8_playlist content = false /\
     exists full_text,
       decode_format L e content = Ok full_text /\
       50 < len (clean_up full_text) /\
       r = mk_transcript_result true (clean_up full_text) video_id "en" true)
  /\
  (startswith "#EXTM3U" content = true \/ contains "#EXT-X-" content = true ->
   process_body L video_id e content =
   Raise (plain "M3U8 playlist received instead of subtitles")) /\
  (forall full_text,
     is_m3u8_playlist content = false ->
     decode_format L e content = Ok full_text ->
     full_text = [] \/ forallb is_space full_text = true \/
     len full_text <= 50 \/ len (clean_up full_text) <= 50 ->
     process_body L video_id e content =
     Raise (plain "Insufficient content extracted")).
Proof.
  split; [|split].
  - intros r. split.
    + intros H. destruct (process_body_ok _ _ _ _ _ H) as (Hm & Hd & Hl).
      split; [exact Hm|]. rewrite decode_subtitle_eq in Hd.
      destruct (decode_format L e content) as [full_text|] eqn:E;
        [|discriminate].
      cbn [bind_result] in Hd. injection Hd as Hd.
      exists full_text. rewrite Hd. repeat split; [exact Hl|].
      unfold process_body in H. rewrite Hm, decode_subtitle_eq, E in H.
      cbn [bind_result] in H. rewrite Hd in H.
      destruct (meaningful (tr_text r)); [|discriminate].
      injection H as <-. reflexivity.
    + intros (Hm & full_text & Hd & Hl & ->).
      unfold process_body. rewrite Hm, decode_subtitle_eq, Hd.
      cbn [bind_result]. rewrite (proj2 (meaningful_spec _) Hl). reflexivity.
  - intros H. unfold process_body, is_m3u8_playlist.
    destruct H as [-> | ->]; [reflexivity|].
    rewrite orb_true_r. reflexivity.
  - intros full_text Hm Hd H.
    apply (process_body_short L video_id e content full_text Hm Hd).
    pose proof (clean_up_length full_text) as Hc.
    destruct H as [-> | [H | [H | H]]].
    + vm_compute. lia.
    + rewrite (clean_up_all_space _ H). simpl. lia.
    + lia.
    + exact H.
Qed.

Lemma process_body_witness :
  process_body sample_lib "abc123" None
    "The quick brown fox jumps over the lazy dog today.."
  = Ok (mk_transcript_result true
          "The quick brown fox jumps over the lazy dog today.."
          "abc123" "en" true) /\
  process_body sample_lib "abc123" (Some (of_string "vtt"))
    "#EXTM3U and then fifty more characters of ordinary text follow"
  = Raise (plain "M3U8 playlist received instead of subtitles") /\
  process_body sample_lib "abc123" None "   "
  = Raise (plain "Insufficient content extracted").
Proof.
  split; [|split].
  - apply (proj1 (process_body_amended sample_lib "abc123" None
                    "The quick brown fox jumps over the lazy dog today..")).
    split; [reflexivity|].
    exists (of_string "The quick brown fox jumps over the lazy dog today..").
    repeat split. vm_compute. lia.
  - apply (proj1 (proj2 (process_body_amended sample_lib "abc123"
                           (Some (of_string "vtt"))
       "#EXTM3U and then fifty more characters of ordinary text follow"))).
    left. reflexivity.
  - apply (proj2 (proj2 (process_body_amended sample_lib "abc123" None "   "))
             (of_string "   ")); [reflexivity | reflexivity |].
    right. left. reflexivity.
Defined.

(* ================================================================== *)
(** * Subtitle decoding: properties *)
(* ================================================================== *)

Lemma strip_tags_from_Forall (P : char -> Prop) k (s : str) :
  Forall P s -> Forall P (strip_tags_from k s).
Proof.
  intros H. revert k. induction H as [|c s Hc Hs IH]; intros k.
  - destruct k; constructor.
  - cbn [strip_tags_from]. destruct k as [|k]; [|apply IH].
    destruct (tag_at (c :: s)); [apply IH|].
    constructor; [exact Hc | apply IH].
Qed.

Lemma take_while_nil_inv f (s : str) :
  take_while f s = [] -> s = [] \/ exists c t, s = c :: t /\ f c = false.
Proof.
  destruct s as [|c t]; simpl; [left; reflexivity|].
  destruct (f c) eqn:E; [discriminate|].
  right. exists c, t. split; [reflexivity | exact E].
Qed.

Lemma drop_while_nil_inv f (s : str) :
  drop_while f s = [] -> Forall (fun c => f c = true) s.
Proof.
  induction s as [|c s IH]; simpl; [constructor|].
  destruct (f c) eqn:E; [|discriminate].
  intros H. constructor; auto.
Qed.

Lemma drop_while_nil f (s : str) :
  Forall (fun c => f c = true) s -> drop_while f s = [].
Proof.
  induction 1 as [|c s Hc Hs IH]; simpl; [reflexivity|].
  rewrite Hc. exact IH.
Qed.

(** No tag starts at a [<] that the substitution kept. *)
Lemma tag_at_kept c (t : str) :
  tag_at (c :: t) = None -> tag_at (c :: strip_tags_from 0 t) = None.
Proof.
  unfold tag_at. destruct (c =? "<"%char)%N; [|reflexivity].
  destruct (take_while not_gt t) as [|i inner] eqn:Et.
  - intros _. apply take_while_nil_inv in Et as [-> | (d & t' & -> & Hd)].
    + reflexivity.
    + cbn [strip_tags_from].
      assert (Hn : tag_at (d :: t') = None).
      { unfold tag_at. unfold not_gt in Hd.
        apply negb_false_iff, N.eqb_eq in Hd. subst d. reflexivity. }
      rewrite Hn. simpl. rewrite Hd. reflexivity.
  - destruct (drop_while not_gt t) as [|g rest] eqn:Ed; [|discriminate].
    intros _. apply drop_while_nil_inv in Ed.
    rewrite (drop_while_nil not_gt _ (strip_tags_from_Forall _ 0 t Ed)).
    destruct (take_while not_gt (strip_tags_from 0 t)); reflexivity.
Qed.

(** The tag substitution leaves no tag behind. *)
Lemma strip_tags_from_no_tag k (s : str) :
  has_tag (strip_tags_from k s) = false.
Proof.
  revert k; induction s as [|c s IH]; intros k.
  - destruct k; reflexivity.
  - cbn [strip_tags_from]. destruct k as [|k]; [|apply IH].
    destruct (tag_at (c :: s)) eqn:E; [apply IH|].
    cbn [has_tag]. rewrite (tag_at_kept c s E). apply IH.
Qed.

Lemma strip_tags_no_tag (s : str) : has_tag (strip_tags s) = false.
Proof. apply strip_tags_from_no_tag. Qed.

Lemma has_tag_app_r (a b : str) :
  has_tag (a ++ b) = false -> has_tag b = false.
Proof.
  induction a as [|c a IH]; [auto|].
  cbn [app has_tag]. destruct (tag_at (c :: a ++ b)); [discriminate|].
  exact IH.
Qed.

Lemma take_while_app f (t b : str) :
  drop_while f t <> [] ->
  take_while f (t ++ b) = take_while f t /\
  drop_while f (t ++ b) = drop_while f t ++ b.
Proof.
  induction t as [|c t IH]; simpl; [congruence|].
  destruct (f c); [|split; reflexivity].
  intros H. destruct (IH H) as [-> ->]. split; reflexivity.
Qed.

Lemma tag_at_app (a b : str) n :
  tag_at a = Some n -> tag_at (a ++ b) = Some n.
Proof.
  destruct a as [|c t]; [discriminate|].
  cbn [app]. unfold tag_at.
  destruct (c =? "<"%char)%N; [|discriminate].
  destruct (drop_while not_gt t) as [|g rest] eqn:Ed.
  - destruct (take_while not_gt t); discriminate.
  - assert (Hne : drop_while not_gt t <> []) by (rewrite Ed; discriminate).
    destruct (take_while_app not_gt t b Hne) as [-> ->].
    rewrite Ed. destruct (take_while not_gt t); [discriminate|].
    cbn [app]. auto.
Qed.

Lemma has_tag_app_l (a b : str) :
  has_tag (a ++ b) = false -> has_tag a = false.
Proof.
  induction a as [|c a IH]; [reflexivity|].
  cbn [app has_tag].
  destruct (tag_at (c :: a)) eqn:E.
  - change (c :: a ++ b) with ((c :: a) ++ b).
    rewrite (tag_at_app _ b _ E). discriminate.
  - destruct (tag_at (c :: a ++ b)); [discriminate | exact IH].
Qed.

Lemma has_tag_strip f (s : str) :
  has_tag s = false -> has_tag (strip f s) = false.
Proof.
  intros H. destruct (strip_middle f s) as (a & b & E).
  rewrite E in H. apply has_tag_app_r, has_tag_app_l in H. exact H.
Qed.

Lemma decode_cue_no_tag (cue : str) : has_tag (decode_cue cue) = false.
Proof. unfold decode_cue. apply has_tag_strip, strip_tags_no_tag. Qed.

Lemma decode_vtt_line_no_tag L (line l : str) :
  decode_vtt_line L line = Some l -> has_tag l = false.
Proof.
  unfold decode_vtt_line.
  destruct (_ && _); [|discriminate].
  pose proof (strip_tags_no_tag (strip is_space line)) as H.
  destruct (strip_tags (strip is_space line)); [discriminate|].
  intros E. injection E as <-. exact H.
Qed.

Lemma decode_subtitle_ws_normal L e content t :
  decode_subtitle L e content = Ok t -> ws_normal t.
Proof.
  unfold decode_subtitle.
  destruct (if ext_is e "json3" then _ else _) as [full|]; simpl;
    [|discriminate].
  intros H. injection H as <-. apply clean_up_ws_normal.
Qed.

(** C5 (as the claim states it, refuted): a WebVTT cue keeps its entity,
    and a body in a format the decoder passes through keeps its tags. *)
Lemma decode_keeps_entity_and_tags :
  (exists t, decode_subtitle sample_lib (Some (of_string "vtt"))
               (vtt_fixture "Tom &amp; Jerry") = Ok t /\
             has_entity t = true) /\
  (exists t, decode_subtitle sample_lib (Some (of_string "ttml"))
               "<p>Tom and Jerry</p>" = Ok t /\
             has_tag t = true).
Proof.
  split; eexists; (split; [vm_compute; reflexivity | reflexivity]).
Qed.

(** C5 (amended): whatever the format, the decoded text has every run of
    white space collapsed to one space and none at its ends; the XML-cue
    decoder leaves no tag inside a cue and the WebVTT decoder none inside
    a line; and the WebVTT fixture with the cue text
    [Hello <b>world</b>] decodes to exactly [Hello world]. *)
Theorem decode_subtitle_amended :
  (forall L e content t,
     decode_subtitle L e content = Ok t -> ws_normal t) /\
  (forall cue, has_tag (decode_cue cue) = false) /\
  (forall L line l, decode_vtt_line L line = Some l -> has_tag l = false) /\
  (forall L, decode_subtitle L (Some (of_string "vtt"))
               (vtt_fixture "Hello <b>world</b>") = Ok (of_string "Hello world")).
Proof.
  repeat split.
  - apply (decode_subtitle_ws_normal _ _ _ _ H).
  - apply (decode_subtitle_ws_normal _ _ _ _ H).
  - apply decode_cue_no_tag.
  - intros L line l. apply decode_vtt_line_no_tag.
Qed.

Lemma decode_subtitle_witness : ws_normal "Hello world".
Proof.
  apply (proj1 decode_subtitle_amended sample_lib (Some (of_string "vtt"))
           (vtt_fixture "Hello <b>world</b>")).
  reflexivity.
Defined.

(** What the XML-cue decoder makes of entities and inline tags. *)
Example decode_srv_example :
  decode_srv "<text start=1>Tom &amp; Jerry</text><text start=2> &lt;i&gt;run&lt;/i&gt; </text>"
  = "Tom & Jerry run".
Proof. reflexivity. Qed.

(* ================================================================== *)
(** * Track selection: properties *)
(* ================================================================== *)

Lemma pick_format_spec fmt subtitles st :
  urls_present subtitles ->
  pick_format fmt subtitles st =
  match first_of_format fmt subtitles with
  | Some sub => Ok (mk_selection (url sub) (Some fmt))
  | None => Ok st
  end.
Proof.
  unfold first_of_format.
  induction 1 as [|sub rest Hu Hr IH]; simpl; [reflexivity|].
  destruct (ext_is (ext sub) fmt); [|exact IH].
  destruct (url sub); [reflexivity | discriminate].
Qed.

Lemma first_of_format_none fmt subtitles :
  first_of_format fmt subtitles = None <-> has_format fmt subtitles = false.
Proof.
  unfold first_of_format, has_format.
  induction subtitles as [|sub rest IH]; simpl; [tauto|].
  destruct (ext_is (ext sub) fmt); simpl; [split; discriminate | exact IH].
Qed.

Lemma first_of_format_some fmt subtitles sub :
  first_of_format fmt subtitles = Some sub ->
  In sub subtitles /\ ext sub = Some fmt.
Proof.
  unfold first_of_format. intros H. apply find_some in H as [Hin He].
  split; [exact Hin|].
  unfold ext_is in He. destruct (ext sub) as [e|]; [|discriminate].
  apply str_eqb_eq in He. congruence.
Qed.

Lemma pick_priority_spec fmts subtitles st :
  urls_present subtitles ->
  url_truthy (subtitle_url st) = false ->
  pick_priority fmts subtitles st =
  match List.find (fun fmt => has_format fmt subtitles) fmts with
  | Some fmt =>
      match first_of_format fmt subtitles with
      | Some sub => Ok (mk_selection (url sub) (Some fmt))
      | None => Ok st
      end
  | None => Ok st
  end.
Proof.
  intros Hu Hst. induction fmts as [|fmt rest IH]; simpl; [reflexivity|].
  rewrite (pick_format_spec fmt subtitles st Hu).
  destruct (first_of_format fmt subtitles) as [sub|] eqn:E.
  - assert (Hf : has_format fmt subtitles = true).
    { destruct (has_format fmt subtitles) eqn:F; [reflexivity|].
      apply first_of_format_none in F. congruence. }
    rewrite Hf. simpl.
    destruct (first_of_format_some _ _ _ E) as [Hin _].
    rewrite (proj1 (Forall_forall _ _) Hu sub Hin).
    rewrite E. reflexivity.
  - apply first_of_format_none in E. rewrite E. simpl. rewrite Hst. exact IH.
Qed.

Lemma pick_non_m3u8_spec subtitles st :
  urls_present subtitles ->
  pick_non_m3u8 subtitles st =
  match first_non_m3u8 subtitles with
  | Some sub => Ok (mk_selection (url sub) (ext sub))
  | None => Ok st
  end.
Proof.
  unfold first_non_m3u8.
  induction 1 as [|sub rest Hu Hr IH]; simpl; [reflexivity|].
  destruct (negb (ext_is (ext sub) "m3u8")); [|exact IH].
  destruct (url sub); [reflexivity | discriminate].
Qed.

Lemma select_subtitle_spec subtitles :
  urls_present subtitles -> select_subtitle subtitles = Ok (selected subtitles).
Proof.
  intros Hu. unfold select_subtitle, selected, best_format.
  rewrite (pick_priority_spec priority_formats subtitles
             (mk_selection None None) Hu eq_refl).
  destruct (List.find _ priority_formats) as [fmt|] eqn:Ef; simpl.
  - apply find_some in Ef as [_ Hf].
    destruct (first_of_format fmt subtitles) as [sub|] eqn:E.
    + simpl. destruct (first_of_format_some _ _ _ E) as [Hin _].
      rewrite (proj1 (Forall_forall _ _) Hu sub Hin). reflexivity.
    + apply first_of_format_none in E. congruence.
  - rewrite (pick_non_m3u8_spec _ _ Hu).
    destruct (first_non_m3u8 subtitles); reflexivity.
Qed.

Lemma find_first {A : Type} (f : A -> bool) (l : list A) x :
  List.find f l = Some x ->
  exists pre post, l = pre ++ x :: post /\ forallb (fun y => negb (f y)) pre = true.
Proof.
  induction l as [|a l IH]; simpl; [discriminate|].
  destruct (f a) eqn:E.
  - intros H. injection H as <-. exists [], l. split; reflexivity.
  - intros H. destruct (IH H) as (pre & post & -> & Hp).
    exists (a :: pre), post. split; [reflexivity|].
    simpl. rewrite E, Hp. reflexivity.
Qed.

Lemma find_none_forallb {A : Type} (f : A -> bool) (l : list A) :
  List.find f l = None -> forallb (fun y => negb (f y)) l = true.
Proof.
  induction l as [|a l IH]; simpl; [reflexivity|].
  destruct (f a); [discriminate|]. exact IH.
Qed.

Lemma has_format_ext subtitles sub :
  In sub subtitles -> forall e, ext sub = Some e ->
  has_format e subtitles = true.
Proof.
  intros Hin e He. unfold has_format. apply existsb_exists.
  exists sub. split; [exact Hin|]. unfold ext_is. rewrite He.
  apply str_eqb_refl.
Qed.

(** A higher-priority format that is offered wins over the selected
    one. *)
Lemma selected_rank subtitles fmt :
  In fmt priority_formats ->
  has_format fmt subtitles = true ->
  rank (selected_ext (selected subtitles)) <= rank (Some fmt).
Proof.
  intros Hin Hf. unfold selected, best_format.
  destruct (List.find _ priority_formats) as [best|] eqn:Eb.
  - assert (Hs : selected_ext
                   match first_of_format best subtitles with
                   | Some sub => mk_selection (url sub) (Some best)
                   | None => mk_selection None None
                   end = Some best).
    { destruct (first_of_format best subtitles) eqn:E; [reflexivity|].
      apply find_some in Eb as [_ Hb].
      apply first_of_format_none in E. congruence. }
    rewrite Hs. clear Hs.
    unfold priority_formats in *.
    simpl in Hin.
    repeat match goal with
           | H : _ \/ _ |- _ => destruct H as [H|H]
           | H : False |- _ => destruct H
           end; subst fmt;
    simpl in Eb; rewrite ?Hf in Eb;
    repeat match type of Eb with
           | (if ?c then _ else _) = _ => destruct c
           end;
    injection Eb as <-; vm_compute; lia.
  - apply find_none_forallb in Eb.
    rewrite forallb_forall in Eb. specialize (Eb fmt Hin).
    rewrite Hf in Eb. discriminate.
Qed.

(** C3 (as the claim states it, refuted): with an XML-cue track ([srv2])
    and a WebVTT track on offer, the WebVTT track is selected. *)
Lemma vtt_selected_before_srv2 :
  select_subtitle
    [mk_track (Some (of_string "srv2")) (Some (of_string "https://sub.example/srv2"));
     mk_track (Some (of_string "vtt")) (Some (of_string "https://sub.example/vtt"))]
  = Ok (mk_selection (Some (of_string "https://sub.example/vtt"))
                     (Some (of_string "vtt"))).
Proof. reflexivity. Qed.

(** C3 (amended): for every list of tracks that each carry a URL, the
    selection is the first track of the first format on offer in the order
    json3, srv3, vtt, srv2, srv1 and, when none of these is offered, the
    first track whose tag is not m3u8; so a format is selected only when no
    format before it in that order is on offer. *)
Theorem select_subtitle_amended (subtitles : list track) :
  urls_present subtitles ->
  select_subtitle subtitles = Ok (selected subtitles) /\
  (forall fmt, In fmt priority_formats ->
     has_format fmt subtitles = true ->
     rank (selected_ext (selected subtitles)) <= rank (Some fmt)) /\
  (best_format subtitles = None ->
   forall sub, first_non_m3u8 subtitles = Some sub ->
     selected subtitles = mk_selection (url sub) (ext sub)).
Proof.
  intros Hu. split; [apply select_subtitle_spec, Hu|]. split.
  - intros fmt. apply selected_rank.
  - intros Hb sub Hs. unfold selected. rewrite Hb, Hs. reflexivity.
Qed.

Lemma select_subtitle_witness :
  select_subtitle
    [mk_track (Some (of_string "srv1")) (Some (of_string "https://sub.example/1"));
     mk_track (Some (of_string "ttml")) (Some (of_string "https://sub.example/2"));
     mk_track (Some (of_string "srv3")) (Some (of_string "https://sub.example/3"))]
  = Ok (mk_selection (Some (of_string "https://sub.example/3"))
                     (Some (of_string "srv3"))).
Proof.
  refine (proj1 (select_subtitle_amended _ _)).
  repeat constructor.
Defined.

(* ================================================================== *)
(** * Playlist refusal and the fall-through to the second method *)
(* ================================================================== *)

Lemma ext_is_eq e (a b : str) :
  ext_is e a = true -> str_eqb a b = false -> ext_is e b = false.
Proof.
  unfold ext_is. destruct e as [e|]; [|discriminate].
  intros Ha Hab. apply str_eqb_eq in Ha. subst e. exact Hab.
Qed.

Lemma pick_format_not_m3u8 fmt all subtitles st st' :
  str_eqb fmt "m3u8" = false ->
  (forall sub, In sub subtitles -> In sub all) ->
  not_m3u8 all st ->
  pick_format fmt subtitles st = Ok st' -> not_m3u8 all st'.
Proof.
  intros Hfmt. induction subtitles as [|sub rest IH]; simpl; intros Hin Hst H.
  - injection H as <-. exact Hst.
  - destruct (ext_is (ext sub) fmt) eqn:E.
    + destruct (url sub) as [u|] eqn:Eu; [|discriminate].
      injection H as <-. split; simpl.
      * exact Hfmt.
      * intros _. exists sub. repeat split; auto.
        apply (ext_is_eq _ _ _ E Hfmt).
    + apply IH; auto.
Qed.

Lemma pick_priority_not_m3u8 fmts subtitles st st' :
  forallb (fun fmt => negb (str_eqb fmt "m3u8")) fmts = true ->
  not_m3u8 subtitles st ->
  pick_priority fmts subtitles st = Ok st' -> not_m3u8 subtitles st'.
Proof.
  revert st. induction fmts as [|fmt rest IH]; simpl; intros st Hf Hst H.
  - injection H as <-. exact Hst.
  - apply andb_true_iff in Hf as [Hf1 Hf2]. apply negb_true_iff in Hf1.
    destruct (pick_format fmt subtitles st) as [st1|] eqn:E1; simpl in H;
      [|discriminate].
    pose proof (pick_format_not_m3u8 fmt subtitles subtitles st st1 Hf1
                  (fun _ h => h) Hst E1) as H1.
    destruct (url_truthy (subtitle_url st1)).
    + injection H as <-. exact H1.
    + apply (IH st1); auto.
Qed.

Lemma pick_non_m3u8_not_m3u8 all subtitles st st' :
  (forall sub, In sub subtitles -> In sub all) ->
  not_m3u8 all st ->
  pick_non_m3u8 subtitles st = Ok st' -> not_m3u8 all st'.
Proof.
  induction subtitles as [|sub rest IH]; simpl; intros Hin Hst H.
  - injection H as <-. exact Hst.
  - destruct (negb (ext_is (ext sub) "m3u8")) eqn:E.
    + destruct (url sub) as [u|] eqn:Eu; [|discriminate].
      injection H as <-. apply negb_true_iff in E. split; simpl.
      * exact E.
      * intros _. exists sub. repeat split; auto.
    + apply IH; auto.
Qed.

Lemma select_subtitle_not_m3u8 subtitles st :
  select_subtitle subtitles = Ok st -> not_m3u8 subtitles st.
Proof.
  unfold select_subtitle.
  destruct (pick_priority priority_formats subtitles (mk_selection None None))
    as [st1|] eqn:E1; simpl; [|discriminate].
  assert (H1 : not_m3u8 subtitles st1).
  { apply (pick_priority_not_m3u8 priority_formats subtitles
             (mk_selection None None) st1); auto.
    split; [reflexivity | discriminate]. }
  destruct (negb (url_truthy (subtitle_url st1))).
  - apply pick_non_m3u8_not_m3u8; auto.
  - intros H. injection H as <-. exact H1.
Qed.

Lemma pick_format_all_m3u8 fmt subtitles st :
  str_eqb fmt "m3u8" = false ->
  forallb (fun sub => ext_is (ext sub) "m3u8") subtitles = true ->
  pick_format fmt subtitles st = Ok st.
Proof.
  intros Hfmt. induction subtitles as [|sub rest IH]; simpl; [reflexivity|].
  intros H. apply andb_true_iff in H as [H1 H2].
  assert (E : ext_is (ext sub) fmt = false).
  { destruct (ext_is (ext sub) fmt) eqn:E; [|reflexivity].
    rewrite (ext_is_eq _ _ _ E Hfmt) in H1. discriminate. }
  rewrite E. apply IH, H2.
Qed.

Lemma pick_non_m3u8_all_m3u8 subtitles st :
  forallb (fun sub => ext_is (ext sub) "m3u8") subtitles = true ->
  pick_non_m3u8 subtitles st = Ok st.
Proof.
  induction subtitles as [|sub rest IH]; simpl; [reflexivity|].
  intros H. apply andb_true_iff in H as [H1 H2].
  rewrite H1. simpl. apply IH, H2.
Qed.

Lemma pick_priority_all_m3u8 fmts subtitles st :
  forallb (fun fmt => negb (str_eqb fmt "m3u8")) fmts = true ->
  forallb (fun sub => ext_is (ext sub) "m3u8") subtitles = true ->
  url_truthy (subtitle_url st) = false ->
  pick_priority fmts subtitles st = Ok st.
Proof.
  intros Hf H Hst. induction fmts as [|fmt rest IH]; simpl; [reflexivity|].
  simpl in Hf. apply andb_true_iff in Hf as [Hf1 Hf2].
  apply negb_true_iff in Hf1.
  rewrite (pick_format_all_m3u8 fmt subtitles st Hf1 H). simpl.
  rewrite Hst. apply IH, Hf2.
Qed.

(** When every track is tagged [m3u8], nothing is selected. *)
Lemma select_subtitle_all_m3u8 subtitles :
  forallb (fun sub => ext_is (ext sub) "m3u8") subtitles = true ->
  select_subtitle subtitles = Ok (mk_selection None None).
Proof.
  intros H. unfold select_subtitle.
  rewrite (pick_priority_all_m3u8 priority_formats subtitles
             (mk_selection None None) eq_refl H eq_refl).
  simpl. apply pick_non_m3u8_all_m3u8, H.
Qed.

(** The yt-dlp method never ends in an exception. *)
Lemma ytdlp_method_no_raise L W video_id :
  exists log r, ytdlp_method L W video_id = (log, Ok r).
Proof.
  unfold ytdlp_method. destruct (YTDLP_AVAILABLE W).
  - destruct (ytdlp_body L W video_id) as [log [r|e]]; simpl; eauto.
  - unfold ret. eauto.
Qed.

(** When the yt-dlp method yields no result, the request continues with
    the second method and ends as the second method ends. *)
Lemma get_youtube_transcript_falls_through L W url c v log :
  extract_youtube_video_id L url = Ok (Some (c :: v)) ->
  ytdlp_method L W (c :: v) = (log, Ok None) ->
  get_youtube_transcript L W url =
  (log ++ fst (api_method W (c :: v)), snd (api_method W (c :: v))).
Proof.
  intros He Hy. unfold get_youtube_transcript. rewrite He.
  unfold lift, bind at 1. rewrite Hy. simpl.
  destruct (api_method W (c :: v)) as [log' r]. reflexivity.
Qed.

Lemma bind_log {A B : Type} (m : M A) (k : A -> M B) :
  exists l, fst (bind m k) = fst m ++ l.
Proof.
  destruct m as [log [a|e]]; simpl.
  - destruct (k a) as [log' r]. exists log'. reflexivity.
  - exists []. rewrite app_nil_r. reflexivity.
Qed.

Lemma try_except_log {A : Type} (m : M A) (h : exn -> M A) :
  exists l, fst (try_except m h) = fst m ++ l.
Proof.
  destruct m as [log [a|e]]; simpl.
  - exists []. rewrite app_nil_r. reflexivity.
  - destruct (h e) as [log' r]. exists log'. reflexivity.
Qed.

(** With the library installed, the second method opens with the call of
    [get_transcript]. *)
Lemma api_method_invoked W video_id :
  YOUTUBE_API_AVAILABLE W = true ->
  exists log, fst (api_method W video_id) = EvGetTranscript video_id :: log.
Proof.
  intros Ha. unfold api_method, api_body. rewrite Ha. simpl negb. cbv iota.
  match goal with
  | |- exists _, fst (try_except (bind (try_except (bind ?c ?k1) ?h1) ?k2) ?h2) = _ =>
      destruct (try_except_log (bind (try_except (bind c k1) h1) k2) h2) as [l4 ->];
      destruct (bind_log (try_except (bind c k1) h1) k2) as [l3 ->];
      destruct (try_except_log (bind c k1) h1) as [l2 ->];
      destruct (bind_log c k1) as [l1 ->]
  end.
  simpl. eexists. reflexivity.
Qed.

(** The outcome of the yt-dlp method once a track has been downloaded. *)
Lemma ytdlp_method_downloaded L W video_id info t ts st c u response :
  YTDLP_AVAILABLE W = true ->
  ydl_extract_info W (canonical_url video_id) = Ok info ->
  (if tracks_truthy (subtitles_en info) then subtitles_en info
   else automatic_captions_en info) = Some (t :: ts) ->
  select_subtitle (t :: ts) = Ok st ->
  subtitle_url st = Some (c :: u) ->
  requests_get W (c :: u) = Ok response ->
  status_code response = 200%Z ->
  ytdlp_method L W video_id =
  ([EvExtractInfo (canonical_url video_id); EvHttpGet (c :: u)],
   match process_body L video_id (selected_ext st) (text response) with
   | Ok r => Ok (Some r)
   | Raise _ => Ok None
   end).
Proof.
  intros Ha Hi Hs Hsel Hu Hg Hc.
  unfold ytdlp_method, ytdlp_body. rewrite Ha, Hi.
  unfold call, bind at 1. rewrite Hs, Hsel.
  unfold lift, bind at 1. rewrite Hu, Hg.
  unfold bind at 1. rewrite Hc. simpl.
  destruct (process_body L video_id (selected_ext st) (text response));
    reflexivity.
Qed.

(** C4: a track tagged [m3u8] is never the selected one, whatever else is
    on offer; a downloaded body that is a playlist (by its header or by a
    directive inside it) is refused whatever tag the track carried; and in
    both cases the yt-dlp method ends without result and without
    exception, so that the request continues with the second method and
    ends as that method ends. *)
Theorem m3u8_refused_softly (L : Lib) (W : Net) (url : str) c v info t ts :
  extract_youtube_video_id L url = Ok (Some (c :: v)) ->
  YTDLP_AVAILABLE W = true ->
  ydl_extract_info W (canonical_url (c :: v)) = Ok info ->
  (if tracks_truthy (subtitles_en info) then subtitles_en info
   else automatic_captions_en info) = Some (t :: ts) ->
  (forall st, select_subtitle (t :: ts) = Ok st -> not_m3u8 (t :: ts) st) /\
  (forallb (fun sub => ext_is (ext sub) "m3u8") (t :: ts) = true ->
   get_youtube_transcript L W url =
   (EvExtractInfo (canonical_url (c :: v)) :: fst (api_method W (c :: v)),
    snd (api_method W (c :: v)))) /\
  (forall st d u response,
     select_subtitle (t :: ts) = Ok st ->
     subtitle_url st = Some (d :: u) ->
     requests_get W (d :: u) = Ok response ->
     status_code response = 200%Z ->
     is_m3u8_playlist (text response) = true ->
     get_youtube_transcript L W url =
     ([EvExtractInfo (canonical_url (c :: v)); EvHttpGet (d :: u)]
        ++ fst (api_method W (c :: v)),
      snd (api_method W (c :: v)))).
Proof.
  intros He Ha Hi Hs. split; [|split].
  - intros st. apply select_subtitle_not_m3u8.
  - intros Hall.
    apply (get_youtube_transcript_falls_through L W url c v
             [EvExtractInfo (canonical_url (c :: v))] He).
    unfold ytdlp_method, ytdlp_body. rewrite Ha, Hi.
    unfold call, bind at 1. rewrite Hs.
    rewrite (select_subtitle_all_m3u8 _ Hall). reflexivity.
  - intros st d u response Hsel Hu Hg Hc Hm.
    apply (get_youtube_transcript_falls_through L W url c v _ He).
    rewrite (ytdlp_method_downloaded L W (c :: v) info t ts st d u response
               Ha Hi Hs Hsel Hu Hg Hc).
    unfold process_body. rewrite Hm. reflexivity.
Qed.

Lemma m3u8_refused_softly_witness :
  get_youtube_transcript sample_lib playlist_net "https://youtu.be/abc123" =
  ([EvExtractInfo (of_string "https://www.youtube.com/watch?v=abc123");
    EvHttpGet (of_string "https://sub.example/vtt");
    EvGetTranscript (of_string "abc123")],
   Ok (mk_transcript_result true ("hello" ++ newline ++ "world")
         "abc123" "en" true)).
Proof.
  refine (eq_trans
            (proj2 (proj2
               (m3u8_refused_softly sample_lib playlist_net
                  "https://youtu.be/abc123" _ _ _ _ _
                  eq_refl eq_refl eq_refl eq_refl))
               _ _ _ _ eq_refl eq_refl eq_refl eq_refl eq_refl) _).
  reflexivity.
Defined.

(* ================================================================== *)
(** * The order of the two methods *)
(* ================================================================== *)

(** Whatever exception the body of the yt-dlp method raises is dropped. *)
Lemma ytdlp_method_absorbs L W video_id log e :
  YTDLP_AVAILABLE W = true ->
  ytdlp_body L W video_id = (log, Raise e) ->
  ytdlp_method L W video_id = (log, Ok None).
Proof.
  intros Ha Hb. unfold ytdlp_method. rewrite Ha, Hb. simpl.
  rewrite app_nil_r. reflexivity.
Qed.

(** The second method reports disabled captions as its own failure. *)
Lemma api_method_disabled W video_id e1 e2 :
  YOUTUBE_API_AVAILABLE W = true ->
  api_get_transcript W video_id = Raise e1 ->
  api_list_transcripts W video_id = Raise e2 ->
  exn_kind_of e2 = TranscriptsDisabled ->
  api_method W video_id =
  ([EvGetTranscript video_id; EvListTranscripts video_id],
   Raise (plain "Transcripts are disabled for this video")).
Proof.
  intros Ha H1 H2 Hk. unfold api_method, api_body. rewrite Ha, H1, H2.
  simpl. unfold api_handler. rewrite Hk. reflexivity.
Qed.

(** C2 (as the claim states it, refuted): yt-dlp fails with the reason
    "captions disabled", and the captions API is called all the same (twice);
    the reason returned is the one the second method gives. *)
Lemma captions_disabled_still_falls_through :
  get_youtube_transcript sample_lib disabled_net
    "https://www.youtube.com/watch?v=abc123" =
  ([EvExtractInfo (of_string "https://www.youtube.com/watch?v=abc123");
    EvGetTranscript (of_string "abc123");
    EvListTranscripts (of_string "abc123")],
   Raise (plain "Transcripts are disabled for this video")).
Proof. reflexivity. Qed.

(** C2 (amended): the yt-dlp method never ends the request with a failure:
    whatever exception it raises, "captions disabled" included, is dropped,
    and whenever it yields no result the request continues with the second
    method and ends as that method ends; with youtube-transcript-api
    installed the next remote call is [get_transcript]. Disabled captions
    are a terminal failure, with the reason "Transcripts are disabled for
    this video", when the second method meets them. *)
Theorem second_method_follows (L : Lib) (W : Net) (url : str) c v :
  extract_youtube_video_id L url = Ok (Some (c :: v)) ->
  (exists log r, ytdlp_method L W (c :: v) = (log, Ok r)) /\
  (forall log e,
     YTDLP_AVAILABLE W = true ->
     ytdlp_body L W (c :: v) = (log, Raise e) ->
     ytdlp_method L W (c :: v) = (log, Ok None)) /\
  (forall log,
     ytdlp_method L W (c :: v) = (log, Ok None) ->
     get_youtube_transcript L W url =
     (log ++ fst (api_method W (c :: v)), snd (api_method W (c :: v)))) /\
  (YOUTUBE_API_AVAILABLE W = true ->
   exists log, fst (api_method W (c :: v)) = EvGetTranscript (c :: v) :: log) /\
  (forall e1 e2,
     YOUTUBE_API_AVAILABLE W = true ->
     api_get_transcript W (c :: v) = Raise e1 ->
     api_list_transcripts W (c :: v) = Raise e2 ->
     exn_kind_of e2 = TranscriptsDisabled ->
     api_method W (c :: v) =
     ([EvGetTranscript (c :: v); EvListTranscripts (c :: v)],
      Raise (plain "Transcripts are disabled for this video"))).
Proof.
  intros He. repeat split.
  - apply ytdlp_method_no_raise.
  - intros log e. apply ytdlp_method_absorbs.
  - intros log. apply get_youtube_transcript_falls_through, He.
  - apply api_method_invoked.
  - intros e1 e2. apply api_method_disabled.
Qed.

Lemma second_method_follows_witness :
  ytdlp_method sample_lib disabled_net "abc123" =
  ([EvExtractInfo (of_string "https://www.youtube.com/watch?v=abc123")],
   Ok None) /\
  api_method disabled_net "abc123" =
  ([EvGetTranscript (of_string "abc123");
    EvListTranscripts (of_string "abc123")],
   Raise (plain "Transcripts are disabled for this video")).
Proof.
  destruct (second_method_follows sample_lib disabled_net
              "https://www.youtube.com/watch?v=abc123" _ _ eq_refl)
    as (_ & Habs & _ & _ & Hdis).
  split.
  - apply (Habs _ (mk_exn PlainException "captions disabled"));
      reflexivity.
  - apply (Hdis (mk_exn TranscriptsDisabled "captions disabled")
                (mk_exn TranscriptsDisabled "captions disabled"));
      reflexivity.
Defined.

(* ================================================================== *)
(** * URL normalisation: properties *)
(* ================================================================== *)

(** The spec's first scenario, for every library instance. *)
Lemma normalise_example (L : Lib) :
  extract_youtube_video_id L "https://www.youtube.com/watch?v=abc123&list=xyz"
  = Ok (Some (of_string "abc123")) /\
  clean_youtube_url L "https://www.youtube.com/watch?v=abc123&list=xyz"
  = Ok (of_string "https://www.youtube.com/watch?v=abc123").
Proof. split; reflexivity. Qed.

(** C6 (the code at the failing input): the scenario URL is normalised as
    the claim says, but a long-form URL whose tracking parameter holds the
    text [youtu.be] comes back from [clean_youtube_url] unchanged, with
    that parameter still in it, although [extract_youtube_video_id] finds
    its identifier. *)
Theorem clean_youtube_url_keeps_feature_parameter (L : Lib) :
  clean_youtube_url L "https://www.youtube.com/watch?v=abc123&list=xyz"
  = Ok (of_string "https://www.youtube.com/watch?v=abc123") /\
  extract_youtube_video_id L
    "https://www.youtube.com/watch?v=abc123&feature=youtu.be"
  = Ok (Some (of_string "abc123")) /\
  clean_youtube_url L
    "https://www.youtube.com/watch?v=abc123&feature=youtu.be"
  = Ok (of_string "https://www.youtube.com/watch?v=abc123&feature=youtu.be").
Proof. repeat split; reflexivity. Qed.

(** A percent-encoded ampersand in the identifier is decoded and not
    encoded again, so the rebuilt URL gains a parameter. *)
Lemma clean_youtube_url_decodes_ampersand (L : Lib) :
  clean_youtube_url L "https://www.youtube.com/watch?v=abc%26list%3Dxyz"
  = Ok (of_string "https://www.youtube.com/watch?v=abc&list=xyz").
Proof. reflexivity. Qed.

Lemma clean_youtube_url_no_id L url :
  search_youtu_be url = None ->
  (forall parsed, urlparse L url = Some parsed ->
                  qs_first_v L (query parsed) = None) ->
  clean_youtube_url L url = Ok url \/
  exists e, clean_youtube_url L url = Raise e /\ exn_kind_of e = ValueError.
Proof.
  intros Hs Hq. unfold clean_youtube_url. rewrite Hs.
  destruct (contains "youtu.be" url); [left; reflexivity|].
  destruct (contains "youtube.com" url); [|left; reflexivity].
  destruct (urlparse L url) as [parsed|] eqn:E.
  - rewrite (Hq parsed eq_refl). left. reflexivity.
  - right. eexists. split; reflexivity.
Qed.

Lemma get_youtube_transcript_no_id L W url :
  search_youtu_be url = None ->
  (forall parsed, urlparse L url = Some parsed ->
                  qs_first_v L (query parsed) = None) ->
  exists e, get_youtube_transcript L W url = ([], Raise e) /\
            exn_kind_of e = ValueError.
Proof.
  intros Hs Hq. unfold get_youtube_transcript, extract_youtube_video_id.
  rewrite Hs.
  assert (E0 : (if contains "youtu.be" url then @None str else None) = None)
    by (destruct (contains "youtu.be" url); reflexivity).
  rewrite E0.
  destruct (contains "youtube.com" url).
  - destruct (urlparse L url) as [parsed|] eqn:E.
    + rewrite (Hq parsed eq_refl). eexists. split; reflexivity.
    + eexists. split; reflexivity.
  - eexists. split; reflexivity.
Qed.

(** C7: when the URL has no [youtu.be/] segment followed by an identifier
    and its query has no [v] parameter with a value, normalisation fails
    with a [ValueError], no identifier or canonical URL is returned and no
    fetcher is called. This holds for every URL, with or without a known
    host in it. *)
Theorem normalisation_fails_without_id (L : Lib) (W : Net) (url : str) :
  contains "youtube.com" url = true \/ contains "youtu.be" url = true ->
  search_youtu_be url = None ->
  (forall parsed, urlparse L url = Some parsed ->
                  qs_first_v L (query parsed) = None) ->
  (exists e, get_youtube_transcript L W url = ([], Raise e) /\
             exn_kind_of e = ValueError) /\
  (exists e, convert_youtube L W url = ([], Raise e) /\
             exn_kind_of e = ValueError).
Proof.
  intros _ Hs Hq. split; [apply get_youtube_transcript_no_id; assumption|].
  unfold convert_youtube.
  destruct (clean_youtube_url_no_id L url Hs Hq) as [-> | (e & -> & Hk)].
  - destruct (get_youtube_transcript_no_id L W url Hs Hq) as (e & He & Hk).
    exists e. unfold lift, bind at 1. rewrite He. split; [reflexivity|exact Hk].
  - exists e. split; [reflexivity | exact Hk].
Qed.

Lemma normalisation_fails_without_id_witness :
  exists e,
    convert_youtube sample_lib playlist_net
      "https://www.youtube.com/playlist?list=xyz" = ([], Raise e) /\
    exn_kind_of e = ValueError.
Proof.
  refine (proj2 (normalisation_fails_without_id sample_lib playlist_net
                   "https://www.youtube.com/playlist?list=xyz" _ _ _)).
  - left. reflexivity.
  - reflexivity.
  - intros parsed H. vm_compute in H. injection H as <-. reflexivity.
Defined.

(* ================================================================== *)
(** * The storage directory: properties *)
(* ================================================================== *)

Lemma fpath_eqb_eq (a b : fpath) : fpath_eqb a b = true <-> a = b.
Proof.
  revert b; induction a as [|x a IH]; intros [|y b]; simpl; split;
    try congruence; try reflexivity.
  - intros H. apply andb_true_iff in H as [H1 H2].
    apply str_eqb_eq in H1. apply IH in H2. congruence.
  - intros H. injection H as -> ->. rewrite str_eqb_refl. simpl.
    apply IH. reflexivity.
Qed.

Lemma fpath_eqb_neq (a b : fpath) : a <> b -> fpath_eqb a b = false.
Proof.
  intros H. destruct (fpath_eqb a b) eqn:E; [|reflexivity].
  apply fpath_eqb_eq in E. contradiction.
Qed.

Lemma fs_get_set_same p n (d : fs) : fs_get p (fs_set p n d) = Some n.
Proof.
  induction d as [|[q m] d IH]; simpl.
  - rewrite (proj2 (fpath_eqb_eq p p) eq_refl). reflexivity.
  - destruct (fpath_eqb p q) eqn:E; simpl; rewrite E; [reflexivity | exact IH].
Qed.

Lemma fs_get_set_other p q n (d : fs) :
  p <> q -> fs_get p (fs_set q n d) = fs_get p d.
Proof.
  intros Hpq. induction d as [|[r m] d IH]; simpl.
  - rewrite (fpath_eqb_neq p q Hpq). reflexivity.
  - destruct (fpath_eqb q r) eqn:E; simpl.
    + apply fpath_eqb_eq in E. subst r.
      rewrite (fpath_eqb_neq p q Hpq). reflexivity.
    + destruct (fpath_eqb p r); [reflexivity | exact IH].
Qed.

Lemma fs_get_app p (d e : fs) n :
  fs_get p d = Some n -> fs_get p (d ++ e) = Some n.
Proof.
  induction d as [|[q m] d IH]; simpl; [discriminate|].
  destruct (fpath_eqb p q); auto.
Qed.

Lemma keeps_ret {A : Type} p (a : A) : keeps p (fs_ret a).
Proof. intros d d' r n H. injection H as <- _. auto. Qed.

Lemma keeps_lift {A : Type} p (x : result A) : keeps p (fs_lift x).
Proof. intros d d' r n H. injection H as <- _. auto. Qed.

Lemma keeps_bind {A B : Type} p (m : FSM A) (k : A -> FSM B) :
  keeps p m -> (forall a, keeps p (k a)) -> keeps p (fs_bind m k).
Proof.
  intros Hm Hk d d' r n H Hg. unfold fs_bind in H.
  destruct (m d) as [d1 [a|e]] eqn:E.
  - apply (Hk a d1 d' r n H). apply (Hm d d1 _ n E Hg).
  - injection H as <- _. apply (Hm d d1 _ n E Hg).
Qed.

Lemma keeps_mkdir p q : keeps p (fs_update (mkdir q)).
Proof.
  intros d d' r n H Hg. unfold fs_update, mkdir in H.
  destruct (fs_get q d) as [[| |]|]; injection H as <- _; auto.
  apply fs_get_app, Hg.
Qed.

Lemma keeps_write p q content :
  p <> q -> keeps p (fs_update (write_file q content)).
Proof.
  intros Hpq d d' r n H Hg. unfold fs_update, write_file in H.
  destruct (fs_get (removelast q) d) as [[| |]|];
    destruct (removelast q);
    destruct (fs_get q d) as [[| |]|];
    injection H as <- _; auto;
    rewrite (fs_get_set_other p q _ d Hpq); exact Hg.
Qed.

Lemma keeps_for_each {A : Type} p (body : A -> FSM unit) (l : list A) :
  (forall x, keeps p (body x)) -> keeps p (fs_for_each body l).
Proof.
  intros Hb. induction l as [|x l IH]; simpl.
  - apply keeps_ret.
  - apply keeps_bind; [apply Hb | intros _; exact IH].
Qed.

Lemma session_file_not_upload (folder : fpath) (name : str) :
  folder ++ ["session.json" : str] <> folder ++ ["uploads" : str] ++ [name].
Proof.
  intros H. apply (f_equal (@List.length str)) in H.
  rewrite !length_app in H. simpl in H. lia.
Qed.

(** A proof that an action keeps a file: through the binds and the
    branches, down to the primitive actions. *)
Ltac keeps_auto :=
  repeat first
    [ apply keeps_ret
    | apply keeps_lift
    | apply keeps_mkdir
    | apply keeps_bind; [| intros ?]
    | match goal with
      | |- keeps _ (if ?b then _ else _) => destruct b
      | |- keeps _ (match ?j with _ => _ end) => destruct j
      end ].

Section KeepsSessionFile.

Variable L : Lib.
Variable folder : fpath.

Let session_file : fpath := folder ++ ["session.json" : str].

Lemma keeps_save_file file_data :
  keeps session_file (save_file L folder file_data).
Proof.
  unfold save_file. keeps_auto.
  apply keeps_write, session_file_not_upload.
Qed.

Lemma keeps_save_message_files msg :
  keeps session_file (save_message_files L folder msg).
Proof.
  unfold save_message_files. keeps_auto.
  apply keeps_for_each. intros x. apply keeps_save_file.
Qed.

End KeepsSessionFile.

Lemma write_file_get p content (d d' : fs) :
  write_file p content d = Ok d' -> fs_get p d' = Some (File content).
Proof.
  unfold write_file.
  destruct (fs_get (removelast p) d) as [[| |]|];
    destruct (removelast p);
    destruct (fs_get p d) as [[| |]|];
    intros H; try discriminate; injection H as <-; apply fs_get_set_same.
Qed.

Lemma load_session_reads L root (d : fs) chat_id content sd :
  storage_configured root = true ->
  fs_get (chat_folder_of chat_id ++ ["session.json" : str]) d
  = Some (File content) ->
  json_loads L content = Some sd ->
  load_session L root d chat_id = Success sd.
Proof.
  intros Hr Hg Hl. unfold load_session, exists_, read_file.
  rewrite Hr, Hg. simpl. rewrite Hl. reflexivity.
Qed.

(** What a successful save leaves on the disk. *)
Lemma save_session_writes L root now1 now2 data (d d' : fs) sv :
  save_session L root now1 now2 data d = (d', Success sv) ->
  storage_configured root = true /\
  exists chat_title messages created_at,
    py_get "chat_id" JNull data = Ok (saved_chat_id sv) /\
    py_get "chat_title" (JStr "Untitled Chat") data = Ok chat_title /\
    py_get "messages" (JList []) data = Ok messages /\
    py_get "created_at" (JStr now1) data = Ok created_at /\
    truthy (saved_chat_id sv) = true /\
    fs_get (chat_folder_of (py_str L (saved_chat_id sv))
              ++ ["session.json" : str]) d'
    = Some (File (json_dumps L
                    (session_data_of created_at (JStr now2)
                       (saved_chat_id sv) chat_title messages))).
Proof.
  unfold save_session.
  destruct (storage_configured root); simpl; [|discriminate].
  intros H. split; [reflexivity|].
  destruct (save_session_body L now1 now2 data d) as [d1 [r|e]] eqn:E;
    [|discriminate].
  injection H as -> ->.
  unfold save_session_body, fs_bind, fs_lift in E.
  destruct (py_get "chat_id" JNull data) as [chat_id|] eqn:E1;
    [|discriminate].
  destruct (py_get "chat_title" (JStr "Untitled Chat") data)
    as [chat_title|] eqn:E2; [|discriminate].
  destruct (py_get "messages" (JList []) data) as [messages|] eqn:E3;
    [|discriminate].
  destruct (truthy chat_id) eqn:Et; simpl in E; [|discriminate].
  set (folder := chat_folder_of (py_str L chat_id)) in *.
  destruct (mkdirs [] folder d) as [d2 [[]|]] eqn:E4; [|discriminate].
  destruct (py_get "created_at" (JStr now1) data) as [created_at|] eqn:E5;
    [|discriminate].
  unfold fs_update at 1 in E.
  destruct (write_file _ _ d2) as [d3|] eqn:E6; [|discriminate].
  destruct (py_iter messages) as [msgs|] eqn:E7; [|discriminate].
  destruct (fs_for_each (save_message_files L folder) msgs d3)
    as [d4 [[]|]] eqn:E8; [|discriminate].
  injection E as -> <-. simpl.
  exists chat_title, messages, created_at.
  repeat split; auto.
  apply (keeps_for_each (folder ++ ["session.json" : str])
           (save_message_files L folder) msgs
           (fun x => keeps_save_message_files L folder x) d3 d' _ _ E8).
  apply (write_file_get _ _ _ _ E6).
Qed.

(** C10: after a successful save, loading the session by the same chat
    identifier succeeds and returns the record that was written, whose
    [chat_id], [title] and [messages] are those of the request, provided
    the JSON text written for that record parses back to it. *)
Theorem save_then_load (L : Lib) (root : option str) (now1 now2 : str)
  (data : json) (d d' : fs) (sv : saved) :
  save_session L root now1 now2 data d = (d', Success sv) ->
  exists chat_title messages created_at,
    py_get "chat_id" JNull data = Ok (saved_chat_id sv) /\
    py_get "chat_title" (JStr "Untitled Chat") data = Ok chat_title /\
    py_get "messages" (JList []) data = Ok messages /\
    py_get "created_at" (JStr now1) data = Ok created_at /\
    let session_data :=
      session_data_of created_at (JStr now2) (saved_chat_id sv)
        chat_title messages in
    py_get "chat_id" JNull session_data = Ok (saved_chat_id sv) /\
    py_get "title" JNull session_data = Ok chat_title /\
    py_get "messages" JNull session_data = Ok messages /\
    (json_loads L (json_dumps L session_data) = Some session_data ->
     load_session L root d' (py_str L (saved_chat_id sv))
     = Success session_data).
Proof.
  intros H.
  destruct (save_session_writes L root now1 now2 data d d' sv H)
    as (Hr & chat_title & messages & created_at & H1 & H2 & H3 & H4 & _ & Hg).
  exists chat_title, messages, created_at.
  repeat split; auto.
  intros Hrt. apply (load_session_reads L root d' _ _ _ Hr Hg Hrt).
Qed.

(** The spec's third scenario: the attachment is stored under the
    sanitised name in the session's [uploads] directory. *)
Example sample_disk_upload :
  fs_get [of_string "chat_42"; of_string "uploads";
          of_string "my file_name_.txt"] sample_disk
  = Some (File "notes").
Proof. vm_compute. reflexivity. Qed.

Lemma save_then_load_witness :
  load_session sample_lib (Some (of_string "/data")) sample_disk "42" =
  Success
    (session_data_of (JStr "2026-01-05T10:00:00.000001")
       (JStr "2026-01-05T10:00:00.000002") (JStr "42") (JStr "Trip plan")
       (JList [ JDict [ ("role" : str, JStr "user");
                        ("content" : str, JStr "see the attachment");
                        ("files" : str,
                          JList [ JDict [ ("name" : str,
                                            JStr "my file:name?.txt");
                                          ("content" : str,
                                            JStr "notes") ] ]) ] ])).
Proof.
  destruct (save_then_load sample_lib (Some (of_string "/data"))
              "2026-01-05T10:00:00.000001" "2026-01-05T10:00:00.000002"
              sample_request [] sample_disk
              (mk_saved (JStr "42") [of_string "chat_42"]) eq_refl)
    as (chat_title & messages & created_at & _ & H2 & H3 & H4 & _ & _ & _ & Hl).
  injection H2 as <-. injection H3 as <-. injection H4 as <-.
  apply Hl. vm_compute. reflexivity.
Defined.

(* ================================================================== *)
(** * Listing the sessions: properties *)
(* ================================================================== *)

Lemma str_ltb_asym (a b : str) : str_ltb a b = true -> str_ltb b a = false.
Proof.
  revert b; induction a as [|x a IH]; intros [|y b]; simpl; try congruence.
  intros H.
  destruct (N.ltb_spec x y), (N.ltb_spec y x), (N.eqb_spec x y),
    (N.eqb_spec y x); simpl in *; try lia; try congruence; auto.
Qed.

(** [a <= b] and [b <= c] give [a <= c], written with [<]. *)
Lemma str_ltb_false_trans (a b c : str) :
  str_ltb b a = false -> str_ltb c b = false -> str_ltb c a = false.
Proof.
  revert a b; induction c as [|z c IH]; intros [|x a] [|y b]; simpl;
    try congruence.
  intros H1 H2.
  destruct (N.ltb_spec y x), (N.ltb_spec z y), (N.ltb_spec z x),
    (N.eqb_spec y x), (N.eqb_spec z y), (N.eqb_spec z x);
    simpl in *; try lia; try congruence.
  apply (IH a b); assumption.
Qed.

Lemma insert_by_key_pure x l :
  has_str_key x -> Forall has_str_key l ->
  insert_by_key x l = Ok (insert_pure x l).
Proof.
  intros [tx Hx] Hl. induction Hl as [|y t [ty Hy] Ht IH]; simpl;
    [reflexivity|].
  unfold ts_of. rewrite Hx, Hy. simpl.
  destruct (str_ltb tx ty); [reflexivity|].
  rewrite IH. reflexivity.
Qed.

Lemma insert_pure_perm x l : Permutation (x :: l) (insert_pure x l).
Proof.
  induction l as [|y t IH]; simpl; [reflexivity|].
  destruct (str_ltb (ts_of x) (ts_of y)); [reflexivity|].
  rewrite perm_swap. apply perm_skip, IH.
Qed.

Lemma insert_pure_sorted x l :
  StronglySorted not_newer l -> StronglySorted not_newer (insert_pure x l).
Proof.
  induction 1 as [|y t Ht IH Hy]; simpl.
  - constructor; constructor.
  - destruct (str_ltb (ts_of x) (ts_of y)) eqn:E.
    + constructor; [constructor; assumption|].
      constructor.
      * apply str_ltb_asym, E.
      * rewrite Forall_forall in *. intros z Hz.
        unfold not_newer, not_older in *.
        apply (str_ltb_false_trans _ (ts_of y)); auto.
        apply str_ltb_asym, E.
    + constructor; [exact IH|].
      apply (Permutation_Forall (insert_pure_perm x t)).
      constructor; [exact E | exact Hy].
Qed.

Lemma sort_ascending_pure l acc :
  Forall has_str_key l -> Forall has_str_key acc ->
  for_each (fun acc x => insert_by_key x acc) l acc = Ok (sort_pure l acc).
Proof.
  intros Hl. revert acc. induction Hl as [|x l Hx Hl IH]; intros acc Ha;
    simpl; [reflexivity|].
  rewrite (insert_by_key_pure x acc Hx Ha). simpl.
  apply IH. apply (Permutation_Forall (insert_pure_perm x acc)).
  constructor; assumption.
Qed.

Lemma sort_pure_perm l acc : Permutation (acc ++ l) (sort_pure l acc).
Proof.
  revert acc. induction l as [|x l IH]; intros acc; simpl.
  - rewrite app_nil_r. reflexivity.
  - rewrite <- IH. rewrite <- insert_pure_perm.
    rewrite <- Permutation_middle. reflexivity.
Qed.

Lemma sort_pure_sorted l acc :
  StronglySorted not_newer acc -> StronglySorted not_newer (sort_pure l acc).
Proof.
  revert acc. induction l as [|x l IH]; intros acc Ha; simpl; [exact Ha|].
  apply IH, insert_pure_sorted, Ha.
Qed.

Lemma StronglySorted_snoc {A : Type} (R : A -> A -> Prop) l a :
  StronglySorted R l -> Forall (fun x => R x a) l ->
  StronglySorted R (l ++ [a]).
Proof.
  induction 1 as [|y t Ht IH Hy]; intros Hl; simpl.
  - constructor; constructor.
  - inversion Hl as [|? ? Hya Hta]; subst.
    constructor; [apply IH, Hta|].
    apply Forall_app. split; [exact Hy | constructor; [exact Hya|constructor]].
Qed.

Lemma StronglySorted_rev {A : Type} (R : A -> A -> Prop) l :
  StronglySorted R l -> StronglySorted (fun a b => R b a) (rev l).
Proof.
  induction 1 as [|y t Ht IH Hy]; simpl; [constructor|].
  apply StronglySorted_snoc; [exact IH|].
  apply Forall_rev, Hy.
Qed.

(** With string timestamps throughout, the sort succeeds and gives a
    rearrangement in descending order. *)
Lemma sort_sessions_sorted l :
  Forall has_str_key l ->
  exists s, sort_sessions l = Ok s /\ Permutation l s /\
            StronglySorted not_older s.
Proof.
  intros Hl. unfold sort_sessions, sort_ascending.
  rewrite (sort_ascending_pure (rev l) []); [|apply Forall_rev, Hl|constructor].
  simpl. eexists. split; [reflexivity|]. split.
  - rewrite <- Permutation_rev.
    rewrite <- (sort_pure_perm (rev l) []). simpl. apply Permutation_rev.
  - apply (StronglySorted_rev not_newer), sort_pure_sorted. constructor.
Qed.

Lemma load_summary_acc L d acc folder :
  load_summary L d acc folder =
  match load_summary L d [] folder with
  | Ok l => Ok (acc ++ l)
  | Raise e => Raise e
  end.
Proof.
  unfold load_summary.
  destruct (is_dir folder d); [|rewrite app_nil_r; reflexivity].
  destruct (exists_ _ d); [|rewrite app_nil_r; reflexivity].
  destruct (read_file _ d) as [content|e]; simpl; [|reflexivity].
  destruct (json_loads L content) as [sd|]; [|reflexivity].
  repeat match goal with
         | |- context [bind_result ?r _] =>
             destruct r; simpl; [|reflexivity]
         end.
  reflexivity.
Qed.

Lemma load_all_ok L d folders acc :
  (forall folder, In folder folders ->
     exists l, load_summary L d [] folder = Ok l) ->
  for_each (load_summary L d) folders acc
  = Ok (acc ++ flat_map (record_summary L d) folders).
Proof.
  revert acc. induction folders as [|f fs IH]; intros acc H; simpl.
  - rewrite app_nil_r. reflexivity.
  - rewrite load_summary_acc. unfold record_summary at 1.
    destruct (H f (or_introl eq_refl)) as [l ->]. simpl.
    rewrite IH by (intros g Hg; apply H; right; exact Hg).
    rewrite app_assoc. reflexivity.
Qed.

Lemma load_all_raises L d folders acc folder e :
  In folder folders -> load_summary L d [] folder = Raise e ->
  exists e', for_each (load_summary L d) folders acc = Raise e'.
Proof.
  revert acc. induction folders as [|f fs IH]; intros acc Hin He;
    [destruct Hin|].
  simpl. rewrite load_summary_acc.
  destruct (load_summary L d [] f) as [l|e1] eqn:E; simpl.
  - destruct Hin as [-> | Hin]; [congruence|]. apply IH; assumption.
  - eexists. reflexivity.
Qed.

Lemma record_summary_readable L d folder :
  readable_record L d folder ->
  (is_dir folder d && exists_ (folder ++ ["session.json" : str]) d = false ->
   load_summary L d [] folder = Ok []) /\
  (is_dir folder d && exists_ (folder ++ ["session.json" : str]) d = true ->
   exists content entries n,
     read_file (folder ++ ["session.json" : str]) d = Ok content /\
     json_loads L content = Some (JDict entries) /\
     load_summary L d [] folder =
     Ok [mk_summary (field "chat_id" entries) (field "title" entries)
           (field "created_at" entries) (field "updated_at" entries) n] /\
     has_str_key
       (mk_summary (field "chat_id" entries) (field "title" entries)
          (field "created_at" entries) (field "updated_at" entries) n) /\
     py_len (match dict_get "messages" entries with
             | Some v => v
             | None => JList []
             end) = Ok n).
Proof.
  intros Hr. unfold load_summary. split.
  - intros H. destruct (is_dir folder d); [|reflexivity].
    simpl in H. rewrite H. reflexivity.
  - intros H. apply andb_true_iff in H as [H1 H2].
    destruct (Hr H1 H2) as (content & entries & ts & n & Hc & Hj & Hu & Hn).
    exists content, entries, n. rewrite H1, H2, Hc. simpl. rewrite Hj.
    simpl. unfold field.
    destruct (dict_get "messages" entries) as [m|]; rewrite Hn; simpl;
      (repeat split; exists ts; simpl; rewrite Hu; reflexivity).
Qed.

(** C9 (as the claim states it, refuted): one chat folder whose record
    file cannot be opened, or holds a torn JSON text, makes the whole call
    fail with status 500, although another folder holds a good record that
    is listed when it is alone. *)
Lemma load_sessions_fails_on_unreadable :
  (exists error,
     load_sessions sample_lib (Some (of_string "/data"))
       (sample_disk ++
        [([of_string "chat_7"], Dir);
         ([of_string "chat_7"; of_string "session.json"], Unreadable)])
     = Failure 500 error) /\
  (exists error,
     load_sessions sample_lib (Some (of_string "/data"))
       (sample_disk ++
        [([of_string "chat_7"], Dir);
         ([of_string "chat_7"; of_string "session.json"], File "{")])
     = Failure 500 error) /\
  (exists session,
     load_sessions sample_lib (Some (of_string "/data")) sample_disk
     = Success [session]).
Proof. split; [|split]; eexists; vm_compute; reflexivity. Qed.

(** C9 (amended): with the storage root configured and every record file
    that is present readable, [load_sessions] succeeds with exactly one
    summary for each chat folder that has a record file and none for a
    folder without one, in descending order of [updated_at]; the summary
    of a folder carries the [chat_id], [title], [created_at] and
    [updated_at] of its record and, as message count, the length of the
    [messages] of the record (0 when the record has none); a record file
    that is present but cannot be read or parsed makes the whole call fail
    with status 500. *)
Theorem load_sessions_amended (L : Lib) (root : option str) (d : fs) :
  storage_configured root = true ->
  ((forall folder, In folder (glob_chat d) -> readable_record L d folder) ->
   exists sessions,
     load_sessions L root d = Success sessions /\
     Permutation (flat_map (record_summary L d) (glob_chat d)) sessions /\
     StronglySorted not_older sessions /\
     (forall folder, In folder (glob_chat d) ->
        (is_dir folder d && exists_ (folder ++ ["session.json" : str]) d
         = false -> record_summary L d folder = []) /\
        (is_dir folder d && exists_ (folder ++ ["session.json" : str]) d
         = true ->
         exists content entries n,
           read_file (folder ++ ["session.json" : str]) d = Ok content /\
           json_loads L content = Some (JDict entries) /\
           py_len (match dict_get "messages" entries with
                   | Some v => v
                   | None => JList []
                   end) = Ok n /\
           record_summary L d folder =
           [mk_summary (field "chat_id" entries) (field "title" entries)
              (field "created_at" entries) (field "updated_at" entries) n])))
  /\
  (forall folder e,
     In folder (glob_chat d) -> load_summary L d [] folder = Raise e ->
     exists msg, load_sessions L root d = Failure 500 msg).
Proof.
  intros Hroot. split.
  - intros Hr.
    assert (Hok : forall folder, In folder (glob_chat d) ->
                    exists l, load_summary L d [] folder = Ok l).
    { intros folder Hin.
      destruct (record_summary_readable L d folder (Hr folder Hin)) as [H0 H1].
      destruct (is_dir folder d && exists_ _ d) eqn:E.
      - destruct (H1 eq_refl) as (? & ? & ? & _ & _ & -> & _). eauto.
      - rewrite (H0 eq_refl). eauto. }
    assert (Hkeys : Forall has_str_key
                      (flat_map (record_summary L d) (glob_chat d))).
    { apply Forall_flat_map, Forall_forall. intros folder Hin.
      destruct (record_summary_readable L d folder (Hr folder Hin)) as [H0 H1].
      unfold record_summary.
      destruct (is_dir folder d && exists_ _ d) eqn:E.
      - destruct (H1 eq_refl) as (? & ? & ? & _ & _ & -> & Hk & _).
        constructor; [exact Hk | constructor].
      - rewrite (H0 eq_refl). constructor. }
    destruct (sort_sessions_sorted _ Hkeys) as (s & Hs & Hp & Hsorted).
    exists s. unfold load_sessions. rewrite Hroot. simpl.
    rewrite (load_all_ok L d (glob_chat d) [] Hok). simpl. rewrite Hs.
    repeat split; auto.
    + intros E. unfold record_summary.
      rewrite (proj1 (record_summary_readable L d folder (Hr folder H)) E).
      reflexivity.
    + intros E.
      destruct (proj2 (record_summary_readable L d folder (Hr folder H)) E)
        as (content & entries & n & Hc & Hj & Hl & _ & Hn).
      exists content, entries, n. unfold record_summary. rewrite Hl. auto.
  - intros folder e Hin He. unfold load_sessions. rewrite Hroot. simpl.
    destruct (load_all_raises L d (glob_chat d) [] folder e Hin He) as [e' ->].
    simpl. eexists. reflexivity.
Qed.

Lemma load_sessions_amended_witness :
  exists sessions,
    load_sessions sample_lib (Some (of_string "/data"))
      (sample_disk ++ [([of_string "chat_empty"], Dir)])
    = Success sessions /\
    List.length sessions = 1 /\
    map s_message_count sessions = [1].
Proof.
  destruct (proj1 (load_sessions_amended sample_lib (Some (of_string "/data"))
                     (sample_disk ++ [([of_string "chat_empty"], Dir)])
                     eq_refl))
    as (sessions & Hs & Hp & _).
  - intros folder Hin Hd He.
    vm_compute in Hin.
    destruct Hin as [<- | [<- | []]].
    + do 4 eexists. repeat split; vm_compute; reflexivity.
    + vm_compute in He. discriminate.
  - exists sessions. split; [exact Hs|]. split.
    + rewrite <- (Permutation_length Hp). reflexivity.
    + vm_compute in Hp.
      apply Permutation_length_1_inv in Hp. rewrite Hp. reflexivity.
Defined.

(* ================================================================== *)
(** * URL normalisation: canonical URLs and short links *)
(* ================================================================== *)

Lemma filter_all (f : char -> bool) (s : str) :
  Forall (fun c => f c = true) s -> filter f s = s.
Proof.
  induction 1 as [|c s Hc Hs IH]; simpl; [reflexivity|].
  rewrite Hc, IH. reflexivity.
Qed.

Lemma split_once_absent (c : char) (s : str) :
  Forall (fun x => N.eqb x c = false) s -> split_once c s = (s, None).
Proof.
  induction 1 as [|x s Hx Hs IH]; simpl; [reflexivity|].
  rewrite Hx, IH. reflexivity.
Qed.

Lemma split_absent (c : char) (s : str) :
  Forall (fun x => N.eqb x c = false) s -> split c s = [s].
Proof.
  induction 1 as [|x s Hx Hs IH]; simpl; [reflexivity|].
  rewrite Hx, IH. reflexivity.
Qed.

Lemma replace_char_absent (a b : char) (s : str) :
  Forall (fun x => N.eqb x a = false) s -> replace_char a b s = s.
Proof.
  unfold replace_char.
  induction 1 as [|x s Hx Hs IH]; simpl; [reflexivity|].
  rewrite Hx, IH. reflexivity.
Qed.

Lemma mem_char_absent (c : char) (s : str) :
  Forall (fun x => N.eqb x c = false) s -> mem_char c s = false.
Proof.
  unfold mem_char.
  induction 1 as [|x s Hx Hs IH]; simpl; [reflexivity|].
  rewrite N.eqb_sym, Hx, IH. reflexivity.
Qed.

(** An identifier character is none of the characters that structure a
    URL. *)
Lemma id_char_not (c d : char) :
  is_id_char c = true -> is_id_char d = false -> N.eqb c d = false.
Proof.
  intros Hc Hd. destruct (N.eqb_spec c d); [congruence | reflexivity].
Qed.

Lemma plain_id_without (g : str) (d : char) :
  Forall (fun c => is_id_char c = true) g -> is_id_char d = false ->
  Forall (fun x => N.eqb x d = false) g.
Proof.
  intros Hg Hd. eapply Forall_impl; [|exact Hg].
  intros c Hc. apply (id_char_not c d Hc Hd).
Qed.

Lemma contains_absent (p : str) (d : char) (s : str) :
  In d p -> Forall (fun x => N.eqb x d = false) s -> contains p s = false.
Proof.
  intros Hd. induction 1 as [|x s Hx Hs IH].
  - destruct p; [destruct Hd | reflexivity].
  - cbn [contains]. rewrite IH, orb_false_r.
    destruct (startswith p (x :: s)) eqn:E; [|reflexivity].
    apply startswith_inv in E as [r E].
    assert (Hin : In d (x :: s)) by (rewrite E; apply in_or_app; left; exact Hd).
    assert (Hall : Forall (fun y => N.eqb y d = false) (x :: s))
      by (constructor; assumption).
    rewrite Forall_forall in Hall. specialize (Hall d Hin).
    rewrite N.eqb_refl in Hall. discriminate.
Qed.

(** What [urlparse] makes of a canonical watch URL. *)
Lemma urlparse_canonical (L : Lib) (g : str) :
  Forall (fun c => is_id_char c = true) g ->
  urlparse L (canonical_url g) =
  Some (mk_ParseResult "https" "www.youtube.com" "/watch" []
          ("v=" ++ g) []).
Proof.
  intros Hg.
  assert (Hf : filter (fun c => negb (is_unsafe_url_char c)) g = g).
  { apply filter_all. eapply Forall_impl; [|exact Hg].
    intros c Hc.
    destruct (is_unsafe_url_char c) eqn:E; [|reflexivity].
    unfold is_unsafe_url_char in E.
    repeat (apply orb_true_iff in E as [E|E]);
      apply N.eqb_eq in E; subst c; discriminate. }
  assert (Hh : split_once 35%N g = (g, None))
    by (apply split_once_absent, (plain_id_without g _ Hg); reflexivity).
  assert (Hfu : filter (fun c => negb (is_unsafe_url_char c))
                  (canonical_url g) = canonical_url g).
  { unfold canonical_url. rewrite filter_app. f_equal. exact Hf. }
  assert (Hs : split_once 35%N ("/watch?v=" ++ g) = ("/watch?v=" ++ g, None)).
  { cbn. rewrite Hh. reflexivity. }
  unfold urlparse, urlsplit.
  match goal with
  | |- context [lstrip ?f ?u] =>
      replace (lstrip f u) with (canonical_url g) by reflexivity
  end.
  rewrite Hfu.
  match goal with
  | |- context [split_scheme ?u] =>
      replace (split_scheme u)
        with (of_string "https", "//www.youtube.com/watch?v=" ++ g)
        by reflexivity
  end.
  cbv beta iota.
  match goal with
  | |- context [str_eqb ?a ?b] =>
      replace (str_eqb a b) with true by reflexivity
  end.
  match goal with
  | |- context [splitnetloc ?u] =>
      replace (splitnetloc u)
        with (of_string "www.youtube.com", "/watch?v=" ++ g) by reflexivity
  end.
  cbv beta iota.
  match goal with
  | |- context [netloc_brackets_ok L ?n] =>
      replace (netloc_brackets_ok L n) with true by reflexivity
  end.
  match goal with
  | |- context [checknetloc L ?n] =>
      replace (checknetloc L n) with true by reflexivity
  end.
  cbv beta iota delta [negb].
  match goal with
  | |- context [split_once ?c ?u] => change (split_once c u)
      with (split_once 35%N ("/watch?v=" ++ g))
  end.
  rewrite Hs. reflexivity.
Qed.

Lemma unquote_plain (L : Lib) (s : str) :
  Forall (fun x => N.eqb x 37%N = false) s -> unquote L s = s.
Proof.
  intros H. unfold unquote.
  rewrite (mem_char_absent "%"%char s H). reflexivity.
Qed.

Lemma qs_first_v_plain (L : Lib) (g : str) :
  plain_id g -> qs_first_v L ("v=" ++ g) = Some g.
Proof.
  intros [Hne Hg].
  unfold qs_first_v, parse_qs, parse_qsl. cbn.
  rewrite (split_absent 38%N g)
    by (apply (plain_id_without g _ Hg); reflexivity).
  destruct g as [|c g']; [contradiction|].
  cbn - [unquote replace_char].
  rewrite (replace_char_absent 43%N 32%N (c :: g'))
    by (apply (plain_id_without _ _ Hg); reflexivity).
  rewrite (unquote_plain L (c :: g'))
    by (apply (plain_id_without _ _ Hg); reflexivity).
  reflexivity.
Qed.

Lemma canonical_url_no_short_host (g : str) :
  Forall (fun c => is_id_char c = true) g ->
  contains "youtu.be" (canonical_url g) = false.
Proof.
  intros Hg. unfold canonical_url. cbn.
  apply (contains_absent _ 46%N).
  - cbn. tauto.
  - apply (plain_id_without g _ Hg). reflexivity.
Qed.

Lemma canonical_url_long_host (g : str) :
  contains "youtube.com" (canonical_url g) = true.
Proof. reflexivity. Qed.

Lemma extract_canonical (L : Lib) (g : str) :
  plain_id g -> extract_youtube_video_id L (canonical_url g) = Ok (Some g).
Proof.
  intros Hp. unfold extract_youtube_video_id.
  rewrite (canonical_url_no_short_host g (proj2 Hp)).
  rewrite canonical_url_long_host, (urlparse_canonical L g (proj2 Hp)).
  cbn [query]. rewrite (qs_first_v_plain L g Hp). reflexivity.
Qed.

Lemma clean_canonical (L : Lib) (g : str) :
  plain_id g -> clean_youtube_url L (canonical_url g) = Ok (canonical_url g).
Proof.
  intros Hp. unfold clean_youtube_url.
  rewrite (canonical_url_no_short_host g (proj2 Hp)).
  rewrite canonical_url_long_host, (urlparse_canonical L g (proj2 Hp)).
  cbn [query]. rewrite (qs_first_v_plain L g Hp).
  destruct Hp as [Hne _]. destruct g; [contradiction | reflexivity].
Qed.

Lemma take_while_Forall (f : char -> bool) (s : str) :
  Forall (fun c => f c = true) (take_while f s).
Proof.
  induction s as [|c s IH]; simpl; [constructor|].
  destruct (f c) eqn:E; constructor; assumption.
Qed.

Lemma search_youtu_be_some (url g : str) :
  search_youtu_be url = Some g ->
  contains "youtu.be" url = true /\ plain_id g.
Proof.
  induction url as [|c url IH].
  - cbn. discriminate.
  - cbn [search_youtu_be contains].
    destruct (startswith "youtu.be/" (c :: url)) eqn:Es.
    + destruct (take_while is_id_char (skipn 9 (c :: url))) as [|x xs] eqn:Et.
      * intros H. destruct (IH H) as [H1 H2]. rewrite H1, orb_true_r. auto.
      * intros H. injection H as <-. split.
        -- apply startswith_inv in Es as [r Er]. rewrite Er.
           change (of_string "youtu.be/" ++ r)
             with (of_string "youtu.be" ++ ("/" ++ r)).
           rewrite startswith_app. reflexivity.
        -- split; [discriminate|]. rewrite <- Et. apply take_while_Forall.
    + intros H. destruct (IH H) as [H1 H2]. rewrite H1, orb_true_r. auto.
Qed.

(** X1: a canonical watch URL built from an identifier of [A-Za-z0-9_-]
    is a fixed point of the normalisation: cleaning it returns it
    unchanged and extraction returns the identifier it was built from. *)
Theorem canonical_url_is_fixed_point (L : Lib) (g : str) :
  plain_id g ->
  clean_youtube_url L (canonical_url g) = Ok (canonical_url g) /\
  extract_youtube_video_id L (canonical_url g) = Ok (Some g).
Proof.
  intros Hp. split; [apply clean_canonical | apply extract_canonical]; exact Hp.
Qed.

Lemma canonical_url_is_fixed_point_witness :
  clean_youtube_url sample_lib "https://www.youtube.com/watch?v=dQw4w9WgXcQ"
  = Ok (of_string "https://www.youtube.com/watch?v=dQw4w9WgXcQ") /\
  extract_youtube_video_id sample_lib
    "https://www.youtube.com/watch?v=dQw4w9WgXcQ"
  = Ok (Some (of_string "dQw4w9WgXcQ")).
Proof.
  apply (canonical_url_is_fixed_point sample_lib "dQw4w9WgXcQ").
  split; [discriminate | repeat constructor].
Defined.

(** X2: whenever the short-link pattern finds an identifier in a URL, the
    identifier is a non-empty word of [A-Za-z0-9_-], both functions agree
    on it, and the cleaned URL is the canonical watch URL of that
    identifier, wherever in the URL the pattern matched. *)
Theorem short_link_normalised (L : Lib) (url g : str) :
  search_youtu_be url = Some g ->
  plain_id g /\
  extract_youtube_video_id L url = Ok (Some g) /\
  clean_youtube_url L url = Ok (canonical_url g).
Proof.
  intros Hs. destruct (search_youtu_be_some url g Hs) as [Hc Hp].
  split; [exact Hp|]. split.
  - unfold extract_youtube_video_id. rewrite Hc, Hs. reflexivity.
  - unfold clean_youtube_url. rewrite Hc, Hs.
    destruct Hp as [Hne _]. destruct g; [contradiction | reflexivity].
Qed.

Lemma short_link_normalised_witness :
  extract_youtube_video_id sample_lib "https://youtu.be/abc-123_x?si=track&t=42"
  = Ok (Some (of_string "abc-123_x")) /\
  clean_youtube_url sample_lib "https://youtu.be/abc-123_x?si=track&t=42"
  = Ok (of_string "https://www.youtube.com/watch?v=abc-123_x").
Proof.
  apply (short_link_normalised sample_lib
           "https://youtu.be/abc-123_x?si=track&t=42" "abc-123_x").
  reflexivity.
Defined.

(** X3: cleaning a URL never changes the identifier extracted from it:
    when [extract_youtube_video_id] finds an identifier of [A-Za-z0-9_-],
    [clean_youtube_url] succeeds and extraction from the cleaned URL finds
    the same identifier. *)
Theorem clean_preserves_extracted_id (L : Lib) (url id : str) :
  extract_youtube_video_id L url = Ok (Some id) ->
  plain_id id ->
  exists cleaned,
    clean_youtube_url L url = Ok cleaned /\
    extract_youtube_video_id L cleaned = Ok (Some id).
Proof.
  intros He Hp.
  assert (Hcan : clean_youtube_url L (canonical_url id) = Ok (canonical_url id)
                 /\ extract_youtube_video_id L (canonical_url id) = Ok (Some id))
    by (split; [apply clean_canonical | apply extract_canonical]; exact Hp).
  destruct Hcan as [_ Hex].
  assert (Hid : exists c v, id = c :: v).
  { destruct Hp as [Hne _]. destruct id as [|c v]; [contradiction|eauto]. }
  destruct Hid as (c & v & Hid).
  pose proof He as He0.
  unfold extract_youtube_video_id in He. unfold clean_youtube_url.
  destruct (contains "youtu.be" url) eqn:Ec.
  - destruct (search_youtu_be url) as [g|] eqn:Es.
    + injection He as ->. exists (canonical_url id). rewrite Hid at 1.
      rewrite <- Hid. auto.
    + exists url. split; [reflexivity | exact He0].
  - destruct (contains "youtube.com" url); [|discriminate].
    destruct (urlparse L url) as [parsed|]; [|discriminate].
    injection He as ->. exists (canonical_url id). rewrite Hid at 1.
    rewrite <- Hid. auto.
Qed.

Lemma clean_preserves_extracted_id_witness :
  exists cleaned,
    clean_youtube_url sample_lib
      "https://www.youtube.com/watch?v=abc123&feature=youtu.be" = Ok cleaned /\
    extract_youtube_video_id sample_lib cleaned = Ok (Some (of_string "abc123")).
Proof.
  apply (clean_preserves_extracted_id sample_lib
           "https://www.youtube.com/watch?v=abc123&feature=youtu.be" "abc123").
  - reflexivity.
  - split; [discriminate | repeat constructor].
Defined.

(* ================================================================== *)
(** * Filename sanitisation: the name as a path component *)
(* ================================================================== *)

Lemma splitext_app (p : str) : fst (splitext p) ++ snd (splitext p) = p.
Proof.
  destruct (splitext_parts p) as [[n ->] | ->]; simpl.
  - apply firstn_skipn.
  - apply app_nil_r.
Qed.

(** A name that had to be cut is still at least 255 characters long. *)
Lemma limit_length_long (s : str) :
  255 < len s -> 255 <= len (limit_length s).
Proof.
  intros Hl. unfold limit_length.
  destruct (Nat.ltb_spec 255 (len s)) as [_|]; [|lia].
  pose proof (splitext_app s) as Happ.
  destruct (splitext s) as [name e]; cbn [fst snd] in Happ.
  destruct e as [|c e].
  - unfold len in *. rewrite length_firstn. lia.
  - apply (f_equal (@List.length char)) in Happ.
    unfold len, slice_to, slice_index in *.
    rewrite length_app in *. rewrite length_firstn.
    destruct (Z.ltb_spec (255 - Z.of_nat (List.length (c :: e))) 0); lia.
Qed.

Lemma strip_head (f : char -> bool) (s : str) c t :
  strip f s = c :: t -> f c = false.
Proof.
  intros H. apply (drop_while_head f (strip f s) c t).
  unfold strip, lstrip in *.
  rewrite (lstrip_rstrip_fix f (drop_while f s)) by apply drop_while_idem.
  exact H.
Qed.

Lemma clean_name_head (s : str) c t :
  clean_name s = c :: t -> (c =? "."%char)%N = false.
Proof.
  unfold clean_name.
  set (m := map _ s).
  destruct (strip is_dot_or_space m) as [|x xs] eqn:E.
  - intros H. injection H as <- _. reflexivity.
  - intros H. injection H as <- <-.
    apply strip_head in E. unfold is_dot_or_space in E.
    apply orb_false_iff in E as [E _]. exact E.
Qed.

(** The sanitised name is neither [.] nor [..]. *)
Lemma sanitize_filename_not_dots L (x : str) :
  sanitize_filename L x <> "." /\ sanitize_filename L x <> "..".
Proof.
  rewrite sanitize_filename_eq.
  destruct (Nat.ltb_spec 255 (len (cleaned_name L x))) as [Hlt|Hle].
  - pose proof (limit_length_long _ Hlt) as H.
    split; intros E; rewrite E in H; vm_compute in H; lia.
  - rewrite (limit_length_short _ Hle). unfold cleaned_name.
    set (y := if is_url x then _ else _).
    pose proof (clean_name_head y) as Hh.
    destruct (clean_name y) as [|c t]; [split; discriminate|].
    specialize (Hh c t eq_refl).
    split; intros E; injection E as -> _; discriminate.
Qed.

Lemma valid_char_not_slash (c : char) :
  valid_char c -> N.eqb c "/"%char = false.
Proof.
  unfold valid_char. intros H.
  destruct (N.eqb_spec c "/"%char) as [E|]; [|reflexivity].
  rewrite E in H. discriminate.
Qed.

(** X4: the name [sanitize_filename] returns is always one path component:
    [pathlib] keeps it as it is (it is not empty, not [.], and holds no
    slash), it is not [..], and it holds no backslash either; so the path
    [chat_folder / 'uploads' / file_name] of [save_session] is a direct
    child of [uploads], whatever name the request gave. *)
Theorem sanitize_filename_is_one_component (L : Lib) (x : str) :
  path_components (sanitize_filename L x) = [sanitize_filename L x] /\
  sanitize_filename L x <> ".." /\
  mem_char "\"%char (sanitize_filename L x) = false.
Proof.
  pose proof (sanitize_filename_valid L x) as Hv.
  destruct (sanitize_filename_not_dots L x) as [Hd Hdd].
  assert (Hne : sanitize_filename L x <> [])
    by (apply limit_length_nonempty, clean_name_nonempty).
  split; [|split; [exact Hdd|]].
  - unfold path_components.
    rewrite (split_absent "/"%char (sanitize_filename L x)).
    + cbn [filter].
      destruct (str_eqb (sanitize_filename L x) []) eqn:E1;
        [apply str_eqb_eq in E1; contradiction|].
      destruct (str_eqb (sanitize_filename L x) ".") eqn:E2;
        [apply str_eqb_eq in E2; contradiction|].
      reflexivity.
    + eapply Forall_impl; [|exact Hv]. apply valid_char_not_slash.
  - apply mem_char_absent. eapply Forall_impl; [|exact Hv].
    intros c Hc. unfold valid_char in Hc.
    destruct (N.eqb_spec c "\"%char) as [E|]; [|reflexivity].
    rewrite E in Hc. discriminate.
Qed.

(* ================================================================== *)
(** * Subtitle decoding: fixed points and the json3 decoder *)
(* ================================================================== *)

Lemma collapse_from_fix (s : str) :
  single_spaced s = true ->
  forall b,
    (b = true -> match s with [] => True | d :: _ => is_space d = false end) ->
    collapse_from b s = s.
Proof.
  induction s as [|c s IH]; intros Hs b Hb; [reflexivity|].
  cbn [single_spaced] in Hs. apply andb_true_iff in Hs as [Hc Hs].
  cbn [collapse_from].
  destruct (is_space c) eqn:Ec.
  - apply andb_true_iff in Hc as [Hc Hn]. apply N.eqb_eq in Hc. subst c.
    destruct b; [specialize (Hb eq_refl); cbn in Hb; discriminate|].
    f_equal. apply (IH Hs true). intros _.
    destruct s as [|d s]; [exact I|]. apply negb_true_iff, Hn.
  - f_equal. apply (IH Hs false). discriminate.
Qed.

Lemma clean_up_fix (t : str) : ws_normal t -> clean_up t = t.
Proof.
  intros [Hs Ht]. unfold clean_up, collapse_ws.
  rewrite (collapse_from_fix t Hs false) by discriminate. exact Ht.
Qed.

(** X5: the clean-up [re.sub(r'\s+', ' ', s).strip()] is idempotent, so
    the second clean-up that follows the json3 branch changes nothing. *)
Theorem clean_up_idempotent (s : str) : clean_up (clean_up s) = clean_up s.
Proof. apply clean_up_fix, clean_up_ws_normal. Qed.

Lemma strip_tags_fix (s : str) : has_tag s = false -> strip_tags s = s.
Proof.
  unfold strip_tags. induction s as [|c s IH]; [reflexivity|].
  cbn [has_tag strip_tags_from].
  destruct (tag_at (c :: s)); [discriminate|].
  intros H. f_equal. exact (IH H).
Qed.

(** X6: the tag substitution [re.sub(r'<[^>]+>', '', s)] is idempotent,
    and it changes nothing in a text that holds no tag. *)
Theorem strip_tags_idempotent (s : str) :
  strip_tags (strip_tags s) = strip_tags s /\
  (has_tag s = false -> strip_tags s = s).
Proof.
  split; [apply strip_tags_fix, strip_tags_no_tag | apply strip_tags_fix].
Qed.

Lemma strip_tags_idempotent_witness :
  strip_tags "no tags here, only 1 < 2" = "no tags here, only 1 < 2".
Proof.
  apply (proj2 (strip_tags_idempotent "no tags here, only 1 < 2")).
  reflexivity.
Defined.

Lemma for_each_segs (segs : list json) (acc : list str) :
  Forall wf_seg segs ->
  for_each
    (fun text_lines seg =>
       let? has_utf8 := py_in "utf8" seg in
       if has_utf8 then
         let? u := py_getitem "utf8" seg in
         match u with
         | JStr s => Ok (text_lines ++ [strip is_space s])
         | _ => Raise attribute_error
         end
       else Ok text_lines)
    segs acc
  = Ok (acc ++ flat_map seg_texts segs).
Proof.
  intros H. revert acc. induction H as [|seg segs Hseg Hsegs IH]; intros acc.
  - cbn. rewrite app_nil_r. reflexivity.
  - cbn [for_each flat_map].
    destruct Hseg as (d & -> & [Hn | [s Hs]]);
      cbn [py_in py_getitem bind_result seg_texts]; rewrite ?Hn, ?Hs;
      cbn [bind_result app].
    + apply IH.
    + rewrite IH, <- app_assoc. reflexivity.
Qed.

Lemma for_each_events (events : list json) (acc : list str) :
  Forall wf_event events ->
  for_each
    (fun text_lines event =>
       let? has_segs := py_in "segs" event in
       if has_segs then
         let? segs := py_getitem "segs" event in
         let? segs := py_iter segs in
         for_each
           (fun text_lines seg =>
              let? has_utf8 := py_in "utf8" seg in
              if has_utf8 then
                let? u := py_getitem "utf8" seg in
                match u with
                | JStr s => Ok (text_lines ++ [strip is_space s])
                | _ => Raise attribute_error
                end
              else Ok text_lines)
           segs text_lines
       else Ok text_lines)
    events acc
  = Ok (acc ++ flat_map event_texts events).
Proof.
  intros H. revert acc. induction H as [|ev evs Hev Hevs IH]; intros acc.
  - cbn. rewrite app_nil_r. reflexivity.
  - cbn [for_each flat_map].
    destruct Hev as (d & -> & [Hn | (segs & Hs & Hwf)]);
      cbn [py_in py_getitem bind_result event_texts]; rewrite ?Hn, ?Hs;
      cbn [bind_result py_iter app].
    + apply IH.
    + rewrite (for_each_segs segs acc Hwf). cbn [bind_result].
      rewrite IH, <- app_assoc. reflexivity.
Qed.

(** X7: on a json3 document that is an object whose [events] is a list of
    well-formed events, the decoder returns the [utf8] fragments of all
    segments of all events, each trimmed, in document order, joined by
    single spaces and cleaned up; events without [segs] and segments
    without [utf8] contribute nothing, and a document without [events]
    decodes to the empty text. *)
Theorem decode_json3_well_formed (L : Lib) (content : str)
  (top : list (str * json)) (events : list json) :
  json_loads L content = Some (JDict top) ->
  match dict_get "events" top with
  | Some v => v
  | None => JList []
  end = JList events ->
  Forall wf_event events ->
  decode_json3 L content
  = Ok (clean_up (join " " (flat_map event_texts events))).
Proof.
  intros Hl He Hwf. unfold decode_json3. rewrite Hl.
  cbn [py_get bind_result]. rewrite He. cbn [py_iter bind_result].
  rewrite (for_each_events events [] Hwf). reflexivity.
Qed.

Lemma decode_json3_well_formed_witness :
  decode_json3 sample_lib
    ("{" ++ [34%N] ++ "events" ++ [34%N] ++ ": [{" ++ [34%N] ++ "tStartMs"
     ++ [34%N] ++ ": 0}, {" ++ [34%N] ++ "segs" ++ [34%N] ++ ": [{"
     ++ [34%N] ++ "utf8" ++ [34%N] ++ ": " ++ [34%N] ++ " Hello" ++ [34%N]
     ++ "}, {" ++ [34%N] ++ "utf8" ++ [34%N] ++ ": " ++ [34%N] ++ "big  world "
     ++ [34%N] ++ "}]}]}")
  = Ok (of_string "Hello big world").
Proof.
  pose (events :=
          [JDict [("tStartMs" : str, JInt 0)];
           JDict [("segs" : str,
                    JList [JDict [("utf8" : str, JStr " Hello")];
                           JDict [("utf8" : str, JStr "big  world ")]])]]).
  refine (eq_trans
            (decode_json3_well_formed sample_lib _
               [("events" : str, JList events)] events _ eq_refl _) _).
  - vm_compute. reflexivity.
  - repeat constructor.
    + eexists. split; [reflexivity|]. left. reflexivity.
    + eexists. split; [reflexivity|]. right. eexists. split; [reflexivity|].
      repeat constructor; eexists; (split; [reflexivity|]); right; eexists;
        reflexivity.
  - reflexivity.
Defined.

(* ================================================================== *)
(** * Track selection: a usable track is found *)
(* ================================================================== *)

(** X8: when every track carries a URL and at least one track is not
    tagged [m3u8], the selection succeeds with a non-empty URL, and that
    URL is the URL of a track not tagged [m3u8]: the yt-dlp method gives up
    on the track list only when every track is an HLS playlist. *)
Theorem select_subtitle_finds_usable_track (subtitles : list track) :
  urls_present subtitles ->
  existsb (fun sub => negb (ext_is (ext sub) "m3u8")) subtitles = true ->
  exists st,
    select_subtitle subtitles = Ok st /\
    url_truthy (subtitle_url st) = true /\
    exists sub, In sub subtitles /\ url sub = subtitle_url st /\
                ext_is (ext sub) "m3u8" = false.
Proof.
  intros Hu Hex.
  exists (selected subtitles).
  pose proof (select_subtitle_spec subtitles Hu) as Hs.
  split; [exact Hs|].
  assert (Ht : url_truthy (subtitle_url (selected subtitles)) = true).
  { unfold selected.
    destruct (best_format subtitles) as [fmt|] eqn:Eb.
    - unfold best_format in Eb. apply find_some in Eb as [_ Hf].
      destruct (first_of_format fmt subtitles) as [sub|] eqn:E.
      + destruct (first_of_format_some _ _ _ E) as [Hin _].
        exact (proj1 (Forall_forall _ _) Hu sub Hin).
      + apply first_of_format_none in E. congruence.
    - unfold first_non_m3u8.
      destruct (List.find _ subtitles) as [sub|] eqn:E.
      + apply find_some in E as [Hin _].
        exact (proj1 (Forall_forall _ _) Hu sub Hin).
      + apply existsb_exists in Hex as (sub & Hin & Hsub).
        pose proof (find_none _ _ E sub Hin) as Hn. cbv beta in Hn.
        congruence. }
  split; [exact Ht|].
  exact (proj2 (select_subtitle_not_m3u8 subtitles _ Hs) Ht).
Qed.

Lemma select_subtitle_finds_usable_track_witness :
  exists st,
    select_subtitle
      [mk_track (Some (of_string "m3u8")) (Some (of_string "https://sub.example/hls"));
       mk_track (Some (of_string "ttml")) (Some (of_string "https://sub.example/ttml"))]
    = Ok st /\
    subtitle_url st = Some (of_string "https://sub.example/ttml").
Proof.
  destruct (select_subtitle_finds_usable_track
              [mk_track (Some (of_string "m3u8")) (Some (of_string "https://sub.example/hls"));
               mk_track (Some (of_string "ttml")) (Some (of_string "https://sub.example/ttml"))])
    as (st & Hs & _).
  - repeat constructor.
  - reflexivity.
  - exists st. split; [exact Hs|].
    cbn in Hs. injection Hs as <-. reflexivity.
Defined.

(* ================================================================== *)
(** * The two methods: calls made and results returned *)
(* ================================================================== *)

Lemma post_ret {A : Type} (P : A -> Prop) (a : A) : P a -> post P (ret a).
Proof. intros H b E. injection E as <-. exact H. Qed.

Lemma post_raise {A : Type} (P : A -> Prop) (e : exn) : post P (raise e).
Proof. intros b E. discriminate. Qed.

Lemma post_bind {A B : Type} (R : A -> Prop) (Q : B -> Prop)
  (m : M A) (k : A -> M B) :
  post R m -> (forall a, R a -> post Q (k a)) -> post Q (bind m k).
Proof.
  intros Hm Hk b E. destruct m as [log [a|e]]; simpl in *; [|discriminate].
  specialize (Hk a (Hm a eq_refl) b).
  destruct (k a) as [log' r]. simpl in *. auto.
Qed.

Lemma post_bind_any {A B : Type} (Q : B -> Prop) (m : M A) (k : A -> M B) :
  (forall a, post Q (k a)) -> post Q (bind m k).
Proof.
  intros Hk. apply (post_bind (fun _ => True)); [intros a _; exact I | auto].
Qed.

Lemma post_try_except {A : Type} (P : A -> Prop) (m : M A) (h : exn -> M A) :
  post P m -> (forall e, post P (h e)) -> post P (try_except m h).
Proof.
  intros Hm Hh a E. destruct m as [log [b|e]]; simpl in *.
  - apply Hm, E.
  - specialize (Hh e a). destruct (h e) as [log' r]. simpl in *. auto.
Qed.

Lemma logs_ret {A : Type} P (a : A) : logs P (ret a).
Proof. reflexivity. Qed.

Lemma logs_raise {A : Type} P (e : exn) : logs P (@raise A e).
Proof. reflexivity. Qed.

Lemma logs_lift {A : Type} P (r : result A) : logs P (lift r).
Proof. reflexivity. Qed.

Lemma logs_call {A : Type} (P : event -> bool) ev (r : result A) :
  P ev = true -> logs P (call ev r).
Proof. intros H. unfold logs. simpl. rewrite H. reflexivity. Qed.

Lemma logs_bind {A B : Type} P (m : M A) (k : A -> M B) :
  logs P m -> (forall a, logs P (k a)) -> logs P (bind m k).
Proof.
  unfold logs. intros Hm Hk. destruct m as [log [a|e]]; simpl in *; [|exact Hm].
  specialize (Hk a). destruct (k a) as [log' r]. simpl in *.
  rewrite forallb_app, Hm, Hk. reflexivity.
Qed.

Lemma logs_try_except {A : Type} P (m : M A) (h : exn -> M A) :
  logs P m -> (forall e, logs P (h e)) -> logs P (try_except m h).
Proof.
  unfold logs. intros Hm Hh. destruct m as [log [a|e]]; simpl in *; [exact Hm|].
  specialize (Hh e). destruct (h e) as [log' r]. simpl in *.
  rewrite forallb_app, Hm, Hh. reflexivity.
Qed.

(** A proof about the calls of a computation: through the binds, the
    handlers and the branches, down to the single calls. *)
Ltac logs_auto :=
  repeat first
    [ apply logs_ret
    | apply logs_raise
    | apply logs_lift
    | apply logs_call; reflexivity
    | apply logs_bind; [| intros ?]
    | apply logs_try_except; [| intros ?]
    | match goal with
      | |- logs _ (if ?b then _ else _) => destruct b
      | |- logs _ (match ?x with _ => _ end) => destruct x
      | |- logs _ (let '(_, _) := ?x in _) => destruct x
      end ].

Lemma fetch_any_logs (ts : list transcript) : logs is_api_event (fetch_any ts).
Proof.
  induction ts as [|t ts IH]; cbn [fetch_any]; logs_auto. exact IH.
Qed.

Lemma api_method_logs W video_id : logs is_api_event (api_method W video_id).
Proof.
  unfold api_method, api_body, api_handler. logs_auto.
  all: try apply fetch_any_logs.
Qed.

Lemma ytdlp_method_logs L W video_id :
  logs is_ytdlp_event (ytdlp_method L W video_id).
Proof. unfold ytdlp_method, ytdlp_body. logs_auto. Qed.

Lemma fetch_any_result (ts : list transcript) :
  exists log,
    fetch_any ts =
    (log, Ok match List.find fetch_ok ts with
             | Some alt =>
                 match fetch alt with
                 | Ok d => Some (alt, d)
                 | Raise _ => None
                 end
             | None => None
             end).
Proof.
  induction ts as [|t ts [log IH]]; cbn [fetch_any List.find].
  - eexists. reflexivity.
  - unfold fetch_ok at 1. destruct (fetch t) as [d|e] eqn:E; cbn.
    + rewrite E. eexists. reflexivity.
    + rewrite IH. eexists. reflexivity.
Qed.

(** X9: the yt-dlp method makes no remote call when yt-dlp is not installed;
    otherwise it asks once for the metadata of the canonical URL of the
    video and then downloads at most one body, and the URL it downloads is
    the URL of one of the tracks on offer whose format tag is not m3u8. *)
Theorem ytdlp_method_calls (L : Lib) (W : Net) (video_id : str) :
  let log := fst (ytdlp_method L W video_id) in
  if YTDLP_AVAILABLE W then
    log = [EvExtractInfo (canonical_url video_id)] \/
    exists sub u,
      In sub (offered W video_id) /\
      ext_is (ext sub) "m3u8" = false /\
      url sub = Some u /\
      log = [EvExtractInfo (canonical_url video_id); EvHttpGet u]
  else log = [].
Proof.
  unfold ytdlp_method, offered.
  destruct (YTDLP_AVAILABLE W); [|reflexivity].
  unfold ytdlp_body.
  destruct (ydl_extract_info W (canonical_url video_id)) as [info|e];
    [|left; reflexivity].
  cbn [call bind try_except ret fst snd app].
  destruct (if tracks_truthy (subtitles_en info) then subtitles_en info
            else automatic_captions_en info) as [[|t ts]|];
    try (left; reflexivity).
  destruct (select_subtitle (t :: ts)) as [st|e] eqn:Hsel;
    [|left; reflexivity].
  cbn [lift bind].
  destruct (subtitle_url st) as [[|c u]|] eqn:Hu; try (left; reflexivity).
  right.
  destruct (select_subtitle_not_m3u8 _ _ Hsel) as [_ H].
  rewrite Hu in H. destruct (H eq_refl) as (sub & Hin & Hurl & Hext).
  exists sub, (c :: u). repeat split; try assumption.
  cbn [call bind].
  destruct (requests_get W (c :: u)) as [response|e]; [|reflexivity].
  destruct (status_code response =? 200)%Z; [|reflexivity].
  cbn [lift bind ret].
  destruct (process_body L video_id (selected_ext st) (text response));
    reflexivity.
Qed.

Lemma api_body_post W video_id :
  post (fun r => tr_success r = true /\ tr_video_id r = video_id)
       (api_body W video_id).
Proof.
  unfold api_body. apply post_bind_any. intros [d|].
  - apply post_ret. split; reflexivity.
  - do 3 (apply post_bind_any; intros ?).
    match goal with |- post _ (let '(_, _) := ?x in _) => destruct x end.
    apply post_ret. split; reflexivity.
Qed.

Lemma api_handler_raises e : exists e', api_handler e = ([], Raise e').
Proof.
  unfold api_handler. destruct (exn_kind_of e); eexists; reflexivity.
Qed.

Lemma api_method_post W video_id :
  post (fun r => tr_success r = true /\ tr_video_id r = video_id)
       (api_method W video_id).
Proof.
  unfold api_method. destruct (negb (YOUTUBE_API_AVAILABLE W)).
  - apply post_raise.
  - apply post_try_except; [apply api_body_post|].
    intros e a E. destruct (api_handler_raises e) as [e' He'].
    rewrite He' in E. discriminate.
Qed.

Lemma process_body_id L video_id e content r :
  process_body L video_id e content = Ok r ->
  tr_success r = true /\ tr_video_id r = video_id /\
  tr_language r = "en" /\ tr_is_generated r = true.
Proof.
  unfold process_body. destruct (is_m3u8_playlist content); [discriminate|].
  destruct (decode_subtitle L e content) as [t|]; [|discriminate].
  cbn [bind_result]. destruct (meaningful t); [|discriminate].
  intros E. injection E as <-. repeat split.
Qed.

(** What the yt-dlp method returns was built from a downloaded body. *)
Lemma ytdlp_method_post L W video_id :
  post (fun o => forall r, o = Some r ->
          tr_success r = true /\ tr_video_id r = video_id /\
          tr_language r = "en" /\ tr_is_generated r = true /\
          50 < len (tr_text r) /\ ws_normal (tr_text r))
       (ytdlp_method L W video_id).
Proof.
  assert (Hnone : forall o : option transcript_result, o = None ->
            forall r, o = Some r ->
              tr_success r = true /\ tr_video_id r = video_id /\
              tr_language r = "en" /\ tr_is_generated r = true /\
              50 < len (tr_text r) /\ ws_normal (tr_text r))
    by (intros o -> r; discriminate).
  unfold ytdlp_method. destruct (YTDLP_AVAILABLE W).
  2: { apply post_ret. apply Hnone. reflexivity. }
  apply post_try_except.
  2: { intros _. apply post_ret. apply Hnone. reflexivity. }
  unfold ytdlp_body. apply post_bind_any. intros info.
  destruct (if tracks_truthy (subtitles_en info) then subtitles_en info
            else automatic_captions_en info) as [[|t ts]|];
    try (apply post_ret; apply Hnone; reflexivity).
  apply post_bind_any. intros st.
  destruct (subtitle_url st) as [[|c u]|];
    try (apply post_ret; apply Hnone; reflexivity).
  apply post_bind_any. intros response.
  destruct (status_code response =? 200)%Z;
    [|apply post_ret; apply Hnone; reflexivity].
  apply (post_bind (fun r =>
           process_body L video_id (selected_ext st) (text response) = Ok r)).
  - intros r E. exact E.
  - intros r E. apply post_ret. intros r' [= <-].
    destruct (process_body_id _ _ _ _ _ E) as (H1 & H2 & H3 & H4).
    destruct (process_body_ok _ _ _ _ _ E) as (_ & Hd & Hlen).
    repeat split; try assumption.
    all: eapply decode_subtitle_ws_normal; exact Hd.
Qed.

Lemma api_method_not_caption_exn W video_id e :
  snd (api_method W video_id) = Raise e -> is_caption_exn e = false.
Proof.
  unfold api_method. destruct (negb (YOUTUBE_API_AVAILABLE W)).
  - intros [= <-]. reflexivity.
  - destruct (api_body W video_id) as [log [r|e']]; cbn [try_except snd];
      [discriminate|].
    unfold api_handler, is_caption_exn.
    destruct (exn_kind_of e') eqn:K; cbn; intros [= <-]; cbn;
      try rewrite K; reflexivity.
Qed.

Lemma extract_youtube_video_id_raises L url e :
  extract_youtube_video_id L url = Raise e -> exn_kind_of e = ValueError.
Proof.
  unfold extract_youtube_video_id.
  destruct (if contains "youtu.be" url then search_youtu_be url else None);
    [discriminate|].
  destruct (contains "youtube.com" url); [|discriminate].
  destruct (urlparse L url); [discriminate|].
  intros [= <-]. reflexivity.
Qed.

(** X10: whatever goes wrong, [get_youtube_transcript] never lets one of the
    three exception classes of the captions API (TranscriptsDisabled,
    NoTranscriptFound, VideoUnavailable) reach its caller: each of them is
    replaced by a plain exception, and the caller's [except Exception]
    sees no library class. *)
Theorem transcript_failures_are_translated (L : Lib) (W : Net) (url : str)
  (e : exn) :
  snd (get_youtube_transcript L W url) = Raise e ->
  is_caption_exn e = false.
Proof.
  unfold get_youtube_transcript.
  destruct (extract_youtube_video_id L url) as [[[|c v]|]|e'] eqn:E;
    cbn [lift bind raise snd].
  - intros [= <-]. reflexivity.
  - destruct (ytdlp_method_no_raise L W (c :: v)) as (log & o & Hy).
    rewrite Hy. destruct o as [r|]; cbn [bind ret snd].
    + discriminate.
    + destruct (api_method W (c :: v)) as [log' r] eqn:Ha. cbn [snd].
      intros Hr. apply (api_method_not_caption_exn W (c :: v)).
      rewrite Ha. exact Hr.
  - intros [= <-]. reflexivity.
  - intros [= <-]. unfold is_caption_exn.
    rewrite (extract_youtube_video_id_raises _ _ _ E). reflexivity.
Qed.

Lemma transcript_failures_are_translated_witness :
  snd (get_youtube_transcript sample_lib disabled_net "https://youtu.be/abc123")
  = Raise (plain "Transcripts are disabled for this video") /\
  is_caption_exn (plain "Transcripts are disabled for this video") = false.
Proof.
  split.
  - vm_compute. reflexivity.
  - apply (transcript_failures_are_translated sample_lib disabled_net
             "https://youtu.be/abc123").
    vm_compute. reflexivity.
Defined.

Lemma find_fetch_ok ts alt :
  List.find fetch_ok ts = Some alt -> fetch alt = Ok (entries alt).
Proof.
  intros H. apply find_some in H. destruct H as [_ H].
  unfold fetch_ok, entries in *. destruct (fetch alt); [reflexivity|discriminate].
Qed.

(** X11: when the simple request failed and the [fetch()] of the chosen
    transcript (the English one, or the first of the list when there is no
    English one) fails too, the transcripts are tried in list order and
    the first one whose [fetch()] succeeds gives the text, the language and
    the generated flag of the result; when none succeeds the request fails
    with a message that wraps the error of the first [fetch()]. *)
Theorem fetch_falls_back_in_list_order (W : Net) (video_id : str)
  (e0 e : exn) (transcript_list : list transcript) (tr : transcript) :
  YOUTUBE_API_AVAILABLE W = true ->
  api_get_transcript W video_id = Raise e0 ->
  api_list_transcripts W video_id = Ok transcript_list ->
  (api_find_transcript W transcript_list = Ok tr \/
   exists e1, api_find_transcript W transcript_list = Raise e1 /\
              exn_kind_of e1 = NoTranscriptFound /\
              hd_error transcript_list = Some tr) ->
  fetch tr = Raise e ->
  snd (api_method W video_id) =
  match List.find fetch_ok transcript_list with
  | Some alt => Ok (result_of video_id alt (entries alt))
  | None =>
      Raise (plain ("Could not fetch transcript. Try: All transcript fetches failed. Original error: "
                    ++ exn_message e))
  end.
Proof.
  intros Hav Hget Hlist Hfind Hfetch.
  unfold api_method, api_body. rewrite Hav, Hget, Hlist.
  destruct (fetch_any_result transcript_list) as [log Hany].
  cbn [negb call bind try_except ret fst snd app].
  destruct Hfind as [Hf | (e1 & Hf & K & Hhd)]; rewrite Hf;
    cbn [negb call bind try_except ret fst snd app].
  - rewrite Hfetch. cbn [call bind try_except]. rewrite Hany.
    destruct (List.find fetch_ok transcript_list) as [alt|] eqn:F.
    + rewrite (find_fetch_ok _ _ F). reflexivity.
    + reflexivity.
  - rewrite K. destruct transcript_list as [|first rest]; [discriminate|].
    injection Hhd as ->. cbn [ret bind]. rewrite Hfetch.
    cbn [call bind try_except]. rewrite Hany.
    destruct (List.find fetch_ok (tr :: rest)) as [alt|] eqn:F.
    + rewrite (find_fetch_ok _ _ F). reflexivity.
    + reflexivity.
Qed.

Lemma fetch_falls_back_in_list_order_witness :
  snd (api_method fallback_net "abc123") =
  Ok (mk_transcript_result true ("bonjour" ++ newline ++ "monde")
        "abc123" "French" true) /\
  snd (api_method blocked_net "abc123") =
  Raise (plain "Could not fetch transcript. Try: All transcript fetches failed. Original error: blocked").
Proof.
  split.
  - apply (fetch_falls_back_in_list_order fallback_net "abc123"
             (mk_exn NoTranscriptFound "no English transcript")
             (mk_exn OSError "blocked") [german; french] german);
      try reflexivity.
    right. exists (mk_exn NoTranscriptFound "no English transcript").
    repeat split.
  - apply (fetch_falls_back_in_list_order blocked_net "abc123"
             (mk_exn NoTranscriptFound "no English transcript")
             (mk_exn OSError "blocked") [german] german);
      try reflexivity.
    left. reflexivity.
Defined.

(** X12: every transcript [get_youtube_transcript] returns is marked as a
    success and carries the video id extracted from the URL, which is not
    empty; and a transcript obtained without any call to the captions API
    came from a downloaded subtitle track: its text has more than 50
    characters, is white-space normalised, and is reported as generated
    English. *)
Theorem transcript_result_carries_id (L : Lib) (W : Net) (url : str)
  (log : list event) (r : transcript_result) :
  get_youtube_transcript L W url = (log, Ok r) ->
  extract_youtube_video_id L url = Ok (Some (tr_video_id r)) /\
  tr_video_id r <> [] /\
  tr_success r = true /\
  (forallb is_ytdlp_event log = true ->
   50 < len (tr_text r) /\ ws_normal (tr_text r) /\
   tr_language r = "en" /\ tr_is_generated r = true).
Proof.
  unfold get_youtube_transcript.
  destruct (extract_youtube_video_id L url) as [[[|c v]|]|e'] eqn:E;
    cbn [lift bind raise]; try discriminate.
  pose proof (ytdlp_method_post L W (c :: v)) as Hy.
  destruct (ytdlp_method L W (c :: v)) as [l1 [[r1|]|e1]];
    cbn [bind ret]; try discriminate.
  - rewrite app_nil_r. intros [= <- <-].
    destruct (Hy (Some r1) eq_refl r1 eq_refl) as (H1 & H2 & H3 & H4 & H5 & H6).
    rewrite H2. repeat split; try assumption; try discriminate; apply H6.
  - pose proof (api_method_post W (c :: v)) as Ha.
    destruct (YOUTUBE_API_AVAILABLE W) eqn:Hav.
    + destruct (api_method_invoked W (c :: v) Hav) as [l2 Hl2].
      destruct (api_method W (c :: v)) as [l [r2|e2]]; [|discriminate].
      intros [= <- <-]. destruct (Ha r2 eq_refl) as [H1 H2].
      cbn [fst] in Hl2. subst l. rewrite H2.
      repeat split; try assumption; try discriminate.
      all: rewrite forallb_app in H; cbn in H;
        rewrite andb_false_r in H; discriminate.
    + unfold api_method. rewrite Hav. cbn. discriminate.
Qed.

Lemma transcript_result_carries_id_witness :
  exists log r,
    get_youtube_transcript sample_lib playlist_net "https://youtu.be/abc123"
    = (log, Ok r) /\
    tr_video_id r = "abc123" /\ tr_success r = true.
Proof.
  eexists. eexists. split; [vm_compute; reflexivity|].
  refine (let H := transcript_result_carries_id sample_lib playlist_net
                     "https://youtu.be/abc123" _ _ _ in _).
  Unshelve. 4: vm_compute; reflexivity.
  destruct H as (H1 & _ & H3 & _). split; [reflexivity | exact H3].
Defined.

(** X13: every remote call [get_youtube_transcript] makes goes to a library
    that is installed: no metadata request or download without yt-dlp, no
    captions request without youtube-transcript-api, and so no call at all
    when both are missing. *)
Theorem calls_only_to_installed_libraries (L : Lib) (W : Net) (url : str) :
  forallb (installed W) (fst (get_youtube_transcript L W url)) = true.
Proof.
  change (logs (installed W) (get_youtube_transcript L W url)).
  unfold get_youtube_transcript. apply logs_bind; [apply logs_lift|].
  intros [[|c v]|]; try apply logs_raise.
  apply logs_bind.
  - unfold ytdlp_method, installed.
    destruct (YTDLP_AVAILABLE W); [|apply logs_ret].
    unfold ytdlp_body. logs_auto.
  - intros [r|]; [apply logs_ret|].
    unfold api_method, installed.
    destruct (YOUTUBE_API_AVAILABLE W); cbn [negb]; [|apply logs_raise].
    assert (Hany : forall ts, logs
              (fun ev => if is_ytdlp_event ev then YTDLP_AVAILABLE W else true)
              (fetch_any ts)).
    { induction ts as [|t ts IH]; cbn [fetch_any]; logs_auto. exact IH. }
    unfold api_body, api_handler. logs_auto. all: try apply Hany.
Qed.

Lemma ytdlp_method_result_log L W video_id log r :
  ytdlp_method L W video_id = (log, Ok (Some r)) ->
  exists u, log = [EvExtractInfo (canonical_url video_id); EvHttpGet u].
Proof.
  unfold ytdlp_method. destruct (YTDLP_AVAILABLE W); [|discriminate].
  unfold ytdlp_body.
  destruct (ydl_extract_info W (canonical_url video_id)) as [info|e];
    [|discriminate].
  cbn [call bind try_except ret fst snd app].
  destruct (if tracks_truthy (subtitles_en info) then subtitles_en info
            else automatic_captions_en info) as [[|t ts]|];
    try discriminate.
  destruct (select_subtitle (t :: ts)) as [st|e]; [|discriminate].
  cbn [lift bind].
  destruct (subtitle_url st) as [[|c u]|]; try discriminate.
  cbn [call bind].
  destruct (requests_get W (c :: u)) as [response|e]; [|discriminate].
  destruct (status_code response =? 200)%Z; [|discriminate].
  cbn [lift bind ret].
  destruct (process_body L video_id (selected_ext st) (text response));
    [|discriminate].
  intros [= <- _]. exists (c :: u). reflexivity.
Qed.

(** X14: a transcript found by the yt-dlp method ends the request: it is
    returned as it is, the calls made are those of the yt-dlp method, and
    the captions API is not called at all. *)
Theorem ytdlp_result_ends_the_request (L : Lib) (W : Net) (url : str)
  (c : char) (v : str) (log : list event) (r : transcript_result) :
  extract_youtube_video_id L url = Ok (Some (c :: v)) ->
  ytdlp_method L W (c :: v) = (log, Ok (Some r)) ->
  get_youtube_transcript L W url = (log, Ok r) /\
  existsb is_api_event log = false /\
  List.length log = 2.
Proof.
  intros E Hy. unfold get_youtube_transcript. rewrite E.
  cbn [lift bind]. rewrite Hy. cbn [bind ret]. rewrite app_nil_r.
  split; [reflexivity|].
  destruct (ytdlp_method_result_log _ _ _ _ _ Hy) as [u ->].
  split; reflexivity.
Qed.

Lemma ytdlp_result_ends_the_request_witness :
  exists log r,
    get_youtube_transcript sample_lib captioned_net "https://youtu.be/abc123"
    = (log, Ok r) /\
    existsb is_api_event log = false /\
    List.length log = 2.
Proof.
  eexists. eexists.
  refine (ytdlp_result_ends_the_request sample_lib captioned_net
            "https://youtu.be/abc123" _ _ _ _ _ _);
    vm_compute; reflexivity.
Defined.

(* ================================================================== *)
(** * Saving a session: what is written and what is left alone *)
(* ================================================================== *)

Lemma keeps_bind_lift {A B : Type} p (x : result A) (k : A -> FSM B) :
  (forall a, x = Ok a -> keeps p (k a)) -> keeps p (fs_bind (fs_lift x) k).
Proof.
  intros Hk d d' r n H Hg. unfold fs_bind, fs_lift in H.
  destruct x as [a|e].
  - apply (Hk a eq_refl d d' r n H Hg).
  - injection H as <- _. exact Hg.
Qed.

Lemma keeps_mkdirs p pre rest : keeps p (mkdirs pre rest).
Proof.
  revert pre. induction rest as [|c r IH]; intros pre; cbn [mkdirs].
  - apply keeps_ret.
  - apply keeps_bind; [apply keeps_mkdir | intros _; apply IH].
Qed.

Lemma keeps_save_file_outside L folder p file_data :
  ~ own_path folder p -> keeps p (save_file L folder file_data).
Proof.
  intros Hp. unfold save_file. keeps_auto.
  apply keeps_write. intros ->. apply Hp. right. eexists. reflexivity.
Qed.

Lemma keeps_save_message_files_outside L folder p msg :
  ~ own_path folder p -> keeps p (save_message_files L folder msg).
Proof.
  intros Hp. unfold save_message_files. keeps_auto.
  apply keeps_for_each. intros x. apply keeps_save_file_outside, Hp.
Qed.

Lemma keeps_save_session_body L now1 now2 data p :
  (forall chat_id, py_get "chat_id" JNull data = Ok chat_id ->
     ~ own_path (chat_folder_of (py_str L chat_id)) p) ->
  keeps p (save_session_body L now1 now2 data).
Proof.
  intros Hp. unfold save_session_body.
  apply keeps_bind_lift. intros chat_id Hc. specialize (Hp chat_id Hc).
  apply keeps_bind; [apply keeps_lift|]. intros chat_title.
  apply keeps_bind; [apply keeps_lift|]. intros messages.
  destruct (negb (truthy chat_id)); [apply keeps_ret|].
  apply keeps_bind; [apply keeps_mkdirs|]. intros _.
  apply keeps_bind; [apply keeps_lift|]. intros created_at.
  apply keeps_bind.
  { apply keeps_write. intros ->. apply Hp. left. reflexivity. }
  intros _.
  apply keeps_bind; [apply keeps_lift|]. intros msgs.
  apply keeps_bind; [|intros _; apply keeps_ret].
  apply keeps_for_each. intros x.
  apply keeps_save_message_files_outside, Hp.
Qed.

Lemma mem_char_false (c : char) (s : str) :
  mem_char c s = false -> Forall (fun x => N.eqb x c = false) s.
Proof.
  unfold mem_char. induction s as [|x s IH]; cbn [existsb]; [constructor|].
  intros H. apply orb_false_iff in H as [H1 H2].
  constructor; [rewrite N.eqb_sym; exact H1 | apply IH, H2].
Qed.

Lemma chat_folder_of_plain (chat_id : str) :
  mem_char "/"%char chat_id = false ->
  chat_folder_of chat_id = ["chat_" ++ chat_id].
Proof.
  intros H. unfold chat_folder_of, path_components.
  rewrite split_absent; [reflexivity|].
  apply Forall_app. split; [|apply mem_char_false, H].
  repeat constructor.
Qed.

(** X15: for a chat whose identifier holds neither a slash nor a backslash,
    and whatever the outcome of [save_session], success or failure, no
    file or directory outside the directory [chat_<id>] of that chat is
    changed, and inside it only [session.json] and the files that lie
    directly in [uploads] can change: every other entry of the disk is
    still there afterwards with the same content. So a chat whose files
    lie in another directory keeps its record and its attachments. *)
Theorem save_session_leaves_other_chats (L : Lib) (root : option str)
  (now1 now2 : str) (data : json) (d d' : fs) (r : response saved)
  (chat_id : json) :
  save_session L root now1 now2 data d = (d', r) ->
  py_get "chat_id" JNull data = Ok chat_id ->
  plain_chat_id (py_str L chat_id) ->
  (forall p n,
     fs_get p d = Some n ->
     ~ own_path [chat_dir (py_str L chat_id)] p ->
     fs_get p d' = Some n) /\
  (forall name q n,
     name <> chat_dir (py_str L chat_id) ->
     fs_get (name :: q) d = Some n ->
     fs_get (name :: q) d' = Some n).
Proof.
  intros H Hc [Hslash _].
  assert (Hkeep : forall p n,
            fs_get p d = Some n ->
            ~ own_path [chat_dir (py_str L chat_id)] p ->
            fs_get p d' = Some n).
  { intros p n Hg Hp. unfold save_session in H.
    destruct (negb (storage_configured root)).
    - injection H as <- _. exact Hg.
    - assert (Hp' : forall c, py_get "chat_id" JNull data = Ok c ->
                      ~ own_path (chat_folder_of (py_str L c)) p).
      { intros c Hc'. rewrite Hc in Hc'. injection Hc' as <-.
        rewrite (chat_folder_of_plain _ Hslash). exact Hp. }
      destruct (save_session_body L now1 now2 data d) as [d1 [a|e]] eqn:E;
        injection H as <- _;
        apply (keeps_save_session_body L now1 now2 data p Hp' d d1 _ n E Hg). }
  split; [exact Hkeep|].
  intros name q n Hne Hg. apply (Hkeep _ _ Hg).
  intros [Hown | [x Hown]]; injection Hown as Hown _; contradiction.
Qed.

Lemma save_session_leaves_other_chats_witness :
  fs_get [of_string "chat_7"; of_string "session.json"]
    (fst (save_session sample_lib (Some (of_string "/data"))
            "2026-01-05T10:00:00.000001" "2026-01-05T10:00:00.000002"
            sample_request other_disk))
  = Some (File "{}").
Proof.
  refine (proj2 (save_session_leaves_other_chats sample_lib
                   (Some (of_string "/data"))
                   "2026-01-05T10:00:00.000001" "2026-01-05T10:00:00.000002"
                   sample_request other_disk _ _ (JStr "42") _ eq_refl _)
            "chat_7" [of_string "session.json"] (File "{}") _ eq_refl).
  - apply surjective_pairing.
  - split; reflexivity.
  - discriminate.
Defined.

(** X16: [save_session] answers 400 in two cases only, an unset storage path
    and a request without a usable [chat_id], and in both the disk is
    exactly as it was: no folder has been created. *)
Theorem save_session_400_leaves_disk (L : Lib) (root : option str)
  (now1 now2 : str) (data : json) (d d' : fs) (error : str) :
  save_session L root now1 now2 data d = (d', Failure 400 error) ->
  d' = d /\
  ((storage_configured root = false /\
    error = "Storage path not configured") \/
   (storage_configured root = true /\
    (exists chat_id, py_get "chat_id" JNull data = Ok chat_id /\
                     truthy chat_id = false) /\
    error = "No chat_id provided")).
Proof.
  unfold save_session.
  destruct (storage_configured root); cbn [negb].
  2: { intros [= <- <-]. split; [reflexivity|]. left. split; reflexivity. }
  unfold save_session_body, fs_bind, fs_lift.
  destruct (py_get "chat_id" JNull data) as [chat_id|]; [|discriminate].
  destruct (py_get "chat_title" (JStr "Untitled Chat") data) as [chat_title|];
    [|discriminate].
  destruct (py_get "messages" (JList []) data) as [messages|]; [|discriminate].
  destruct (truthy chat_id) eqn:Et; cbn [negb].
  - destruct (mkdirs [] _ d) as [d2 [[]|]]; [|discriminate].
    destruct (py_get "created_at" (JStr now1) data); [|discriminate].
    destruct (fs_update _ d2) as [d3 [[]|]]; [|discriminate].
    destruct (py_iter messages); [|discriminate].
    destruct (fs_for_each _ _ d3) as [d4 [[]|]]; discriminate.
  - intros [= <- <-]. split; [reflexivity|]. right.
    repeat split. exists chat_id. split; [reflexivity | exact Et].
Qed.

Lemma save_session_400_leaves_disk_witness :
  save_session sample_lib (Some (of_string "/data")) "t1" "t2"
    (JDict [ ("chat_id" : str, JStr []) ]) other_disk
  = (other_disk, Failure 400 "No chat_id provided") /\
  other_disk = other_disk.
Proof.
  split; [vm_compute; reflexivity|].
  apply (save_session_400_leaves_disk sample_lib (Some (of_string "/data"))
           "t1" "t2" (JDict [ ("chat_id" : str, JStr []) ]) other_disk
           other_disk "No chat_id provided").
  vm_compute. reflexivity.
Defined.

Lemma preserves_ret {A : Type} I (a : A) : preserves I (fs_ret a).
Proof. intros d d' r H. injection H as <- _. auto. Qed.

Lemma preserves_lift {A : Type} I (x : result A) : preserves I (fs_lift x).
Proof. intros d d' r H. injection H as <- _. auto. Qed.

Lemma preserves_bind {A B : Type} I (m : FSM A) (k : A -> FSM B) :
  preserves I m -> (forall a, preserves I (k a)) -> preserves I (fs_bind m k).
Proof.
  intros Hm Hk d d' r H Hi. unfold fs_bind in H.
  destruct (m d) as [d1 [a|e]] eqn:E.
  - apply (Hk a d1 d' r H). apply (Hm d d1 _ E Hi).
  - injection H as <- _. apply (Hm d d1 _ E Hi).
Qed.

Lemma preserves_for_each {A : Type} I (body : A -> FSM unit) (l : list A) :
  (forall x, preserves I (body x)) -> preserves I (fs_for_each body l).
Proof.
  intros Hb. induction l as [|x l IH]; simpl.
  - apply preserves_ret.
  - apply preserves_bind; [apply Hb | intros _; exact IH].
Qed.

Lemma preserves_update I (f : fs -> result fs) :
  (forall d d', f d = Ok d' -> I d -> I d') -> preserves I (fs_update f).
Proof.
  intros Hf d d' r H Hi. unfold fs_update in H.
  destruct (f d) as [d1|e] eqn:E; injection H as <- _; eauto.
Qed.

(** A proof that an action preserves a property of the disk, down to the
    primitive actions, which are left as goals. *)
Ltac preserves_auto :=
  repeat first
    [ apply preserves_ret
    | apply preserves_lift
    | apply preserves_bind; [| intros ?]
    | match goal with
      | |- preserves _ (if ?b then _ else _) => destruct b
      | |- preserves _ (match ?j with _ => _ end) => destruct j
      end ].

Lemma write_file_inv p content (d d' : fs) :
  write_file p content d = Ok d' -> d' = fs_set p (File content) d.
Proof.
  unfold write_file.
  destruct (fs_get (removelast p) d) as [[| |]|];
    destruct (removelast p);
    destruct (fs_get p d) as [[| |]|];
    intros H; try discriminate; injection H as <-; reflexivity.
Qed.

Lemma mkdir_inv p (d d' : fs) :
  mkdir p d = Ok d' -> d' = d \/ (fs_get p d = None /\ d' = d ++ [(p, Dir)]).
Proof.
  unfold mkdir. destruct (fs_get p d) as [[| |]|]; intros H;
    try discriminate; injection H as <-; auto.
Qed.

(** ** A stored file stays a file *)

Lemma is_file_mkdir q p (d d' : fs) :
  mkdir p d = Ok d' -> is_file q d -> is_file q d'.
Proof.
  intros H [c Hc]. destruct (mkdir_inv _ _ _ H) as [-> | [_ ->]].
  - exists c. exact Hc.
  - exists c. apply fs_get_app, Hc.
Qed.

Lemma is_file_write q p content (d d' : fs) :
  write_file p content d = Ok d' -> is_file q d -> is_file q d'.
Proof.
  intros H [c Hc]. rewrite (write_file_inv _ _ _ _ H).
  destruct (fpath_eqb q p) eqn:E.
  - apply fpath_eqb_eq in E. subst q. exists content. apply fs_get_set_same.
  - exists c. rewrite fs_get_set_other; [exact Hc|].
    intros ->. rewrite (proj2 (fpath_eqb_eq p p) eq_refl) in E. discriminate.
Qed.

Lemma is_file_save_file L folder q file_data :
  preserves (is_file q) (save_file L folder file_data).
Proof.
  unfold save_file. preserves_auto.
  all: apply preserves_update; intros d d'.
  - apply is_file_mkdir.
  - apply is_file_write.
Qed.

Lemma is_file_save_message_files L folder q msg :
  preserves (is_file q) (save_message_files L folder msg).
Proof.
  unfold save_message_files. preserves_auto.
  apply preserves_for_each. intros x. apply is_file_save_file.
Qed.

Lemma fs_for_each_split {A : Type} (body : A -> FSM unit) (l : list A) x
  (d d' : fs) :
  fs_for_each body l d = (d', Ok tt) -> In x l ->
  exists l2 da db,
    body x da = (db, Ok tt) /\ fs_for_each body l2 db = (d', Ok tt).
Proof.
  revert d. induction l as [|y l IH]; intros d H Hin; [contradiction|].
  cbn [fs_for_each] in H. unfold fs_bind in H.
  destruct (body y d) as [d1 [[]|e]] eqn:E; [|discriminate].
  destruct Hin as [-> | Hin].
  - exists l, d, d1. split; assumption.
  - apply (IH d1 H Hin).
Qed.

(** The steps of a successful save. *)
Lemma save_session_steps L root now1 now2 data (d d' : fs) sv :
  save_session L root now1 now2 data d = (d', Success sv) ->
  storage_configured root = true /\
  exists chat_title messages created_at d2 d3 msgs,
    py_get "chat_id" JNull data = Ok (saved_chat_id sv) /\
    py_get "chat_title" (JStr "Untitled Chat") data = Ok chat_title /\
    py_get "messages" (JList []) data = Ok messages /\
    py_get "created_at" (JStr now1) data = Ok created_at /\
    truthy (saved_chat_id sv) = true /\
    saved_folder sv = chat_folder_of (py_str L (saved_chat_id sv)) /\
    mkdirs [] (saved_folder sv) d = (d2, Ok tt) /\
    write_file (saved_folder sv ++ ["session.json" : str])
      (json_dumps L (session_data_of created_at (JStr now2)
                       (saved_chat_id sv) chat_title messages)) d2 = Ok d3 /\
    py_iter messages = Ok msgs /\
    fs_for_each (save_message_files L (saved_folder sv)) msgs d3
    = (d', Ok tt).
Proof.
  unfold save_session.
  destruct (storage_configured root); simpl; [|discriminate].
  intros H. split; [reflexivity|].
  destruct (save_session_body L now1 now2 data d) as [d1 [r|e]] eqn:E;
    [|discriminate].
  injection H as -> ->.
  unfold save_session_body, fs_bind, fs_lift in E.
  destruct (py_get "chat_id" JNull data) as [chat_id|] eqn:E1;
    [|discriminate].
  destruct (py_get "chat_title" (JStr "Untitled Chat") data)
    as [chat_title|] eqn:E2; [|discriminate].
  destruct (py_get "messages" (JList []) data) as [messages|] eqn:E3;
    [|discriminate].
  destruct (truthy chat_id) eqn:Et; simpl in E; [|discriminate].
  set (folder := chat_folder_of (py_str L chat_id)) in *.
  destruct (mkdirs [] folder d) as [d2 [[]|]] eqn:E4; [|discriminate].
  destruct (py_get "created_at" (JStr now1) data) as [created_at|] eqn:E5;
    [|discriminate].
  unfold fs_update at 1 in E.
  destruct (write_file _ _ d2) as [d3|] eqn:E6; [|discriminate].
  destruct (py_iter messages) as [msgs|] eqn:E7; [|discriminate].
  destruct (fs_for_each (save_message_files L folder) msgs d3)
    as [d4 [[]|]] eqn:E8; [|discriminate].
  injection E as -> <-. simpl.
  exists chat_title, messages, created_at, d2, d3, msgs.
  repeat split; auto.
Qed.

Lemma save_file_stores L folder name c0 content file_data (d d' : fs) :
  py_get "name" (JStr "unnamed_file") file_data = Ok (JStr name) ->
  py_get "content" JNull file_data = Ok (JStr (c0 :: content)) ->
  save_file L folder file_data d = (d', Ok tt) ->
  fs_get (folder ++ ["uploads" : str] ++ [sanitize_filename L name]) d'
  = Some (File (c0 :: content)).
Proof.
  intros Hn Hc. unfold save_file, fs_bind, fs_lift. rewrite Hc.
  destruct (py_get "fileData" JNull file_data) as [fd|]; [|discriminate].
  cbn [or_else truthy str_eqb negb]. rewrite Hn.
  unfold fs_update at 1.
  destruct (mkdir (folder ++ ["uploads" : str]) d) as [d1|]; [|discriminate].
  destruct (py_get "fileData" (JStr []) file_data) as [fd'|]; [|discriminate].
  unfold fs_update.
  destruct (write_file _ (c0 :: content) d1) as [d2|] eqn:E; [|discriminate].
  intros [= <-]. apply (write_file_get _ _ _ _ E).
Qed.

(** X17: after a successful save, every attachment of every message that
    has a name and a non-empty text as [content] is a file of the chat's
    [uploads] directory, under its sanitised name. *)
Theorem attachments_are_stored (L : Lib) (root : option str)
  (now1 now2 : str) (data : json) (d d' : fs) (sv : saved)
  (msgs files : list json) (msg file_data : json)
  (name content : str) (c0 : char) :
  save_session L root now1 now2 data d = (d', Success sv) ->
  py_get "messages" (JList []) data = Ok (JList msgs) ->
  In msg msgs ->
  py_get "files" JNull msg = Ok (JList files) ->
  In file_data files ->
  py_get "name" (JStr "unnamed_file") file_data = Ok (JStr name) ->
  py_get "content" JNull file_data = Ok (JStr (c0 :: content)) ->
  is_file (saved_folder sv ++ ["uploads" : str] ++ [sanitize_filename L name])
          d'.
Proof.
  intros H Hm Hin Hf Hin' Hn Hc.
  destruct (save_session_steps _ _ _ _ _ _ _ _ H)
    as (_ & chat_title & messages & created_at & d2 & d3 & msgs' &
        _ & _ & H3 & _ & _ & _ & _ & _ & H7 & H8).
  rewrite Hm in H3. injection H3 as <-. injection H7 as <-.
  set (folder := saved_folder sv) in *.
  set (q := folder ++ ["uploads" : str] ++ [sanitize_filename L name]).
  destruct (fs_for_each_split _ _ _ _ _ H8 Hin) as (l2 & da & db & Hb & Hrest).
  apply (preserves_for_each (is_file q) _ l2
           (fun x => is_file_save_message_files L folder q x) db d' _ Hrest).
  unfold save_message_files, fs_bind, fs_lift in Hb. rewrite Hf in Hb.
  destruct files as [|f0 files0] eqn:Efiles; [contradiction|].
  cbn [truthy py_iter] in Hb. rewrite <- Efiles in *.
  destruct (fs_for_each_split _ _ _ _ _ Hb Hin')
    as (l3 & dc & dd & Hs & Hrest').
  apply (preserves_for_each (is_file q) _ l3
           (fun x => is_file_save_file L folder q x) dd db _ Hrest').
  exists (c0 :: content).
  apply (save_file_stores L folder name c0 content file_data dc dd Hn Hc Hs).
Qed.

Lemma attachments_are_stored_witness :
  is_file [of_string "chat_42"; of_string "uploads";
           of_string "my file_name_.txt"] sample_disk.
Proof.
  refine (attachments_are_stored sample_lib (Some (of_string "/data"))
            "2026-01-05T10:00:00.000001" "2026-01-05T10:00:00.000002"
            sample_request [] sample_disk
            (mk_saved (JStr "42") [of_string "chat_42"])
            _ _ _ _ "my file:name?.txt" "otes" "n"%char
            eq_refl eq_refl (or_introl eq_refl) eq_refl (or_introl eq_refl)
            eq_refl eq_refl).
Defined.

(** ** A first save, then the listing *)

Lemma single_chat_mkdir name p (d d' : fs) :
  2 <= List.length p ->
  mkdir p d = Ok d' -> single_chat name d -> single_chat name d'.
Proof.
  intros Hp H (rest & -> & Hrest).
  destruct (mkdir_inv _ _ _ H) as [-> | [_ ->]].
  - exists rest. split; [reflexivity | exact Hrest].
  - exists (rest ++ [(p, Dir)]). split; [reflexivity|].
    apply Forall_app. split; [exact Hrest|]. constructor; [exact Hp|constructor].
Qed.

Lemma fs_set_long p n (rest : fs) :
  2 <= List.length p ->
  Forall (fun e => 2 <= List.length (fst e)) rest ->
  Forall (fun e => 2 <= List.length (fst e)) (fs_set p n rest).
Proof.
  intros Hp. induction 1 as [|[q m] rest Hq Hrest IH]; cbn [fs_set].
  - constructor; [exact Hp | constructor].
  - destruct (fpath_eqb p q); constructor; assumption.
Qed.

Lemma single_chat_write name p content (d d' : fs) :
  2 <= List.length p ->
  write_file p content d = Ok d' -> single_chat name d -> single_chat name d'.
Proof.
  intros Hp H (rest & -> & Hrest). rewrite (write_file_inv _ _ _ _ H).
  cbn [fs_set]. destruct (fpath_eqb p [name]) eqn:E.
  - apply fpath_eqb_eq in E. subst p. simpl in Hp. lia.
  - exists (fs_set p (File content) rest). split; [reflexivity|].
    apply fs_set_long; assumption.
Qed.

Lemma single_chat_save_file L name file_data :
  preserves (single_chat name) (save_file L [name] file_data).
Proof.
  unfold save_file. preserves_auto.
  all: apply preserves_update; intros d d'.
  - apply single_chat_mkdir. simpl. lia.
  - apply single_chat_write. simpl. lia.
Qed.

Lemma single_chat_save_message_files L name msg :
  preserves (single_chat name) (save_message_files L [name] msg).
Proof.
  unfold save_message_files. preserves_auto.
  apply preserves_for_each. intros x. apply single_chat_save_file.
Qed.

Lemma glob_chat_long (rest : fs) :
  Forall (fun e => 2 <= List.length (fst e)) rest -> glob_chat rest = [].
Proof.
  unfold glob_chat. induction 1 as [|[q m] rest Hq Hrest IH]; [reflexivity|].
  cbn [flat_map]. rewrite IH. cbn [fst] in *.
  destruct q as [|a [|b q]]; simpl in Hq; try lia. reflexivity.
Qed.

(** X18: a first save followed by the listing: when a session whose
    identifier has no slash is saved to an empty storage directory and the
    JSON text written for its record parses back to it, [load_sessions]
    answers with exactly one summary, which carries the identifier, the
    title and the creation time of the request, the time of the save as
    [updated_at], and the number of messages. *)
Theorem first_save_is_listed (L : Lib) (root : option str)
  (now1 now2 : str) (data : json) (d' : fs) (sv : saved)
  (chat_title messages created_at : json) (n : nat) :
  save_session L root now1 now2 data [] = (d', Success sv) ->
  mem_char "/"%char (py_str L (saved_chat_id sv)) = false ->
  py_get "chat_title" (JStr "Untitled Chat") data = Ok chat_title ->
  py_get "messages" (JList []) data = Ok messages ->
  py_get "created_at" (JStr now1) data = Ok created_at ->
  py_len messages = Ok n ->
  (let session_data :=
     session_data_of created_at (JStr now2) (saved_chat_id sv)
       chat_title messages in
   json_loads L (json_dumps L session_data) = Some session_data) ->
  load_sessions L root d' =
  Success [mk_summary (saved_chat_id sv) chat_title created_at (JStr now2) n].
Proof.
  intros H Hslash Ht Hm Hc Hn Hrt.
  destruct (save_session_steps _ _ _ _ _ _ _ _ H)
    as (Hroot & chat_title' & messages' & created_at' & d2 & d3 & msgs &
        _ & H2 & H3 & H4 & _ & Hfolder & Hmk & Hw & _ & Hloop).
  rewrite Ht in H2. injection H2 as <-.
  rewrite Hm in H3. injection H3 as <-.
  rewrite Hc in H4. injection H4 as <-.
  destruct (save_session_writes _ _ _ _ _ _ _ _ H)
    as (_ & chat_title' & messages' & created_at' &
        _ & H2 & H3 & H4 & _ & Hfile).
  rewrite Ht in H2. injection H2 as <-.
  rewrite Hm in H3. injection H3 as <-.
  rewrite Hc in H4. injection H4 as <-.
  rewrite (chat_folder_of_plain _ Hslash) in Hfolder, Hfile.
  set (name := "chat_" ++ py_str L (saved_chat_id sv)) in *.
  rewrite Hfolder in Hmk, Hw, Hloop.
  assert (Hd2 : single_chat name d2).
  { cbn in Hmk. injection Hmk as <-. exists []. split; [reflexivity|constructor]. }
  assert (Hd3 : single_chat name d3).
  { eapply single_chat_write; [| exact Hw | exact Hd2]. simpl. lia. }
  assert (Hd' : single_chat name d').
  { apply (preserves_for_each (single_chat name) _ msgs
             (fun x => single_chat_save_message_files L name x) d3 d' _
             Hloop Hd3). }
  destruct Hd' as (rest & Hd' & Hrest).
  unfold load_sessions. rewrite Hroot. cbn [negb].
  assert (Hglob : glob_chat d' = [[name]]).
  { rewrite Hd'. unfold glob_chat. cbn [flat_map fst].
    change (flat_map _ rest) with (glob_chat rest).
    rewrite (glob_chat_long _ Hrest).
    unfold name. rewrite startswith_app. reflexivity. }
  rewrite Hglob. cbn [for_each bind_result].
  assert (Hdir : is_dir [name] d' = true).
  { rewrite Hd'. unfold is_dir.
    change (fs_get [name] (([name], Dir) :: rest))
      with (if fpath_eqb [name] [name] then Some Dir else fs_get [name] rest).
    rewrite (proj2 (fpath_eqb_eq [name] [name]) eq_refl). reflexivity. }
  unfold load_summary. rewrite Hdir.
  change ([name] ++ ["session.json" : str]) with [name; "session.json" : str]
    in *.
  unfold exists_, read_file. rewrite Hfile. cbn [bind_result].
  cbv zeta in Hrt. rewrite Hrt.
  unfold session_data_of. cbn. rewrite Hn. reflexivity.
Qed.

Lemma first_save_is_listed_witness :
  load_sessions sample_lib (Some (of_string "/data")) sample_disk =
  Success [mk_summary (JStr "42") (JStr "Trip plan")
             (JStr "2026-01-05T10:00:00.000001")
             (JStr "2026-01-05T10:00:00.000002") 1].
Proof.
  apply (first_save_is_listed sample_lib (Some (of_string "/data"))
           "2026-01-05T10:00:00.000001" "2026-01-05T10:00:00.000002"
           sample_request sample_disk
           (mk_saved (JStr "42") [of_string "chat_42"])
           (JStr "Trip plan")
           (JList [ JDict [ ("role" : str, JStr "user");
                            ("content" : str, JStr "see the attachment");
                            ("files" : str,
                              JList [ JDict [ ("name" : str,
                                                JStr "my file:name?.txt");
                                              ("content" : str,
                                                JStr "notes") ] ]) ] ])
           (JStr "2026-01-05T10:00:00.000001") 1);
    vm_compute; reflexivity.
Defined.

(** ** The order of the listing *)

Lemma insert_by_key_last x l :
  has_str_key x -> Forall has_str_key l ->
  Forall (fun y => not_older x y) l ->
  insert_by_key x l = Ok (l ++ [x]).
Proof.
  intros [tx Hx] Hl Hn. induction l as [|y l IH]; [reflexivity|].
  inversion Hl as [|? ? [ty Hy] Hl']; subst.
  inversion Hn as [|? ? Hxy Hn']; subst.
  cbn [insert_by_key]. unfold not_older, ts_of in Hxy.
  rewrite Hx, Hy in *. cbn [py_lt bind_result]. rewrite Hxy.
  rewrite (IH Hl' Hn'). reflexivity.
Qed.

Lemma sort_ascending_sorted_acc l acc :
  Forall has_str_key acc -> Forall has_str_key l ->
  StronglySorted not_older (rev l ++ rev acc) ->
  for_each (fun acc x => insert_by_key x acc) l acc = Ok (acc ++ l).
Proof.
  revert acc. induction l as [|x l IH]; intros acc Ha Hl Hs.
  - rewrite app_nil_r. reflexivity.
  - inversion Hl as [|? ? Hx Hl']; subst.
    cbn [for_each]. rewrite insert_by_key_last; [| exact Hx | exact Ha |].
    + cbn [bind_result]. rewrite IH.
      * rewrite <- app_assoc. reflexivity.
      * apply Forall_app. split; [exact Ha | constructor; [exact Hx|constructor]].
      * exact Hl'.
      * rewrite rev_app_distr. cbn [rev app] in *.
        rewrite <- app_assoc in Hs. exact Hs.
    + cbn [rev] in Hs. rewrite <- app_assoc in Hs. cbn [app] in Hs.
      clear - Hs. induction (rev l) as [|z r IHr].
      * cbn [app] in Hs. inversion Hs as [|? ? _ Hf]; subst.
        apply Forall_rev in Hf. rewrite rev_involutive in Hf. exact Hf.
      * cbn [app] in Hs. inversion Hs; subst. auto.
Qed.

(** A listing already in descending order comes back as it is. *)
Lemma sort_sessions_sorted_input (l : list summary) :
  Forall has_str_key l ->
  StronglySorted not_older l ->
  sort_sessions l = Ok l.
Proof.
  intros Hk Hs. unfold sort_sessions, sort_ascending.
  rewrite sort_ascending_sorted_acc.
  - cbn [bind_result app]. rewrite rev_involutive. reflexivity.
  - constructor.
  - apply Forall_rev, Hk.
  - rewrite rev_involutive, app_nil_r. exact Hs.
Qed.

Lemma str_ltb_irrefl (a : str) : str_ltb a a = false.
Proof.
  destruct (str_ltb a a) eqn:E; [|reflexivity].
  rewrite (str_ltb_asym _ _ E) in E. discriminate.
Qed.

Lemma with_ts_eq (t : str) (x : summary) :
  with_ts t x = true -> ts_of x = t.
Proof. unfold with_ts. apply str_eqb_eq. Qed.

Lemma filter_none {A : Type} (f : A -> bool) (l : list A) :
  Forall (fun x => f x = false) l -> filter f l = [].
Proof.
  induction 1 as [|x l Hx Hl IH]; cbn [filter]; [reflexivity|].
  rewrite Hx. exact IH.
Qed.

Lemma filter_rev_comm {A : Type} (f : A -> bool) (l : list A) :
  filter f (rev l) = rev (filter f l).
Proof.
  induction l as [|x l IH]; [reflexivity|].
  cbn [rev filter]. rewrite filter_app, IH. cbn [filter].
  destruct (f x); [reflexivity | apply app_nil_r].
Qed.

(** An insertion puts the new entry behind the entries of its own time
    stamp. *)
Lemma insert_pure_stable (t : str) (x : summary) (l : list summary) :
  StronglySorted not_newer l ->
  filter (with_ts t) (insert_pure x l) = filter (with_ts t) (l ++ [x]).
Proof.
  induction 1 as [|y r Hr IH Hy]; [reflexivity|].
  cbn [insert_pure].
  destruct (str_ltb (ts_of x) (ts_of y)) eqn:E.
  - rewrite filter_app.
    destruct (with_ts t x) eqn:Ex; cbn [filter]; rewrite Ex;
      [|rewrite app_nil_r; reflexivity].
    apply with_ts_eq in Ex.
    assert (Hnone : filter (with_ts t) (y :: r) = []).
    { apply filter_none. constructor.
      - destruct (with_ts t y) eqn:Ey; [|reflexivity].
        apply with_ts_eq in Ey. rewrite <- Ex in Ey. rewrite Ey in E.
        rewrite str_ltb_irrefl in E. discriminate.
      - rewrite Forall_forall in *. intros z Hz.
        destruct (with_ts t z) eqn:Ez; [|reflexivity].
        apply with_ts_eq in Ez. specialize (Hy z Hz).
        unfold not_newer, not_older in Hy.
        rewrite Ez, <- Ex, E in Hy. discriminate. }
    cbn [filter] in Hnone. rewrite Hnone. reflexivity.
  - change ((y :: r) ++ [x]) with (y :: (r ++ [x])).
    cbn [filter]. rewrite IH. reflexivity.
Qed.

Lemma sort_pure_stable (t : str) (l acc : list summary) :
  StronglySorted not_newer acc ->
  filter (with_ts t) (sort_pure l acc) = filter (with_ts t) (acc ++ l).
Proof.
  revert acc. induction l as [|x l IH]; intros acc Ha.
  - rewrite app_nil_r. reflexivity.
  - unfold sort_pure. cbn [fold_left]. fold (sort_pure l (insert_pure x acc)).
    rewrite (IH _ (insert_pure_sorted x acc Ha)).
    rewrite filter_app, (insert_pure_stable t x acc Ha), <- filter_app.
    rewrite <- app_assoc. reflexivity.
Qed.

(** X19: the sort of the listing is stable. For every list of summaries
    whose [updated_at] are strings the sort succeeds, the result is in
    descending order of [updated_at], and for every time stamp the
    summaries that carry it are the same and in the same order as in the
    listing: sessions with equal time stamps keep the order in which the
    directory listed them, whatever lies between them. In particular a
    listing already in descending order comes back unchanged. *)
Theorem sort_sessions_stable (l : list summary) :
  Forall has_str_key l ->
  exists sorted,
    sort_sessions l = Ok sorted /\
    StronglySorted not_older sorted /\
    (forall t, filter (with_ts t) sorted = filter (with_ts t) l) /\
    (StronglySorted not_older l -> sorted = l).
Proof.
  intros Hk.
  assert (Hs : sort_sessions l = Ok (rev (sort_pure (rev l) []))).
  { unfold sort_sessions, sort_ascending.
    rewrite (sort_ascending_pure (rev l) []);
      [reflexivity | apply Forall_rev, Hk | constructor]. }
  exists (rev (sort_pure (rev l) [])). split; [exact Hs|]. split; [|split].
  - apply (StronglySorted_rev not_newer), sort_pure_sorted. constructor.
  - intros t. rewrite filter_rev_comm, sort_pure_stable; [|constructor].
    cbn [app]. rewrite filter_rev_comm, rev_involutive. reflexivity.
  - intros Hsorted. pose proof (sort_sessions_sorted_input l Hk Hsorted) as E.
    rewrite Hs in E. injection E as E. exact E.
Qed.

Lemma sort_sessions_stable_witness :
  exists sorted,
    sort_sessions
      [ mk_summary (JStr "c") JNull JNull (JStr "2026-01-01") 1;
        mk_summary (JStr "b") JNull JNull (JStr "2026-01-02") 0;
        mk_summary (JStr "d") JNull JNull (JStr "2026-01-03") 2;
        mk_summary (JStr "a") JNull JNull (JStr "2026-01-02") 3 ]
    = Ok sorted /\
    filter (with_ts "2026-01-02") sorted =
    [ mk_summary (JStr "b") JNull JNull (JStr "2026-01-02") 0;
      mk_summary (JStr "a") JNull JNull (JStr "2026-01-02") 3 ].
Proof.
  destruct (sort_sessions_stable
      [ mk_summary (JStr "c") JNull JNull (JStr "2026-01-01") 1;
        mk_summary (JStr "b") JNull JNull (JStr "2026-01-02") 0;
        mk_summary (JStr "d") JNull JNull (JStr "2026-01-03") 2;
        mk_summary (JStr "a") JNull JNull (JStr "2026-01-02") 3 ])
    as (sorted & Hs & _ & Hst & _).
  - repeat constructor; eexists; reflexivity.
  - exists sorted. split; [exact Hs|]. rewrite Hst. reflexivity.
Defined.

(* ================================================================== *)
(** * The conversion endpoints: properties *)
(* ================================================================== *)

(** X20: for a YouTube URL the two endpoints agree: with MarkItDown and
    youtube-transcript-api installed, [/convert] and [/youtube] make the
    same remote calls and answer alike, either both with the same
    transcript, title, cleaned URL, language and generated flag, or both
    with status 500 and the same message. *)
Theorem endpoints_agree_on_youtube (L : Lib) (W : Net) (C : Conv)
  (url : str) :
  MARKITDOWN_AVAILABLE C = true ->
  md_init C = Ok tt ->
  YOUTUBE_API_AVAILABLE W = true ->
  is_youtube url = true ->
  fst (convert_url L W C url) = map Remote (fst (convert_youtube_route L W url))
  /\ same_answer (snd (convert_url L W C url))
                 (snd (convert_youtube_route L W url)).
Proof.
  intros Hm Hi Ha Hy. unfold convert_url, convert_youtube_route.
  rewrite Hm, Hi, Ha, Hy. cbn [negb].
  assert (Hne : str_eqb url [] = false).
  { destruct url; [discriminate Hy | reflexivity]. }
  rewrite Hne. unfold is_youtube in Hy.
  assert (Hv : negb (contains "youtube.com" url)
               && negb (contains "youtu.be" url) = false).
  { destruct (contains "youtube.com" url), (contains "youtu.be" url);
      try reflexivity; discriminate Hy. }
  rewrite Hv. unfold convert_youtube.
  destruct (clean_youtube_url L url) as [cleaned|e]; cbn [lift bind].
  - destruct (get_youtube_transcript L W cleaned) as [log [r|e]];
      cbn [bind ret fst snd app]; rewrite ?app_nil_r; split; reflexivity.
  - split; reflexivity.
Qed.

Lemma endpoints_agree_on_youtube_witness :
  fst (convert_url sample_lib playlist_net sample_conv
         "https://youtu.be/abc123") =
  map Remote (fst (convert_youtube_route sample_lib playlist_net
                     "https://youtu.be/abc123")) /\
  same_answer
    (snd (convert_url sample_lib playlist_net sample_conv
            "https://youtu.be/abc123"))
    (snd (convert_youtube_route sample_lib playlist_net
            "https://youtu.be/abc123")).
Proof.
  apply endpoints_agree_on_youtube; reflexivity.
Defined.

(** X21: [/convert] never hands a YouTube URL to MarkItDown and never asks
    the transcript services for another URL: for a URL that names
    youtube.com or youtu.be every call is one of
    [get_youtube_transcript], for any other URL the only call, if any, is
    [md.convert] on the URL as it was sent; and a page is answered as
    converted only when its text has at least 10 characters between its
    outer white space. *)
Theorem convert_url_separates_sources (L : Lib) (W : Net) (C : Conv)
  (url : str) :
  let log := fst (convert_url L W C url) in
  (if is_youtube url then forallb is_remote log = true
   else log = [] \/ log = [EvConvert url]) /\
  match snd (convert_url L W C url) with
  | ConvUrl text _ _ source_url =>
      is_youtube url = false /\ source_url = url /\
      10 <= len (strip is_space text)
  | ConvYouTube _ => is_youtube url = true
  | ConvError status _ _ _ => status = 500
  end.
Proof.
  unfold convert_url.
  destruct (MARKITDOWN_AVAILABLE C); cbn [negb].
  2: { cbn. split; [destruct (is_youtube url); auto | reflexivity]. }
  destruct (md_init C) as [[]|e].
  2: { cbn. split; [destruct (is_youtube url); auto | reflexivity]. }
  destruct (is_youtube url).
  - destruct (clean_youtube_url L url) as [cleaned|e];
      [|split; reflexivity].
    destruct (get_youtube_transcript L W cleaned) as [log [r|e]];
      cbn [fst snd]; (split; [|reflexivity]).
    all: induction log as [|ev log IH]; [reflexivity | exact IH].
  - cbn [fst snd]. split; [right; reflexivity|].
    destruct (md_convert C url) as [result|e]; [|reflexivity].
    destruct (text_content result) as [[|c t]|]; try reflexivity.
    destruct (Nat.ltb_spec (len (strip is_space (c :: t))) 10);
      [reflexivity|].
    destruct (looks_like_error (str_lower C (c :: t))); [reflexivity|].
    repeat split. assumption.
Qed.

(* ================================================================== *)
(** * The table of formats: properties *)
(* ================================================================== *)

Lemma dict_get_In {A : Type} (k : str) (d : list (str * A)) :
  (exists v, dict_get k d = Some v) <-> In k (map fst d).
Proof.
  induction d as [|[k' v'] d IH]; cbn [dict_get map fst In].
  - split; [intros [v Hv]; discriminate | contradiction].
  - destruct (str_eqb k k') eqn:E.
    + apply str_eqb_eq in E. subst k'. split; [auto | eauto].
    + rewrite IH. split; [auto|]. intros [-> | Hin]; [|exact Hin].
      rewrite (proj2 (str_eqb_eq k k) eq_refl) in E. discriminate.
Qed.

Lemma existsb_str_eqb (k : str) (l : list str) :
  existsb (str_eqb k) l = true <-> In k l.
Proof.
  rewrite existsb_exists. split.
  - intros (x & Hin & E). apply str_eqb_eq in E. subst x. exact Hin.
  - intros Hin. exists k. split; [exact Hin | apply str_eqb_eq; reflexivity].
Qed.

Lemma categories_of_listed (e c : str) (l : list str) :
  categories_of e = c :: l -> In e (flat_map snd categories).
Proof.
  intros E. apply in_flat_map. unfold categories_of in E.
  assert (Hc : In c (map fst (filter
            (fun c => existsb (str_eqb e) (snd c)) categories)))
    by (rewrite E; left; reflexivity).
  apply in_map_iff in Hc as ([c' exts] & _ & Hf).
  apply filter_In in Hf as [Hf1 Hf2].
  exists (c', exts). split; [exact Hf1 | apply existsb_str_eqb, Hf2].
Qed.

(** X22: the two tables of formats agree: an extension has a MIME type in
    [SUPPORTED_FORMATS], and so is reported by [/health], exactly when
    [/formats] lists it under one of its categories of files, and no
    extension is listed under two categories. *)
Theorem formats_and_categories_agree (e : str) :
  ((exists mime, dict_get e SUPPORTED_FORMATS = Some mime) <->
   In e health_formats) /\
  (In e health_formats <->
   exists c, categories_of e = [c] /\ c <> "youtube") /\
  (categories_of e = [] \/ exists c, categories_of e = [c]).
Proof.
  assert (Hkeys :
    forallb (fun k => match categories_of k with
                      | [c] => negb (str_eqb c "youtube")
                      | _ => false
                      end) health_formats = true)
    by (vm_compute; reflexivity).
  assert (Hlisted :
    forallb (fun k => match categories_of k with
                      | [c] => str_eqb c "youtube"
                               || existsb (str_eqb k) health_formats
                      | _ => false
                      end) (flat_map snd categories) = true)
    by (vm_compute; reflexivity).
  rewrite forallb_forall in Hkeys, Hlisted.
  split; [apply dict_get_In|]. split; [split|].
  - intros Hin. specialize (Hkeys e Hin).
    destruct (categories_of e) as [|c [|]]; try discriminate.
    exists c. split; [reflexivity|]. intros ->. discriminate.
  - intros (c & Hc & Hne).
    specialize (Hlisted e (categories_of_listed _ _ _ Hc)).
    rewrite Hc in Hlisted. apply orb_true_iff in Hlisted as [E | E].
    + apply str_eqb_eq in E. contradiction.
    + apply existsb_str_eqb, E.
  - destruct (categories_of e) as [|c l] eqn:E; [left; reflexivity|].
    right. specialize (Hlisted e (categories_of_listed _ _ _ E)).
    rewrite E in Hlisted. destruct l; [|discriminate].
    exists c. reflexivity.
Qed.

Lemma formats_and_categories_agree_witness :
  exists c, categories_of "pdf" = [c] /\ c <> "youtube".
Proof.
  apply (proj1 (proj1 (proj2 (formats_and_categories_agree "pdf")))).
  left. reflexivity.
Defined.

(* ================================================================== *)
(** * The setup script: properties *)
(* ================================================================== *)

Ltac setup_step H :=
  match goal with
  | |- context [match run H ?c with _ => _ end] =>
      destruct (run H c) eqn:?
  | |- context [if path_exists H ?p then _ else _] =>
      destruct (path_exists H p) eqn:?
  | |- context [if negb (version_ok H) then _ else _] =>
      destruct (version_ok H) eqn:?
  | |- context [negb (path_exists H ?p)] =>
      destruct (path_exists H p) eqn:?
  end;
  cbn [negb run_bind run_ret sys_exit fst snd app].

(** The runs of the script, by the outcome of each of its steps. *)
Ltac setup_cases H :=
  unfold setup, main, check_python, check_pip, create_venv,
    install_dependencies, check_server_file, start_server, run_command,
    check_call;
  cbn [negb run_bind run_ret sys_exit fst snd app];
  repeat setup_step H.

(** X23: the setup script starts the server exactly when every step before
    it succeeded: the Python version is 3.7 or later, pip is there or
    could be installed, the virtual environment exists or could be
    created, pip was upgraded and the five packages installed with the
    Python of the virtual environment, and [server.py] is in the working
    directory. *)
Theorem server_started_iff_ready (H : Host) :
  In (server_command (get_venv_python H)) (fst (setup H)) <-> ready H.
Proof.
  split.
  - setup_cases H.
    all: cbn [In fst]; unfold server_command, pip_version; intros Hin.
    all: repeat (destruct Hin as [Hin|Hin]; [try discriminate Hin|]);
      try contradiction.
    all: unfold ready, pip_version; repeat split; auto.
  - intros (Hv & Hpip & Hvenv & Hup & Hdeps & Hs).
    assert (Hdeps' :
      run H (Shell (get_venv_python H ++ " -m pip install "
                    ++ join " " dependencies)) = Zero) by exact Hdeps.
    assert (Hvenv' :
      path_exists H "venv" = true \/
      run H (Shell (executable H ++ " -m venv " ++ "venv")) = Zero)
      by exact Hvenv.
    unfold setup, main, check_python, check_pip, create_venv,
      install_dependencies, check_server_file, start_server, run_command,
      check_call.
    rewrite Hv, Hup, Hdeps', Hs.
    destruct Hpip as [-> | [-> ->]], Hvenv' as [-> | ->];
      destruct (path_exists H "venv");
      cbn [negb run_bind run_ret sys_exit fst snd app In]; auto 10.
Qed.

Lemma server_started_iff_ready_witness :
  In (server_command "venv/bin/python") (fst (setup fresh_host)).
Proof.
  apply (proj2 (server_started_iff_ready fresh_host)).
  unfold ready. repeat split; auto.
Defined.

(** X24: the setup script stops at the first step that fails: every command
    it ran, except the last one, ended with status 0, the query for pip
    apart, which may fail and is then followed by the installation of
    pip. *)
Theorem setup_stops_at_first_failure (H : Host) :
  went_well H (fst (setup H)).
Proof.
  setup_cases H.
  all: cbn [went_well fst]; repeat split; auto.
Qed.

(** X25: the setup script ends with status 0 only if the server was started
    or the user interrupted a command; a step that fails gives status
    1. *)
Theorem setup_exit_status (H : Host) :
  snd (setup H) = 0 ->
  ready H \/ exists c, In c (fst (setup H)) /\ run H c = Interrupt.
Proof.
  setup_cases H.
  all: intros Hst; try discriminate Hst.
  all: try (left; unfold ready, pip_version; repeat split; auto; fail).
  all: right;
    match goal with
    | Hc : run _ ?c = Interrupt |- _ =>
        exists c; split; [cbn [In]; auto 10; fail | exact Hc]
    end.
Qed.

Lemma setup_exit_status_witness :
  snd (setup fresh_host) = 0 /\
  (ready fresh_host \/
   exists c, In c (fst (setup fresh_host)) /\ run fresh_host c = Interrupt).
Proof.
  split; [reflexivity|].
  apply (setup_exit_status fresh_host). reflexivity.
Defined.

(* ================================================================== *)
(** * The batch conversion: properties *)
(* ================================================================== *)

Lemma convert_loop_entries (C : Conv) (files : list upload)
  (acc : list batch_entry) :
  storable files ->
  exists results,
    for_each (fun results file =>
                let? r := convert_one C file in Ok (results ++ r))
             files acc = Ok (acc ++ results) /\
    map entry_name results =
    filter (fun name => negb (str_eqb name [])) (map filename files) /\
    Forall (entry_faithful C) results.
Proof.
  intros Hs. revert acc.
  induction Hs as [|f files Hf Hs IH]; intros acc.
  - exists []. rewrite app_nil_r. repeat split. constructor.
  - cbn [for_each map filter]. unfold convert_one at 1.
    destruct (str_eqb (filename f) []) eqn:E; cbn [negb bind_result].
    + rewrite app_nil_r. apply IH.
    + rewrite Hf. cbn [bind_result].
      match goal with
      | |- context [for_each _ files (acc ++ [?x])] => set (entry := x)
      end.
      destruct (IH (acc ++ [entry])) as (results & H1 & H2 & H3).
      exists (entry :: results). rewrite H1, <- app_assoc.
      split; [reflexivity|]. split.
      * cbn [map]. rewrite H2. f_equal. unfold entry.
        destruct (md_convert C ("temp_" ++ filename f)); reflexivity.
      * constructor; [|exact H3]. unfold entry, entry_faithful.
        destruct (md_convert C ("temp_" ++ filename f)) as [[t m ti]|e]
          eqn:Em; cbn [text_content markdown title].
        -- exact Em.
        -- exists e. split; [exact Em | reflexivity].
Qed.

(** X26: in a batch whose files can all be stored, a conversion that fails
    neither fails the batch nor drops or reorders the other files: the
    answer has exactly one entry per file with a name, in the order of the
    request, and each entry reports what [md.convert] did with that
    file, its result or its error. *)
Theorem batch_keeps_every_file (C : Conv) (files : list upload) :
  MARKITDOWN_AVAILABLE C = true ->
  md_init C = Ok tt ->
  files <> [] ->
  storable files ->
  exists results,
    convert_multiple C (Some files) = BatchOk results /\
    map entry_name results =
    filter (fun name => negb (str_eqb name [])) (map filename files) /\
    Forall (entry_faithful C) results.
Proof.
  intros Hm Hi Hne Hs. unfold convert_multiple. rewrite Hm, Hi.
  destruct files as [|f files]; [contradiction|].
  destruct (convert_loop_entries C (f :: files) [] Hs)
    as (results & H1 & H2 & H3).
  exists results. cbn [negb bind_result]. rewrite H1.
  repeat split; assumption.
Qed.

Lemma batch_keeps_every_file_witness :
  exists results,
    convert_multiple picky_conv (Some sample_batch) = BatchOk results /\
    map entry_name results =
    [of_string "a.txt"; of_string "b.bin"; of_string "c.md"] /\
    Forall (entry_faithful picky_conv) results.
Proof.
  apply (batch_keeps_every_file picky_conv sample_batch).
  - reflexivity.
  - reflexivity.
  - discriminate.
  - repeat constructor.
Defined.
